(** * readable-stream: the pull engine, the pipe/flow loop and the Transform

    A shallow embedding of [readable.js] and [transform.js].

    The JavaScript objects are records; every handler is a function from the
    state it mutates to the new state together with the list of effects it
    performed, in program order.  Numbers that the code uses as sizes are
    integers ([Z]); [undefined], [null] and [NaN] arguments are [None].

    Two layers.  The handlers of one stream ([read], [onread], [_output],
    [done], the closures of [wrap]) work on [ReadableState] and return their
    effects; where code goes on after an [emit] (the ['data'] listener of
    [wrap], several calls of [output] in a row, the ['finish'] listener of a
    Transform), what the listeners of the event do to the state is a
    parameter.  The piped source ([pipe], [flow], [unpipe]) is a [Stream]: the
    state, the listeners the code registers, the queue of
    [process.nextTick], the requests the producer has not answered, and the
    trace of what the destinations saw; it moves by [step], one turn of the
    event loop at a time.  The producer of a piped source answers on a later
    turn, as the contract of [_read] asks.

    [from-list.js] and [writable.js] are not among the sources: the first is
    modelled from the specification, the second is the answer of
    [dest.write] taken as a parameter and the three fields of the writable
    state a Transform reads.  The adapter for ['data'] listeners
    ([emitDataEvents] with the listener of ['readable'], the [pause] and the
    [resume] it installs) is the module [OldMode], for a stream with an
    asynchronous producer on which nothing else listens to ['readable'].
    [Readable.prototype.on], [pause] and [resume], which only call the
    adapter, and [Transform.prototype._write] with [_transform], which are
    driven by [writable.js], are left out. *)

From Stdlib Require Import ZArith List Bool Lia String.
From Stdlib.Strings Require Import Byte.
Import ListNotations.
Open Scope Z_scope.

(** ** Chunks *)

(** A chunk is a Buffer: a sequence of bytes with a [length]. *)
Definition chunk := list byte.

Definition chunk_length (c : chunk) : Z := Z.of_nat (List.length c).

(** Sum of the sizes of the chunks of a queue. *)
Fixpoint total (q : list chunk) : Z :=
  match q with
  | [] => 0
  | c :: rest => chunk_length c + total rest
  end.

(** JavaScript truthiness of a chunk argument, [!chunk || !chunk.length]. *)
Definition no_data (c : option chunk) : bool :=
  match c with
  | None => true
  | Some b => chunk_length b =? 0
  end.

(** [~~x]: ToInt32, the wrap-around to a signed 32-bit integer. *)
Definition to_int32 (x : Z) : Z := (x + 2 ^ 31) mod 2 ^ 32 - 2 ^ 31.

(** [a || b] on numbers: [undefined] and [0] are falsy. *)
Definition or_default (a : option Z) (b : Z) : Z :=
  match a with
  | Some v => if v =? 0 then b else v
  | None => b
  end.

(** ** from-list.js *)

(** Modelled from the spec: from-list.js is not among the sources; the spec
    treats it as the primitive "consume first n units from an ordered chunk
    queue", where chunks may be split.  [take_front n q] is the first [n]
    units of [q] as one chunk, and the queue that is left. *)
Fixpoint take_front (n : nat) (q : list chunk) {struct q} : chunk * list chunk :=
  match q with
  | [] => ([], [])
  | c :: rest =>
      if Nat.eqb n 0 then ([], q)
      else if Nat.leb (List.length c) n then
        let '(r, q') := take_front (n - List.length c) rest in (c ++ r, q')
      else (firstn n c, skipn n c :: rest)
  end.

(** Modelled from the spec: [fromList(n, list, length)] as called by [read]. *)
Definition fromList (n : Z) (queue : list chunk) (len : Z) : chunk * list chunk :=
  take_front (Z.to_nat n) queue.

(** ** Effects *)

Inductive error : Type :=
| NotImplemented                     (* new Error('not implemented') *)
| Failure (msg : string).

Inductive event : Type :=
| Readable
| End_
| Error (er : error).

Inductive effect : Type :=
| Emit (ev : event)                  (* this.emit(ev) *)
| NextTick (ev : event)              (* process.nextTick(this.emit.bind(this, ev)) *)
| Call_read (n : Z)                  (* this._read(n, onread) was invoked *)
| Pause                              (* stream.pause() of a wrapped source *)
| Resume.                            (* stream.resume() of a wrapped source *)

Definition is_call_read (e : effect) : bool :=
  match e with Call_read _ => true | _ => false end.

Definition is_tick_end (e : effect) : bool :=
  match e with NextTick End_ => true | _ => false end.

Definition count (p : effect -> bool) (l : list effect) : nat :=
  List.length (filter p l).

(** ** Destinations of a pipe *)

Inductive Dest : Type :=
| Stdout                             (* process.stdout *)
| Stderr                             (* process.stderr *)
| Sink (id : nat).

Definition Dest_eqb (a b : Dest) : bool :=
  match a, b with
  | Stdout, Stdout => true
  | Stderr, Stderr => true
  | Sink i, Sink j => Nat.eqb i j
  | _, _ => false
  end.

(** ** ReadableState *)

Record Options : Type := {
  opt_bufferSize : option Z;
  opt_lowWaterMark : option Z
}.

Record ReadableState : Type := {
  bufferSize : Z;
  lowWaterMark : Z;
  buffer : list chunk;
  length : Z;
  pipes : list Dest;
  flowing : bool;
  ended : bool;
  reading : bool;
  needReadable : bool
}.

(** [new ReadableState(options, stream)] *)
Definition new_ReadableState (options : option Options) : ReadableState :=
  let bs := match options with Some o => or_default (opt_bufferSize o) (16 * 1024) | None => 16 * 1024 end in
  let lwm := match options with Some o => or_default (opt_lowWaterMark o) 1024 | None => 1024 end in
  {| bufferSize := to_int32 bs;
     lowWaterMark := lwm;
     buffer := [];
     length := 0;
     pipes := [];
     flowing := false;
     ended := false;
     reading := false;
     needReadable := false |}.

Definition set_buffer (b : list chunk) (s : ReadableState) : ReadableState :=
  {| bufferSize := bufferSize s; lowWaterMark := lowWaterMark s; buffer := b;
     length := length s; pipes := pipes s; flowing := flowing s; ended := ended s;
     reading := reading s; needReadable := needReadable s |}.

Definition set_length (n : Z) (s : ReadableState) : ReadableState :=
  {| bufferSize := bufferSize s; lowWaterMark := lowWaterMark s; buffer := buffer s;
     length := n; pipes := pipes s; flowing := flowing s; ended := ended s;
     reading := reading s; needReadable := needReadable s |}.

Definition set_pipes (p : list Dest) (s : ReadableState) : ReadableState :=
  {| bufferSize := bufferSize s; lowWaterMark := lowWaterMark s; buffer := buffer s;
     length := length s; pipes := p; flowing := flowing s; ended := ended s;
     reading := reading s; needReadable := needReadable s |}.

Definition set_flowing (b : bool) (s : ReadableState) : ReadableState :=
  {| bufferSize := bufferSize s; lowWaterMark := lowWaterMark s; buffer := buffer s;
     length := length s; pipes := pipes s; flowing := b; ended := ended s;
     reading := reading s; needReadable := needReadable s |}.

Definition set_ended (b : bool) (s : ReadableState) : ReadableState :=
  {| bufferSize := bufferSize s; lowWaterMark := lowWaterMark s; buffer := buffer s;
     length := length s; pipes := pipes s; flowing := flowing s; ended := b;
     reading := reading s; needReadable := needReadable s |}.

Definition set_reading (b : bool) (s : ReadableState) : ReadableState :=
  {| bufferSize := bufferSize s; lowWaterMark := lowWaterMark s; buffer := buffer s;
     length := length s; pipes := pipes s; flowing := flowing s; ended := ended s;
     reading := b; needReadable := needReadable s |}.

Definition set_needReadable (b : bool) (s : ReadableState) : ReadableState :=
  {| bufferSize := bufferSize s; lowWaterMark := lowWaterMark s; buffer := buffer s;
     length := length s; pipes := pipes s; flowing := flowing s; ended := ended s;
     reading := reading s; needReadable := b |}.

(** [state.buffer.push(chunk)] *)
Definition push (c : chunk) (s : ReadableState) : ReadableState :=
  set_buffer (buffer s ++ [c]) s.

(** ** The push side of a Transform *)

Module Writable.

(** Modelled from the spec: writable.js is not among the sources.  The
    collaborator contract gives the state fields a duplex stage reads:
    [ended], [ending] and the queued size [length]. *)
Record WritableState : Type := {
  ended : bool;
  ending : bool;
  length : Z
}.

End Writable.

(** ** The producer behind [this._read] *)

(** Which [_read] the stream has.  [Source] is an override that answers on a
    later tick, as the contract of [_read] asks (the default
    [Readable.prototype._read] is one: it answers with an error on the next
    tick); its answers are separate calls of [onread].
    [TransformInput ws] is [Transform.prototype._read], which runs inside
    the call and reads the writable state [ws]. *)
Inductive Producer : Type :=
| Source
| TransformInput (ws : Writable.WritableState).

(** The body of [onread] from [if (!chunk || !chunk.length)] on, taken when
    there is no error and no data. *)
Definition onread_no_data (state : ReadableState) : ReadableState * list effect :=
  let state := set_ended true state in
  if 0 <? length state then (state, [Emit Readable]) else (state, []).

Module Transform.

(** [Transform.prototype._read(n, cb)]; [cb] is the callback it was given. *)
Definition _read (ws : Writable.WritableState) (n : Z)
  (cb : ReadableState -> ReadableState * list effect)
  (rs : ReadableState) : ReadableState * list effect :=
  let rs := set_reading false rs in
  if (Writable.ended ws || Writable.ending ws) && (Writable.length ws =? 0)
  then cb rs
  else (rs, []).

(** [Transform.prototype._output(chunk)] *)
Definition _output (chunk : option chunk) (state : ReadableState)
  : ReadableState * list effect :=
  match chunk with
  | None => (state, [])
  | Some c =>
      if chunk_length c =? 0 then (state, [])
      else
        let state := push c state in
        let state := set_length (length state + chunk_length c) state in
        if needReadable state
        then (set_needReadable false state, [Emit Readable])
        else (state, [])
  end.

(** [done(er)] *)
Definition done (er : option error) (rs : ReadableState)
  : ReadableState * list effect :=
  match er with
  | Some e => (rs, [Emit (Error e)])
  | None =>
      let rs := set_ended true rs in
      if negb (length rs =? 0) && needReadable rs then (rs, [Emit Readable])
      else if length rs =? 0 then (rs, [Emit End_])
      else (rs, [])
  end.

(** A [_flush(output, cb)] step that answers inside the call: the chunks it
    hands to [output], in order, and the argument it then gives to [cb].  A
    step that goes on after the call has returned does so by separate calls
    of [_output] and [done]. *)
Record Flush : Type := {
  outputs : list (option chunk);
  result : option error
}.

(** [this.emit('readable')] is the last thing [_output] and [done] do, and
    it runs the listeners of the event before it returns: what a caller
    does next finds the state as the listeners left it.  [listeners] is what
    they do to the state, with the effects of that; [heard listeners r] is
    the outcome [r] of a handler followed by the listeners it woke. *)
Definition heard (listeners : ReadableState -> ReadableState * list effect)
  (r : ReadableState * list effect) : ReadableState * list effect :=
  match snd r with
  | [Emit Readable] =>
      let '(rs, e) := listeners (fst r) in (rs, Emit Readable :: e)
  | _ => r
  end.

(** Nothing listens to ['readable'], or what listens leaves the stream alone
    until the emit has returned. *)
Definition no_listener (rs : ReadableState) : ReadableState * list effect :=
  (rs, []).

(** Calls of [output] one after the other, inside one call of [_transform]
    or [_flush]. *)
Fixpoint output_all (listeners : ReadableState -> ReadableState * list effect)
  (cs : list (option chunk)) (rs : ReadableState)
  : ReadableState * list effect :=
  match cs with
  | [] => (rs, [])
  | c :: rest =>
      let '(rs1, e1) := heard listeners (_output c rs) in
      let '(rs2, e2) := output_all listeners rest rs1 in
      (rs2, e1 ++ e2)
  end.

(** The ['finish'] listener installed by the constructor.  The listeners
    of ['end'] and ['error'] run when all of it is done and are no part of
    it. *)
Definition on_finish (listeners : ReadableState -> ReadableState * list effect)
  (_flush : option Flush) (rs : ReadableState)
  : ReadableState * list effect :=
  match _flush with
  | Some f =>
      let '(rs1, e1) := output_all listeners (outputs f) rs in
      let '(rs2, e2) := heard listeners (done (result f) rs1) in
      (rs2, e1 ++ e2)
  | None => heard listeners (done None rs)
  end.

End Transform.

(** ** Readable.prototype.read *)

(** [this._read(n, onread)] as [read] and [onread] call it.  The callback a
    [Transform] may run inside the call is [onread] applied to no argument,
    which is [onread_no_data] after [state.reading = false]
    (lemma [onread_no_arguments]). *)
Definition call_read (p : Producer) (n : Z) (state : ReadableState)
  : ReadableState * list effect :=
  match p with
  | Source => (state, [Call_read n])
  | TransformInput ws =>
      let '(s, e) :=
        Transform._read ws n (fun s => onread_no_data (set_reading false s)) state in
      (s, Call_read n :: e)
  end.

(** The callback [onread(er, chunk)] of [read]. *)
Definition onread (p : Producer) (er : option error) (chunk : option chunk)
  (state : ReadableState) : ReadableState * list effect :=
  let state := set_reading false state in
  match er with
  | Some e => (state, [Emit (Error e)])
  | None =>
      match chunk with
      | None => onread_no_data state
      | Some c =>
          if chunk_length c =? 0 then onread_no_data state
          else
            let state := set_length (length state + chunk_length c) state in
            let state := push c state in
            let '(state, e1) :=
              if length state <? lowWaterMark state
              then call_read p (bufferSize state) state
              else (state, []) in
            if needReadable state
            then (set_needReadable false state, e1 ++ [Emit Readable])
            else (state, e1)
      end
  end.

(** [isNaN(n) || n <= 0] replaced by [state.length] *)
Definition requested (n : option Z) (state : ReadableState) : Z :=
  match n with
  | None => length state
  | Some k => if k <=? 0 then length state else k
  end.

(** [if (n > state.length) { ... }]: what a request for more than is
    buffered is turned into. *)
Definition granted (n : Z) (state : ReadableState) : Z * ReadableState :=
  if length state <? n then
    if negb (ended state) && (length state <? lowWaterMark state)
    then (0, set_needReadable true state)
    else (length state, state)
  else (n, state).

(** [var ret = n > 0 ? fromList(n, state.buffer, state.length) : null] *)
Definition take (n : Z) (state : ReadableState) : option chunk * ReadableState :=
  if 0 <? n then
    let '(r, q) := fromList n (buffer state) (length state) in
    (Some r, set_buffer q state)
  else (None, state).

(** [if (!state.ended && state.length < state.lowWaterMark && !state.reading)
    { state.reading = true; this._read(state.bufferSize, onread) }] *)
Definition prefetch (p : Producer) (state : ReadableState)
  : ReadableState * list effect :=
  if negb (ended state) && (length state <? lowWaterMark state) && negb (reading state)
  then call_read p (bufferSize state) (set_reading true state)
  else (state, []).

(** [Readable.prototype.read(n)]: the value returned, the state and the
    effects. *)
Definition read (p : Producer) (n : option Z) (state : ReadableState)
  : option chunk * ReadableState * list effect :=
  if (length state =? 0) && ended state then (None, state, [NextTick End_])
  else
    let n := requested n state in
    let '(n, state) := granted n state in
    let '(ret, state) := take n state in
    let state := if no_data ret then set_needReadable true state else state in
    let state := set_length (length state - n) state in
    let '(state, e) := prefetch p state in
    (ret, state, e).

(** ** Readable.prototype.wrap *)

Module Wrap.

Inductive exn : Type :=
| ReferenceError (name : string)
| TypeError (msg : string).

Inductive completion (A : Type) : Type :=
| Returned (a : A)
| Threw (e : exn).

Arguments Returned {A} a.
Arguments Threw {A} e.

(** The variables the closures of [wrap] share: [state] and [paused]. *)
Record Wrapped : Type := {
  state : ReadableState;
  paused : bool
}.

(** [this.wrap(stream)] up to the installation of the listeners. *)
Definition wrap (state : ReadableState) : Wrapped :=
  {| state := state; paused := false |}.

(** The listener of the wrapped stream's ['end']. *)
Definition on_end (w : Wrapped) : Wrapped * list effect :=
  let st := set_ended true (state w) in
  ({| state := st; paused := paused w |},
   if length st =? 0 then [Emit End_] else []).

(** The listener of the wrapped stream's ['data'].  [this.emit('readable')]
    runs in the middle of it: [listeners] is what the listeners of
    ['readable'] do to the shared variables. *)
Definition on_data (listeners : Wrapped -> Wrapped * list effect) (chunk : chunk)
  (w : Wrapped) : Wrapped * list effect :=
  let st := push chunk (state w) in
  let st := set_length (length st + chunk_length chunk) st in
  let '(w1, e1) := listeners {| state := st; paused := paused w |} in
  if (lowWaterMark (state w1) <? length (state w1)) && negb (paused w1)
  then ({| state := state w1; paused := true |}, Emit Readable :: e1 ++ [Pause])
  else (w1, Emit Readable :: e1).

Definition no_listener (w : Wrapped) : Wrapped * list effect := (w, []).

(** [this.read = function(n) { ... }], the override [wrap] installs.

    Its last test, [state.length === 0 && ended], reads the identifier
    [ended], which no enclosing function and not the module declares: it is
    looked up in the global object.  [global_ended] is the truthiness of that
    global when one exists, [None] when there is none, the case of a plain
    Node process, where reading it throws a ReferenceError. *)
Definition read (global_ended : option bool) (n : option Z) (w : Wrapped)
  : completion (option chunk) * Wrapped * list effect :=
  let st := state w in
  if length st =? 0
  then (Returned None, {| state := set_needReadable true st; paused := paused w |}, [])
  else
    let n := requested n st in
    if (length st <? n) && negb (ended st)
    then (Returned None, {| state := set_needReadable true st; paused := paused w |}, [])
    else
      let n := if length st <? n then length st else n in
      let '(ret, q) := fromList n (buffer st) (length st) in
      let st := set_buffer q st in
      let st := set_length (length st - n) st in
      let '(p, e1) :=
        if (length st <? lowWaterMark st) && paused w
        then (false, [Resume]) else (paused w, []) in
      let w' := {| state := st; paused := p |} in
      if length st =? 0 then
        match global_ended with
        | None => (Threw (ReferenceError "ended"), w', e1)
        | Some true => (Returned (Some ret), w', e1 ++ [NextTick End_])
        | Some false => (Returned (Some ret), w', e1)
        end
      else (Returned (Some ret), w', e1).

End Wrap.

(** ** pipe, flow and unpipe *)

Record PipeOpts : Type := {
  end_opt : option bool;               (* pipeOpts.end *)
  chunkSize : option Z                 (* pipeOpts.chunkSize *)
}.

(** What was handed to [process.nextTick]. *)
Inductive Task : Type :=
| Flow (pipeOpts : PipeOpts)           (* flow.bind(null, src, pipeOpts) *)
| EmitEnd.                             (* this.emit.bind(this, 'end') *)

(** What an observer of the source and of its destinations sees. *)
Inductive Obs : Type :=
| FlowRead (ret : option chunk)        (* src.read(pipeOpts.chunkSize) in flow *)
| UserRead (ret : option chunk)        (* src.read(n) called from outside *)
| Wrote (dest : Dest) (c : chunk) (written : bool)   (* dest.write(chunk) *)
| Data (c : chunk)                     (* src.emit('data', chunk) *)
| Ended (dest : Dest)                  (* dest.end() *)
| Piped (dest : Dest)                  (* dest.emit('pipe', src) *)
| Unpiped (dest : Dest)                (* dest.emit('unpipe', src) *)
| Drained (dest : Dest)                (* dest emitted 'drain' *)
| Emitted (ev : event)                 (* src.emit(ev) *)
| Uncaught (e : Wrap.exn).

(** A source stream with an asynchronous producer, its listeners, the
    closures of [flow] that are alive, and the queue of [process.nextTick]. *)
Record Stream : Type := {
  _readableState : ReadableState;
  end_listeners : list (nat * Dest);   (* src.once('end', onend) of the k-th call of pipe *)
  readable_listeners : list PipeOpts;  (* src.once('readable', flow.bind(null, src, pipeOpts)) *)
  unpipe_listeners : list (Dest * nat);(* dest.on('unpipe', ...) of the k-th call of pipe *)
  drain_listeners : list (Dest * nat); (* dest.once('drain', ondrain) of the a-th call of flow *)
  needDrain : list (Z * PipeOpts);     (* needDrain and pipeOpts of each call of flow *)
  ticks : list Task;
  outstanding : nat;                   (* calls of _read not answered yet *)
  trace : list Obs;
  pipe_calls : nat
}.

Definition new_Readable (options : option Options) : Stream :=
  {| _readableState := new_ReadableState options;
     end_listeners := []; readable_listeners := []; unpipe_listeners := [];
     drain_listeners := []; needDrain := []; ticks := []; outstanding := 0%nat;
     trace := []; pipe_calls := 0%nat |}.

Definition set_state (st : ReadableState) (s : Stream) : Stream :=
  {| _readableState := st; end_listeners := end_listeners s;
     readable_listeners := readable_listeners s; unpipe_listeners := unpipe_listeners s;
     drain_listeners := drain_listeners s; needDrain := needDrain s; ticks := ticks s;
     outstanding := outstanding s; trace := trace s; pipe_calls := pipe_calls s |}.

Definition set_end_listeners (l : list (nat * Dest)) (s : Stream) : Stream :=
  {| _readableState := _readableState s; end_listeners := l;
     readable_listeners := readable_listeners s; unpipe_listeners := unpipe_listeners s;
     drain_listeners := drain_listeners s; needDrain := needDrain s; ticks := ticks s;
     outstanding := outstanding s; trace := trace s; pipe_calls := pipe_calls s |}.

Definition set_readable_listeners (l : list PipeOpts) (s : Stream) : Stream :=
  {| _readableState := _readableState s; end_listeners := end_listeners s;
     readable_listeners := l; unpipe_listeners := unpipe_listeners s;
     drain_listeners := drain_listeners s; needDrain := needDrain s; ticks := ticks s;
     outstanding := outstanding s; trace := trace s; pipe_calls := pipe_calls s |}.

Definition set_unpipe_listeners (l : list (Dest * nat)) (s : Stream) : Stream :=
  {| _readableState := _readableState s; end_listeners := end_listeners s;
     readable_listeners := readable_listeners s; unpipe_listeners := l;
     drain_listeners := drain_listeners s; needDrain := needDrain s; ticks := ticks s;
     outstanding := outstanding s; trace := trace s; pipe_calls := pipe_calls s |}.

Definition set_drain_listeners (l : list (Dest * nat)) (s : Stream) : Stream :=
  {| _readableState := _readableState s; end_listeners := end_listeners s;
     readable_listeners := readable_listeners s; unpipe_listeners := unpipe_listeners s;
     drain_listeners := l; needDrain := needDrain s; ticks := ticks s;
     outstanding := outstanding s; trace := trace s; pipe_calls := pipe_calls s |}.

Definition set_needDrain (l : list (Z * PipeOpts)) (s : Stream) : Stream :=
  {| _readableState := _readableState s; end_listeners := end_listeners s;
     readable_listeners := readable_listeners s; unpipe_listeners := unpipe_listeners s;
     drain_listeners := drain_listeners s; needDrain := l; ticks := ticks s;
     outstanding := outstanding s; trace := trace s; pipe_calls := pipe_calls s |}.

Definition set_ticks (l : list Task) (s : Stream) : Stream :=
  {| _readableState := _readableState s; end_listeners := end_listeners s;
     readable_listeners := readable_listeners s; unpipe_listeners := unpipe_listeners s;
     drain_listeners := drain_listeners s; needDrain := needDrain s; ticks := l;
     outstanding := outstanding s; trace := trace s; pipe_calls := pipe_calls s |}.

Definition set_outstanding (n : nat) (s : Stream) : Stream :=
  {| _readableState := _readableState s; end_listeners := end_listeners s;
     readable_listeners := readable_listeners s; unpipe_listeners := unpipe_listeners s;
     drain_listeners := drain_listeners s; needDrain := needDrain s; ticks := ticks s;
     outstanding := n; trace := trace s; pipe_calls := pipe_calls s |}.

Definition log (o : Obs) (s : Stream) : Stream :=
  {| _readableState := _readableState s; end_listeners := end_listeners s;
     readable_listeners := readable_listeners s; unpipe_listeners := unpipe_listeners s;
     drain_listeners := drain_listeners s; needDrain := needDrain s; ticks := ticks s;
     outstanding := outstanding s; trace := trace s ++ [o]; pipe_calls := pipe_calls s |}.

Definition set_pipe_calls (n : nat) (s : Stream) : Stream :=
  {| _readableState := _readableState s; end_listeners := end_listeners s;
     readable_listeners := readable_listeners s; unpipe_listeners := unpipe_listeners s;
     drain_listeners := drain_listeners s; needDrain := needDrain s; ticks := ticks s;
     outstanding := outstanding s; trace := trace s; pipe_calls := n |}.

(** The effects of [read] on the stream that runs it: a call of [_read]
    leaves a request with the producer, [process.nextTick] queues a task. *)
Definition deferred (e : effect) (s : Stream) : Stream :=
  match e with
  | Call_read _ => set_outstanding (S (outstanding s)) s
  | NextTick End_ => set_ticks (ticks s ++ [EmitEnd]) s
  | _ => s
  end.

(** [src.read(n)] *)
Definition src_read (n : option Z) (s : Stream) : option chunk * Stream :=
  let '(ret, st, e) := read Source n (_readableState s) in
  (ret, fold_left (fun s e => deferred e s) e (set_state st s)).

Fixpoint update {A : Type} (i : nat) (f : A -> A) (l : list A) : list A :=
  match l, i with
  | [], _ => []
  | x :: rest, O => f x :: rest
  | x :: rest, S j => x :: update j f rest
  end.

Definition needDrain_of (a : nat) (s : Stream) : Z :=
  match nth_error (needDrain s) a with
  | Some (k, _) => k
  | None => 0
  end.

Definition pipeOpts_of (a : nat) (s : Stream) : PipeOpts :=
  match nth_error (needDrain s) a with
  | Some (_, o) => o
  | None => {| end_opt := None; chunkSize := None |}
  end.

Definition add_needDrain (a : nat) (d : Z) (s : Stream) : Stream :=
  set_needDrain (update a (fun c => (fst c + d, snd c)) (needDrain s)) s.

Definition listener_eqb (x y : Dest * nat) : bool :=
  Dest_eqb (fst x) (fst y) && Nat.eqb (snd x) (snd y).

Fixpoint remove_first {A : Type} (eqb : A -> A -> bool) (x : A) (l : list A) : list A :=
  match l with
  | [] => []
  | y :: rest => if eqb x y then rest else y :: remove_first eqb x rest
  end.

Section Flow.

(** [dest.write(chunk)] belongs to the destination, which is not part of the
    sources: its answer is a function of what has been observed so far. *)
Variable write : list Obs -> Dest -> chunk -> bool.

(** The body of [state.pipes.forEach] in the [a]-th call of [flow]. *)
Definition write_to (a : nat) (chunk : chunk) (s : Stream) (dest : Dest) : Stream :=
  let written := write (trace s) dest chunk in
  let s := log (Wrote dest chunk written) s in
  if written then s
  else set_drain_listeners (drain_listeners s ++ [(dest, a)]) (add_needDrain a 1 s).

(** The [while] loop of [flow]; [Some (true, _)] when it returned from inside
    the loop because a destination needs a drain. *)
Fixpoint flow_loop (fuel : nat) (a : nat) (pipeOpts : PipeOpts) (s : Stream)
  : option (bool * Stream) :=
  match fuel with
  | O => None
  | S fuel =>
      match pipes (_readableState s) with
      | [] => Some (false, s)
      | _ :: _ =>
          let '(chunk, s) := src_read (chunkSize pipeOpts) s in
          let s := log (FlowRead chunk) s in
          match chunk with
          | None => Some (false, s)
          | Some c =>
              let s := fold_left (write_to a c) (pipes (_readableState s)) s in
              let s := log (Data c) s in
              if 0 <? needDrain_of a s then Some (true, s)
              else flow_loop fuel a pipeOpts s
          end
      end
  end.

(** [flow(src, pipeOpts)].  The second component tells that the call threw:
    the file is in strict mode and [flow] is only ever called with [this]
    null or undefined, so [this.listeners('data')] is a TypeError. *)
Definition flow (pipeOpts : PipeOpts) (s : Stream) : Stream * bool :=
  let a := List.length (needDrain s) in
  let s := set_needDrain (needDrain s ++ [(0, pipeOpts)]) s in
  match flow_loop (S (Z.to_nat (length (_readableState s)))) a pipeOpts s with
  | None => (s, false)
  | Some (true, s) => (s, false)
  | Some (false, s) =>
      match pipes (_readableState s) with
      | [] =>
          (log (Uncaught (Wrap.TypeError "this.listeners"))
             (set_state (set_flowing false (_readableState s)) s), true)
      | _ :: _ =>
          (set_readable_listeners (readable_listeners s ++ [pipeOpts]) s, false)
      end
  end.

(** [ondrain] of the [a]-th call of [flow] *)
Definition ondrain (a : nat) (s : Stream) : Stream * bool :=
  let s := add_needDrain a (-1) s in
  if needDrain_of a s =? 0 then flow (pipeOpts_of a s) s else (s, false).

(** The listeners of ['readable'] are the [once] listeners [flow] left:
    each is removed, then called; a listener that throws ends the emit. *)
Fixpoint run_readable (k : nat) (s : Stream) : Stream * bool :=
  match k with
  | O => (s, false)
  | S k =>
      match readable_listeners s with
      | [] => (s, false)
      | o :: rest =>
          let '(s, threw) := flow o (set_readable_listeners rest s) in
          if threw then (s, true) else run_readable k s
      end
  end.

(** [src.emit('readable')] *)
Definition emit_readable (s : Stream) : Stream * bool :=
  run_readable (List.length (readable_listeners s)) (log (Emitted Readable) s).

(** [src.emit('end')]: every [onend] calls [dest.end()], once. *)
Definition emit_end (s : Stream) : Stream :=
  fold_left (fun s l => log (Ended (snd l)) s) (end_listeners s)
    (set_end_listeners [] (log (Emitted End_) s)).

Fixpoint run_drain (ls : list (Dest * nat)) (s : Stream) : Stream * bool :=
  match ls with
  | [] => (s, false)
  | l :: rest =>
      let s := set_drain_listeners (remove_first listener_eqb l (drain_listeners s)) s in
      let '(s, threw) := ondrain (snd l) s in
      if threw then (s, true) else run_drain rest s
  end.

(** [dest.emit('drain')] *)
Definition emit_drain (dest : Dest) (s : Stream) : Stream * bool :=
  run_drain (filter (fun l => Dest_eqb (fst l) dest) (drain_listeners s))
    (log (Drained dest) s).

(** An effect of [onread], performed. *)
Definition perform (s : Stream) (e : effect) : Stream :=
  match e with
  | Emit Readable => fst (emit_readable s)
  | Emit End_ => emit_end s
  | Emit (Error er) => log (Emitted (Error er)) s
  | _ => deferred e s
  end.

(** [Readable.prototype.pipe(dest, pipeOpts)] *)
Definition pipe (dest : Dest) (pipeOpts : option PipeOpts) (s : Stream) : Stream :=
  let pipeOpts :=
    match pipeOpts with
    | Some o => o
    | None => {| end_opt := None; chunkSize := None |}
    end in
  let state := _readableState s in
  let s := set_state (set_pipes (pipes state ++ [dest]) state) s in
  let k := pipe_calls s in
  let s := set_pipe_calls (S k) s in
  let s :=
    if match end_opt pipeOpts with Some false => false | _ => true end
       && negb (Dest_eqb dest Stdout) && negb (Dest_eqb dest Stderr)
    then set_unpipe_listeners (unpipe_listeners s ++ [(dest, k)])
           (set_end_listeners (end_listeners s ++ [(k, dest)]) s)
    else s in
  let s := log (Piped dest) s in
  if negb (flowing state) then set_ticks (ticks s ++ [Flow pipeOpts]) s else s.

(** [dest.emit('unpipe', src)]: each listener [pipe] put on [dest] for this
    source removes its own [onend]. *)
Definition emit_unpipe (s : Stream) (dest : Dest) : Stream :=
  let ks := map snd (filter (fun l => Dest_eqb (fst l) dest) (unpipe_listeners s)) in
  set_end_listeners
    (filter (fun l => negb (existsb (Nat.eqb (fst l)) ks)) (end_listeners s))
    (log (Unpiped dest) s).

(** [Readable.prototype.unpipe(dest)] *)
Definition unpipe (dest : option Dest) (s : Stream) : Stream :=
  match dest with
  | None =>
      let s := fold_left emit_unpipe (pipes (_readableState s)) s in
      set_state (set_pipes [] (_readableState s)) s
  | Some d =>
      if existsb (Dest_eqb d) (pipes (_readableState s)) then
        let s := emit_unpipe s d in
        set_state
          (set_pipes (remove_first Dest_eqb d (pipes (_readableState s)))
             (_readableState s)) s
      else s
  end.

(** What happens to a stream, one turn of the event loop at a time. *)
Inductive Event : Type :=
| Pipe (dest : Dest) (pipeOpts : option PipeOpts)   (* src.pipe(dest, pipeOpts) *)
| Unpipe (dest : option Dest)                       (* src.unpipe(dest) *)
| Read (n : option Z)                               (* src.read(n) *)
| Tick                                              (* the next task of process.nextTick *)
| Reply (er : option error) (chunk : option chunk)  (* the producer calls onread *)
| Drain (dest : Dest).                              (* dest emits 'drain' *)

Definition step (s : Stream) (ev : Event) : Stream :=
  match ev with
  | Pipe dest pipeOpts => pipe dest pipeOpts s
  | Unpipe dest => unpipe dest s
  | Read n => let '(ret, s) := src_read n s in log (UserRead ret) s
  | Tick =>
      match ticks s with
      | [] => s
      | Flow pipeOpts :: rest => fst (flow pipeOpts (set_ticks rest s))
      | EmitEnd :: rest => emit_end (set_ticks rest s)
      end
  | Reply er chunk =>
      match outstanding s with
      | O => s
      | S n =>
          let '(st, e) := onread Source er chunk (_readableState s) in
          fold_left perform e (set_state st (set_outstanding n s))
      end
  | Drain dest => fst (emit_drain dest s)
  end.

Definition run (evs : list Event) (s : Stream) : Stream := fold_left step evs s.

End Flow.

(** ** Vocabulary of the specification *)

(** The recorded size is the sum of the sizes of the queued chunks. *)
Definition consistent (state : ReadableState) : Prop :=
  length state = total (buffer state).

(** The data a call of [read] handed out; [null] is no data. *)
Definition data (ret : option chunk) : chunk :=
  match ret with
  | Some c => c
  | None => []
  end.

(** The operations that touch the queue of a stream: a [read], an answer of
    the producer, an output of a transform step. *)
Inductive Op : Type :=
| Op_read (p : Producer) (n : option Z)
| Op_onread (p : Producer) (er : option error) (chunk : option chunk)
| Op_output (chunk : option chunk).

Definition apply_op (state : ReadableState) (op : Op) : ReadableState :=
  match op with
  | Op_read p n => snd (fst (read p n state))
  | Op_onread p er chunk => fst (onread p er chunk state)
  | Op_output chunk => fst (Transform._output chunk state)
  end.

(** Several calls of [read] in a row: what each returned, the state after
    the last, and all the effects. *)
Fixpoint reads (p : Producer) (ns : list (option Z)) (state : ReadableState)
  : list (option chunk) * ReadableState * list effect :=
  match ns with
  | [] => ([], state, [])
  | n :: rest =>
      let '(ret, state, e) := read p n state in
      let '(rets, state, e') := reads p rest state in
      (ret :: rets, state, e ++ e')
  end.

(** A trace respects backpressure when [flow] reads nothing from the source
    while a destination that answered [false] to a write has not emitted
    ['drain']; [waiting] are the destinations in that case. *)
Fixpoint respects_backpressure (waiting : list Dest) (t : list Obs) : bool :=
  match t with
  | [] => true
  | FlowRead _ :: t' =>
      match waiting with
      | [] => respects_backpressure [] t'
      | _ :: _ => false
      end
  | Wrote d _ false :: t' => respects_backpressure (d :: waiting) t'
  | Drained d :: t' =>
      respects_backpressure (filter (fun x => negb (Dest_eqb x d)) waiting) t'
  | _ :: t' => respects_backpressure waiting t'
  end.

Definition is_ended (o : Obs) : bool :=
  match o with Ended _ => true | _ => false end.

(** The destinations that answered [false] and have not emitted ['drain']
    since, at the end of a trace. *)
Fixpoint blocked (waiting : list Dest) (t : list Obs) : list Dest :=
  match t with
  | [] => waiting
  | Wrote d _ false :: t' => blocked (d :: waiting) t'
  | Drained d :: t' => blocked (filter (fun x => negb (Dest_eqb x d)) waiting) t'
  | _ :: t' => blocked waiting t'
  end.

Definition is_flow (t : Task) : bool :=
  match t with Flow _ => true | EmitEnd => false end.

(** The calls of [flow] waiting in the queue of [process.nextTick]. *)
Definition flow_tasks (s : Stream) : nat := List.length (filter is_flow (ticks s)).

(** Where the one [flow] of a source piped once stands: queued, waiting for
    ['readable'], waiting for the ['drain'] of the destination, or gone. *)
Inductive phase (dest : Dest) (s : Stream) : Prop :=
| Scheduled :
    flow_tasks s = 1%nat -> readable_listeners s = [] -> drain_listeners s = [] ->
    blocked [] (trace s) = [] -> phase dest s
| Listening (o : PipeOpts) :
    flow_tasks s = 0%nat -> readable_listeners s = [o] -> drain_listeners s = [] ->
    blocked [] (trace s) = [] -> phase dest s
| Draining (a : nat) :
    flow_tasks s = 0%nat -> readable_listeners s = [] ->
    drain_listeners s = [(dest, a)] -> needDrain_of a s = 1 ->
    blocked [] (trace s) = [dest] -> phase dest s
| Stopped :
    flow_tasks s = 0%nat -> readable_listeners s = [] -> drain_listeners s = [] ->
    phase dest s.

(** The invariant of a source on which [pipe] was called once, with [dest]. *)
Definition piped_once (dest : Dest) (s : Stream) : Prop :=
  respects_backpressure [] (trace s) = true /\
  (pipes (_readableState s) = [dest] \/ pipes (_readableState s) = []) /\
  phase dest s.

(** The state in which the [a]-th call of [flow] runs its loop on a source
    piped once: nobody waits for a drain. *)
Definition quiet (dest : Dest) (a : nat) (s : Stream) : Prop :=
  drain_listeners s = [] /\ needDrain_of a s = 0 /\
  (a < List.length (needDrain s))%nat /\
  blocked [] (trace s) = [] /\ respects_backpressure [] (trace s) = true /\
  (pipes (_readableState s) = [dest] \/ pipes (_readableState s) = []).

Definition is_pipe (ev : Event) : bool :=
  match ev with Pipe _ _ => true | _ => false end.

(** Observations that neither read for [flow], nor refuse a write, nor
    drain. *)
Definition neutral (o : Obs) : bool :=
  match o with
  | FlowRead _ => false
  | Wrote _ _ false => false
  | Drained _ => false
  | _ => true
  end.

(** What a [read] leaves alone in the stream that runs it. *)
Definition same_flows (s s' : Stream) : Prop :=
  trace s' = trace s /\
  drain_listeners s' = drain_listeners s /\
  readable_listeners s' = readable_listeners s /\
  needDrain s' = needDrain s /\
  flow_tasks s' = flow_tasks s.

(** What one turn of the loop of [flow] shows after the chunk [c] was
    read: one write of [c] per destination, in the order of [state.pipes],
    then ['data']. *)
Inductive turn (ds : list Dest) (c : chunk) : list Obs -> Prop :=
| turn_intro (answers : list bool) :
    List.length answers = List.length ds ->
    turn ds c (map (fun x => Wrote (fst x) c (snd x)) (combine ds answers) ++ [Data c]).

(** What a call of [flow] shows: turns, each opened by the read of its
    chunk, and possibly a last read that returned [null]. *)
Inductive turns (ds : list Dest) : list Obs -> Prop :=
| turns_done : turns ds []
| turns_null : turns ds [FlowRead None]
| turns_chunk (c : chunk) (t t' : list Obs) :
    turn ds c t -> turns ds t' -> turns ds (FlowRead (Some c) :: t ++ t').

(** The chunks written to a destination, in order. *)
Fixpoint writes_to (d : Dest) (t : list Obs) : list chunk :=
  match t with
  | [] => []
  | Wrote d' c _ :: t' =>
      if Dest_eqb d' d then c :: writes_to d t' else writes_to d t'
  | _ :: t' => writes_to d t'
  end.

(** The event loop around a finite source: queued tasks run first; then
    the producer answers a request in flight with its next chunk, or with
    no data once it has none left; it stops when nothing is queued or in
    flight. *)
Fixpoint serve (write : list Obs -> Dest -> chunk -> bool) (fuel : nat)
  (chunks : list chunk) (s : Stream) : Stream :=
  match fuel with
  | O => s
  | S fuel =>
      match ticks s, outstanding s, chunks with
      | _ :: _, _, _ => serve write fuel chunks (step write s Tick)
      | [], O, _ => s
      | [], S _, c :: rest => serve write fuel rest (step write s (Reply None (Some c)))
      | [], S _, [] => serve write fuel [] (step write s (Reply None None))
      end
  end.

(** What [pipe] and [unpipe] own: the listeners of ['end'], the listeners
    of ['unpipe'] and [state.pipes]. *)
Definition same_pipes (s s' : Stream) : Prop :=
  end_listeners s' = end_listeners s /\
  unpipe_listeners s' = unpipe_listeners s /\
  pipes (_readableState s') = pipes (_readableState s).

(** Every [onend] still registered has its ['unpipe'] listener on its
    destination, and that destination is piped. *)
Definition end_listeners_tracked (s : Stream) : Prop :=
  forall k d, In (k, d) (end_listeners s) ->
    In (d, k) (unpipe_listeners s) /\ In d (pipes (_readableState s)).

(** ** Chunks, destinations and streams of the scenarios *)

Definition ab : chunk := ["a"; "b"]%byte.
Definition cd : chunk := ["c"; "d"]%byte.
Definition ef : chunk := ["e"; "f"]%byte.
Definition abc : chunk := ["a"; "b"; "c"]%byte.

(** A chunk of [k] units. *)
Definition block (k : nat) : chunk := repeat "x"%byte k.

(** A destination whose [write] always answers [true]. *)
Definition accepting : list Obs -> Dest -> chunk -> bool := fun _ _ _ => true.

(** Destination [d] answers [false] to every write, the others [true]. *)
Definition refusing (d : Dest) : list Obs -> Dest -> chunk -> bool :=
  fun _ dest _ => negb (Dest_eqb dest d).

(** [new Readable({lowWaterMark: 1})] *)
Definition lowWaterMark_1 : option Options :=
  Some {| opt_bufferSize := None; opt_lowWaterMark := Some 1 |}.

(** 200 units buffered under the default [lowWaterMark] of 1024, not ended,
    after a first [read()] and the answer of the producer; [onread] has
    cleared the flag [reading]. *)
Definition state200 : ReadableState :=
  fold_left apply_op
    [Op_read Source None; Op_onread Source None (Some (block 200))]
    (new_ReadableState None).

(** The same after a [read(1000)], which has set the flag [reading]. *)
Definition state200_reading : ReadableState :=
  apply_op state200 (Op_read Source (Some 1000)).

(** A stream whose producer has answered that there is no data. *)
Definition ended_empty : Stream :=
  run accepting [Read None; Reply None None] (new_Readable None).

(** A transform with three units of output buffered and no consumer waiting. *)
Definition three_buffered : ReadableState :=
  fst (Transform._output (Some abc) (new_ReadableState None)).

(** A Transform whose input goes on, on which a [read()] found nothing:
    [needReadable] is set. *)
Definition input_open : Writable.WritableState :=
  {| Writable.ended := false; Writable.ending := false; Writable.length := 0 |}.

Definition waiting_transform : ReadableState :=
  snd (fst (read (TransformInput input_open) None (new_ReadableState None))).

(** The writable side has ended and nothing is queued on it. *)
Definition input_done : Writable.WritableState :=
  {| Writable.ended := true; Writable.ending := false; Writable.length := 0 |}.

(** A listener of ['readable'] that reads like the loop of [flow] and the
    adapter for ['data'] events: it calls [read()], and again after a call
    that returned data. *)
Definition reads_twice (ws : Writable.WritableState) (rs : ReadableState)
  : ReadableState * list effect :=
  let '(ret, rs1, e1) := read (TransformInput ws) None rs in
  match ret with
  | None => (rs1, e1)
  | Some _ =>
      let '(_, rs2, e2) := read (TransformInput ws) None rs1 in
      (rs2, e1 ++ e2)
  end.

(** A wrapper whose source emitted ['data'] with two units, nobody
    listening to ['readable']. *)
Definition wrapped_with_data : Wrap.Wrapped :=
  fst (Wrap.on_data Wrap.no_listener ab (Wrap.wrap (new_ReadableState None))).

(** The same after the source emitted ['end']. *)
Definition wrapped_after_end : Wrap.Wrapped :=
  fst (Wrap.on_end wrapped_with_data).

(** Two destinations piped from a fresh source, the first of which refuses
    its writes; the producer answers with two chunks. *)
Definition two_pipes : Stream :=
  run (refusing (Sink 0))
    [Pipe (Sink 0) None; Pipe (Sink 1) None; Tick; Tick;
     Reply None (Some ab); Reply None (Some cd)]
    (new_Readable lowWaterMark_1).

(** A source of three chunks piped into a destination that accepts every
    write: the producer answers three times with data, then with none. *)
Definition three_chunks_piped : Stream :=
  run accepting
    [Pipe (Sink 0) None; Tick;
     Reply None (Some ab); Reply None (Some cd); Reply None (Some ef);
     Reply None None]
    (new_Readable lowWaterMark_1).

(** Fifty chunks, of 1 to 50 units. *)
Definition fifty_chunks : list chunk := map (fun k => block (S k)) (seq 0 50).

(** A source of fifty chunks, default options, piped into a destination
    that accepts every write, and served until nothing is left to do. *)
Definition fifty_chunks_piped : Stream :=
  serve accepting 1000 fifty_chunks (pipe (Sink 0) None (new_Readable None)).

(** ** Vocabulary of the further properties *)

Definition is_emit_readable (e : effect) : bool :=
  match e with Emit Readable => true | _ => false end.

Definition is_emit_end (e : effect) : bool :=
  match e with Emit End_ => true | _ => false end.

Definition is_flow_read (o : Obs) : bool :=
  match o with FlowRead _ => true | _ => false end.

(** The data an operation puts into the queue: the chunk of an answer of the
    producer without error, the chunk of an output. *)
Definition taken_in (op : Op) : chunk :=
  match op with
  | Op_onread _ None (Some c) => c
  | Op_output (Some c) => c
  | _ => []
  end.

(** The data an operation hands to the consumer: what a [read] returns. *)
Definition handed_out (state : ReadableState) (op : Op) : chunk :=
  match op with
  | Op_read p n => data (fst (fst (read p n state)))
  | _ => []
  end.

(** All the data handed out along a sequence of operations, in order. *)
Fixpoint all_handed_out (ops : list Op) (state : ReadableState) : chunk :=
  match ops with
  | [] => []
  | op :: rest => handed_out state op ++ all_handed_out rest (apply_op state op)
  end.

(** The chunks of a list that carry data, as [_output] keeps them. *)
Definition with_data (cs : list (option chunk)) : list chunk :=
  flat_map (fun c => match c with
                     | Some b => if chunk_length b =? 0 then [] else [b]
                     | None => []
                     end) cs.

(** The operations of a Transform: its reads go through
    [Transform.prototype._read], its data comes from [_output]. *)
Definition is_transform_op (op : Op) : bool :=
  match op with
  | Op_read (TransformInput _) _ => true
  | Op_output _ => true
  | _ => false
  end.

(** A destination that is not in [state.pipes], and the chunks written to
    it so far. *)
Definition not_piped (d : Dest) (written : list chunk) (s : Stream) : Prop :=
  ~ In d (pipes (_readableState s)) /\ writes_to d (trace s) = written.

(** No call [pipe(d, ...)]. *)
Definition pipes_to (d : Dest) (ev : Event) : bool :=
  match ev with Pipe d' _ => Dest_eqb d' d | _ => false end.

(** [Readable.prototype._read(n, cb)], the method of a stream on which
    nothing overrides it:
    [process.nextTick(cb.bind(this, new Error('not implemented')))].  On the
    turn after the call, [onread] runs with that error and no chunk. *)
Definition default__read : Event := Reply (Some NotImplemented) None.

(** The consumer of a stream that keeps the default [_read] calls [read]
    with each of [ns], and lets the event loop turn after each call. *)
Fixpoint read_unimplemented (write : list Obs -> Dest -> chunk -> bool)
  (ns : list (option Z)) (s : Stream) : Stream :=
  match ns with
  | [] => s
  | n :: rest =>
      read_unimplemented write rest (step write (step write s (Read n)) default__read)
  end.

(** Empty, not ended, nothing in flight, and a positive [lowWaterMark]. *)
Definition idle (s : Stream) : Prop :=
  length (_readableState s) = 0 /\ buffer (_readableState s) = [] /\
  ended (_readableState s) = false /\ reading (_readableState s) = false /\
  0 < lowWaterMark (_readableState s) /\ outstanding s = 0%nat.

(** What happens to the wrapper of an old-style stream: the wrapped stream
    emits ['data'] or ['end'], or the consumer calls the [read] that [wrap]
    installed.  Nothing listens to ['readable']. *)
Inductive WrapOp : Type :=
| Wrap_data (chunk : chunk)
| Wrap_end
| Wrap_read (n : option Z).

Definition wrap_op (global_ended : option bool) (w : Wrap.Wrapped) (op : WrapOp)
  : Wrap.Wrapped * list effect :=
  match op with
  | Wrap_data c => Wrap.on_data Wrap.no_listener c w
  | Wrap_end => Wrap.on_end w
  | Wrap_read n => let '(_, w', e) := Wrap.read global_ended n w in (w', e)
  end.

(** A sequence of them: the variables of the closures after the last, and
    all the effects. *)
Fixpoint wrap_ops (global_ended : option bool) (ops : list WrapOp) (w : Wrap.Wrapped)
  : Wrap.Wrapped * list effect :=
  match ops with
  | [] => (w, [])
  | op :: rest =>
      let '(w1, e1) := wrap_op global_ended w op in
      let '(w2, e2) := wrap_ops global_ended rest w1 in
      (w2, e1 ++ e2)
  end.

(** The calls of [stream.pause()] and [stream.resume()] among the effects
    come in turn: no pause of a paused stream, no resume of one that is
    not.  [Some p] with the state of the wrapped stream after the last call,
    [None] when two calls of the same kind follow each other. *)
Fixpoint pause_resume (paused : bool) (e : list effect) : option bool :=
  match e with
  | [] => Some paused
  | Pause :: rest => if paused then None else pause_resume true rest
  | Resume :: rest => if paused then pause_resume false rest else None
  | _ :: rest => pause_resume paused rest
  end.

(** The data the wrapped stream emitted, and the data the reads returned. *)
Definition wrap_taken_in (op : WrapOp) : chunk :=
  match op with
  | Wrap_data c => c
  | _ => []
  end.

Definition wrap_handed_out (global_ended : option bool) (w : Wrap.Wrapped) (op : WrapOp)
  : chunk :=
  match op with
  | Wrap_read n =>
      match fst (fst (Wrap.read global_ended n w)) with
      | Wrap.Returned ret => data ret
      | Wrap.Threw _ => []
      end
  | _ => []
  end.

Fixpoint wrap_all_handed_out (global_ended : option bool) (ops : list WrapOp)
  (w : Wrap.Wrapped) : chunk :=
  match ops with
  | [] => []
  | op :: rest =>
      wrap_handed_out global_ended w op
      ++ wrap_all_handed_out global_ended rest (fst (wrap_op global_ended w op))
  end.

(** The wrapped stream is paused when more than [lowWaterMark] is buffered,
    and only when at least that much is. *)
Definition paused_when_full (w : Wrap.Wrapped) : Prop :=
  (lowWaterMark (Wrap.state w) < length (Wrap.state w) -> Wrap.paused w = true) /\
  (Wrap.paused w = true -> lowWaterMark (Wrap.state w) <= length (Wrap.state w)).

(** ** The adapter for consumers of ['data'] events *)

Module OldMode.

(** The variables the closures of [emitDataEvents] share, and the state of
    the stream. *)
Record Old : Type := {
  state : ReadableState;
  paused : bool;
  readable : bool
}.

(** What the adapter does: an emit of ['data'], or an effect of the [read]
    and the [onread] it runs. *)
Inductive Out : Type :=
| EmitData (c : chunk)                 (* stream.emit('data', c) *)
| Core (e : effect).

(** [emitDataEvents(stream)] either throws or leaves the closures below and
    a task for the next tick. *)
Inductive Switched : Type :=
| Cannot_switch (msg : string)         (* throw new Error(msg) *)
| Switched_to (o : Old) (e : list effect).

Definition emitDataEvents (st : ReadableState) : Switched :=
  if flowing st then Cannot_switch "Cannot switch to old mode now."
  else Switched_to {| state := st; paused := false; readable := false |}
         [NextTick Readable].

Section Listeners.

(** The listeners of ['data'] are the consumer's.  [pauses c] tells whether
    they call [stream.pause()] when they get [c]; they do nothing else to
    the stream. *)
Variable pauses : chunk -> bool.

(** [while (!paused && (null !== (c = stream.read()))) stream.emit('data', c)]
    on a stream whose producer answers on a later turn.  The first component
    of the result is [c === null] after the loop. *)
Fixpoint loop (fuel : nat) (p : bool) (st : ReadableState)
  : option (bool * bool * ReadableState * list Out) :=
  match fuel with
  | O => None
  | S fuel =>
      if p then Some (false, p, st, [])
      else
        let '(c, st, e) := read Source None st in
        match c with
        | None => Some (true, p, st, map Core e)
        | Some c =>
            match loop fuel (pauses c) st with
            | Some (r, p', st', out) => Some (r, p', st', map Core e ++ EmitData c :: out)
            | None => None
            end
        end
  end.

(** The listener of ['readable'] that [emitDataEvents] installs. *)
Definition on_readable (o : Old) : Old * list Out :=
  match loop (S (Z.to_nat (length (state o)))) (paused o) (state o) with
  | Some (true, p, st, out) =>
      ({| state := set_needReadable true st; paused := p; readable := false |}, out)
  | Some (false, p, st, out) =>
      ({| state := st; paused := p; readable := true |}, out)
  | None => ({| state := state o; paused := paused o; readable := true |}, [])
  end.

(** [stream.pause = function() { paused = true }] *)
Definition pause (o : Old) : Old :=
  {| state := state o; paused := true; readable := readable o |}.

(** [stream.resume = function() { paused = false; if (readable)
    stream.emit('readable') }] *)
Definition resume (o : Old) : Old * list Out :=
  let o := {| state := state o; paused := false; readable := readable o |} in
  if readable o then on_readable o else (o, []).

(** What moves a stream in old mode: ['readable'] is emitted (the task of
    [emitDataEvents] runs), the producer calls [onread] back, the consumer
    calls [pause] or [resume]. *)
Inductive Event : Type :=
| Emit_readable
| Answer (er : option error) (chunk : option chunk)
| Call_pause
| Call_resume.

(** An effect of [onread]: [this.emit('readable')] runs the listener, the
    only one of that event. *)
Definition perform (acc : Old * list Out) (e : effect) : Old * list Out :=
  match e with
  | Emit Readable =>
      let '(o', out') := on_readable (fst acc) in (o', snd acc ++ Core e :: out')
  | _ => (fst acc, snd acc ++ [Core e])
  end.

Definition step (o : Old) (ev : Event) : Old * list Out :=
  match ev with
  | Emit_readable => on_readable o
  | Answer er chunk =>
      let '(st, e) := onread Source er chunk (state o) in
      fold_left perform e
        ({| state := st; paused := paused o; readable := readable o |}, [])
  | Call_pause => (pause o, [])
  | Call_resume => resume o
  end.

Fixpoint run (evs : list Event) (o : Old) : Old * list Out :=
  match evs with
  | [] => (o, [])
  | ev :: rest =>
      let '(o1, out1) := step o ev in
      let '(o2, out2) := run rest o1 in
      (o2, out1 ++ out2)
  end.

End Listeners.

(** The chunks of the ['data'] events, in order. *)
Definition data_events (out : list Out) : list chunk :=
  flat_map (fun x => match x with EmitData c => [c] | Core _ => [] end) out.

(** The data the producer hands over with an answer. *)
Definition answered (ev : Event) : chunk :=
  match ev with
  | Answer None (Some c) => c
  | _ => []
  end.

Definition is_resume (ev : Event) : bool :=
  match ev with Call_resume => true | _ => false end.

(** A consumer that never pauses. *)
Definition never (c : chunk) : bool := false.

(** A stream in old mode on which nothing happened but the first
    ['readable']. *)
Definition started (options : option Options) : Old :=
  fst (on_readable never
         {| state := new_ReadableState options; paused := false; readable := false |}).

End OldMode.

(** * Properties *)

(** ** The queue and [fromList] *)

Lemma total_concat (q : list chunk) : total q = Z.of_nat (List.length (List.concat q)).
Proof.
  induction q as [|c rest IH]; simpl; [reflexivity|].
  unfold chunk_length. rewrite length_app, IH. lia.
Qed.

Lemma total_nonneg (q : list chunk) : 0 <= total q.
Proof. rewrite total_concat. lia. Qed.

Lemma total_app (q1 q2 : list chunk) : total (q1 ++ q2) = total q1 + total q2.
Proof. induction q1 as [|c rest IH]; simpl; lia. Qed.

Lemma take_front_concat (q : list chunk) :
  forall n, fst (take_front n q) ++ List.concat (snd (take_front n q)) = List.concat q.
Proof.
  induction q as [|c rest IH]; intros n; simpl; [reflexivity|].
  destruct (Nat.eqb n 0); [reflexivity|].
  destruct (Nat.leb (List.length c) n).
  - specialize (IH (n - List.length c)%nat).
    destruct (take_front (n - List.length c) rest) as [r q']. simpl in *.
    rewrite <- app_assoc, IH. reflexivity.
  - simpl. rewrite app_assoc, firstn_skipn. reflexivity.
Qed.

Lemma take_front_length (q : list chunk) :
  forall n, Z.of_nat n <= total q -> List.length (fst (take_front n q)) = n.
Proof.
  induction q as [|c rest IH]; intros n Hn; simpl in *; [lia|].
  destruct (Nat.eqb n 0) eqn:E0; [apply Nat.eqb_eq in E0; subst; reflexivity|].
  destruct (Nat.leb (List.length c) n) eqn:Ele.
  - apply Nat.leb_le in Ele.
    assert (Hrec : Z.of_nat (n - List.length c) <= total rest)
      by (unfold chunk_length in Hn; lia).
    specialize (IH _ Hrec).
    destruct (take_front (n - List.length c) rest) as [r q']. simpl in *.
    rewrite length_app, IH. lia.
  - apply Nat.leb_gt in Ele. simpl. rewrite length_firstn. lia.
Qed.

Lemma take_front_total (q : list chunk) (n : nat) :
  Z.of_nat n <= total q -> total (snd (take_front n q)) = total q - Z.of_nat n.
Proof.
  intros Hn.
  pose proof (take_front_concat q n) as Hc.
  pose proof (take_front_length q n Hn) as Hl.
  rewrite !total_concat, <- Hc, length_app, Hl. lia.
Qed.

Lemma fromList_total (n : Z) (q : list chunk) (len : Z) :
  0 <= n <= total q ->
  chunk_length (fst (fromList n q len)) = n /\
  total (snd (fromList n q len)) = total q - n.
Proof.
  intros Hn. unfold fromList, chunk_length.
  rewrite take_front_length, take_front_total by lia. lia.
Qed.

Lemma fromList_all (q : list chunk) (len : Z) :
  fst (fromList (total q) q len) = List.concat q /\
  List.concat (snd (fromList (total q) q len)) = [].
Proof.
  unfold fromList.
  assert (Hk : Z.of_nat (Z.to_nat (total q)) = total q)
    by (apply Z2Nat.id, total_nonneg).
  remember (Z.to_nat (total q)) as k eqn:Ek. clear Ek.
  pose proof (take_front_concat q k) as Hc.
  assert (Hl : List.length (fst (take_front k q)) = k)
    by (apply take_front_length; lia).
  assert (Hlen : List.length (List.concat (snd (take_front k q))) = 0%nat).
  { apply (f_equal (@List.length byte)) in Hc.
    rewrite length_app, Hl in Hc. rewrite total_concat in Hk. lia. }
  apply length_zero_iff_nil in Hlen.
  rewrite Hlen, app_nil_r in Hc. split; [exact Hc | exact Hlen].
Qed.

(** ** The recorded size *)

Lemma call_read_queue (p : Producer) (n : Z) (state : ReadableState) :
  buffer (fst (call_read p n state)) = buffer state /\
  length (fst (call_read p n state)) = length state.
Proof.
  destruct p as [|ws]; simpl; [split; reflexivity|].
  unfold Transform._read, onread_no_data.
  destruct ((Writable.ended ws || Writable.ending ws) && (Writable.length ws =? 0));
    simpl; [|split; reflexivity].
  destruct (0 <? length state); simpl; split; reflexivity.
Qed.

Lemma call_read_consistent (p : Producer) (n : Z) (state : ReadableState) :
  consistent state -> consistent (fst (call_read p n state)).
Proof.
  unfold consistent. destruct (call_read_queue p n state) as [Hb Hl].
  rewrite Hb, Hl. trivial.
Qed.

Lemma onread_no_data_consistent (state : ReadableState) :
  consistent state -> consistent (fst (onread_no_data state)).
Proof.
  unfold consistent, onread_no_data. simpl.
  destruct (0 <? length state); simpl; trivial.
Qed.

Lemma onread_consistent (p : Producer) (er : option error) (chunk : option chunk)
  (state : ReadableState) :
  consistent state -> consistent (fst (onread p er chunk state)).
Proof.
  intros H. unfold onread.
  destruct er as [e|]; [exact H|].
  destruct chunk as [c|]; [|apply onread_no_data_consistent; exact H].
  destruct (chunk_length c =? 0); [apply onread_no_data_consistent; exact H|].
  set (st := push c (set_length (length (set_reading false state) + chunk_length c)
                       (set_reading false state))).
  assert (Hst : consistent st).
  { unfold consistent, st in *. simpl. rewrite total_app. simpl. lia. }
  destruct (length st <? lowWaterMark st).
  - pose proof (call_read_consistent p (bufferSize st) st Hst) as Hc.
    destruct (call_read p (bufferSize st) st) as [st' e]. simpl in Hc.
    destruct (needReadable st'); simpl; exact Hc.
  - destruct (needReadable st); simpl; exact Hst.
Qed.

Lemma output_consistent (chunk : option chunk) (state : ReadableState) :
  consistent state -> consistent (fst (Transform._output chunk state)).
Proof.
  intros H. unfold Transform._output.
  destruct chunk as [c|]; [|exact H].
  destruct (chunk_length c =? 0); [exact H|].
  assert (Hst : consistent (set_length (length (push c state) + chunk_length c) (push c state))).
  { unfold consistent in *. simpl. rewrite total_app. simpl. lia. }
  destruct (needReadable _); simpl; exact Hst.
Qed.

Lemma granted_bounds (n : Z) (state : ReadableState) :
  0 <= length state -> 0 <= n ->
  0 <= fst (granted n state) <= length state /\
  buffer (snd (granted n state)) = buffer state /\
  length (snd (granted n state)) = length state.
Proof.
  intros HL Hn. unfold granted.
  destruct (length state <? n) eqn:E.
  - destruct (negb (ended state) && (length state <? lowWaterMark state)); simpl;
      repeat split; try reflexivity; lia.
  - apply Z.ltb_ge in E. simpl. repeat split; try reflexivity; lia.
Qed.

Lemma requested_nonneg (n : option Z) (state : ReadableState) :
  0 <= length state -> 0 <= requested n state.
Proof.
  intros HL. unfold requested. destruct n as [k|]; [|exact HL].
  destruct (k <=? 0) eqn:E; [exact HL|]. apply Z.leb_gt in E. lia.
Qed.

Lemma take_consistent (n : Z) (state : ReadableState) :
  consistent state -> 0 <= n <= length state ->
  total (buffer (snd (take n state))) = length state - n /\
  length (snd (take n state)) = length state.
Proof.
  unfold consistent, take. intros H Hn.
  destruct (0 <? n) eqn:E.
  - pose proof (fromList_total n (buffer state) (length state)) as Hf.
    destruct (fromList n (buffer state) (length state)) as [r q]. simpl in *.
    destruct Hf as [_ Hf]; [lia|]. split; [lia | reflexivity].
  - apply Z.ltb_ge in E. simpl. lia.
Qed.

Lemma prefetch_queue (p : Producer) (state : ReadableState) :
  buffer (fst (prefetch p state)) = buffer state /\
  length (fst (prefetch p state)) = length state.
Proof.
  unfold prefetch.
  destruct (negb (ended state) && (length state <? lowWaterMark state) && negb (reading state)).
  - apply (call_read_queue p (bufferSize state) (set_reading true state)).
  - split; reflexivity.
Qed.

Lemma read_consistent (p : Producer) (n : option Z) (state : ReadableState) :
  consistent state -> consistent (snd (fst (read p n state))).
Proof.
  intros H. unfold read.
  destruct ((length state =? 0) && ended state); [exact H|].
  assert (HL : 0 <= length state) by (rewrite H; apply total_nonneg).
  pose proof (granted_bounds (requested n state) state HL (requested_nonneg n state HL))
    as (Hn & Hb & Hl).
  destruct (granted (requested n state) state) as [m st1]. simpl in Hn, Hb, Hl.
  assert (H1 : consistent st1) by (unfold consistent; rewrite Hb, Hl; exact H).
  pose proof (take_consistent m st1 H1) as Ht. rewrite Hl in Ht. specialize (Ht Hn).
  destruct (take m st1) as [ret st2]. simpl in Ht. destruct Ht as [Ht1 Ht2].
  set (st3 := set_length _ _).
  assert (H3 : consistent st3).
  { unfold consistent, st3. destruct (no_data ret); simpl; lia. }
  destruct (prefetch_queue p st3) as [Hpb Hpl].
  destruct (prefetch p st3) as [st4 e]. simpl in *.
  unfold consistent. rewrite Hpb, Hpl. exact H3.
Qed.

Lemma new_ReadableState_consistent (options : option Options) :
  consistent (new_ReadableState options).
Proof. reflexivity. Qed.

Lemma apply_op_consistent (state : ReadableState) (op : Op) :
  consistent state -> consistent (apply_op state op).
Proof.
  intros H. destruct op as [p n|p er c|c]; simpl.
  - apply read_consistent, H.
  - apply onread_consistent, H.
  - apply output_consistent, H.
Qed.

(** C5.  Whatever reads, answers of the producer and outputs of the transform
    step a stream goes through after its construction, in any order, the
    recorded size [state.length] is the sum of the sizes of the chunks in
    [state.buffer]. *)
Theorem length_is_total_of_buffer (options : option Options) (ops : list Op) :
  let state := fold_left apply_op ops (new_ReadableState options) in
  length state = total (buffer state).
Proof.
  simpl. change (consistent (fold_left apply_op ops (new_ReadableState options))).
  generalize (new_ReadableState_consistent options).
  generalize (new_ReadableState options) as st.
  induction ops as [|op rest IH]; intros st H; simpl; [exact H|].
  apply IH, apply_op_consistent, H.
Qed.

(** ** A transform step that hands over nothing *)

(** C9.  Calling [_output] with a falsy chunk or a chunk of length zero
    changes nothing: the buffer, the recorded size and [needReadable] are
    what they were, and no ['readable'] is emitted. *)
Theorem output_without_data_is_noop (chunk : option chunk) (state : ReadableState) :
  no_data chunk = true -> Transform._output chunk state = (state, []).
Proof.
  intros H. unfold Transform._output. destruct chunk as [c|]; [|reflexivity].
  simpl in H. rewrite H. reflexivity.
Qed.

Lemma output_without_data_is_noop_witness :
  Transform._output (Some []) (new_ReadableState None) = (new_ReadableState None, []).
Proof. apply output_without_data_is_noop. reflexivity. Defined.

(** ** The end of a transform *)

(** C8, as the code has it.  [done] with an error emits ['error'] and leaves
    the state alone.  Without an error it sets [ended]; then, when output is
    still buffered, ['readable'] is emitted if a consumer is waiting
    ([needReadable]) and nothing is emitted if none is; when nothing is
    buffered, ['end'] is emitted at once. *)
Theorem done_outcome (er : option error) (rs rs' : ReadableState) (e : list effect) :
  Transform.done er rs = (rs', e) ->
  (forall x, er = Some x -> rs' = rs /\ e = [Emit (Error x)]) /\
  (er = None ->
   rs' = set_ended true rs /\
   (length rs <> 0 -> needReadable rs = true -> e = [Emit Readable]) /\
   (length rs <> 0 -> needReadable rs = false -> e = []) /\
   (length rs = 0 -> e = [Emit End_])).
Proof.
  unfold Transform.done. intros H. split.
  - intros x ->. inversion H. split; reflexivity.
  - intros ->. simpl in H.
    destruct (length rs =? 0) eqn:E0; simpl in H.
    + apply Z.eqb_eq in E0. inversion H. repeat split; intros; try reflexivity; lia.
    + apply Z.eqb_neq in E0.
      destruct (needReadable rs) eqn:En; inversion H;
        repeat split; intros; try reflexivity; try congruence; lia.
Qed.

Lemma done_outcome_witness :
  snd (Transform.done None (new_ReadableState None)) = [Emit End_].
Proof.
  destruct (Transform.done None (new_ReadableState None)) as [rs' e] eqn:E.
  destruct (done_outcome None (new_ReadableState None) rs' e E) as [_ H].
  destruct (H eq_refl) as (_ & _ & _ & H0). simpl. apply H0. reflexivity.
Defined.

(** C8, as stated, fails: with output buffered and no consumer waiting,
    [done] emits nothing, no ['readable']. *)
Lemma done_counterexample :
  length three_buffered = 3 /\ needReadable three_buffered = false /\
  snd (Transform.done None three_buffered) = [].
Proof. repeat split. Qed.

Lemma heard_no_listener (r : ReadableState * list effect) :
  Transform.heard Transform.no_listener r = r.
Proof.
  destruct r as [rs e]. unfold Transform.heard, Transform.no_listener. simpl.
  destruct e as [|x rest]; [reflexivity|].
  destruct x as [[| |er]|ev|m| |]; try reflexivity.
  destruct rest; reflexivity.
Qed.

Lemma output_all_ended (cs : list (option chunk)) :
  forall rs,
    ended (fst (Transform.output_all Transform.no_listener cs rs)) = ended rs /\
    forall x, In x (snd (Transform.output_all Transform.no_listener cs rs)) ->
      x = Emit Readable.
Proof.
  induction cs as [|c rest IH]; intros rs; cbn [Transform.output_all];
    [split; [reflexivity | intros x []]|].
  rewrite heard_no_listener.
  assert (H1 : ended (fst (Transform._output c rs)) = ended rs /\
               forall x, In x (snd (Transform._output c rs)) -> x = Emit Readable).
  { unfold Transform._output. destruct c as [c|]; [|split; [reflexivity | intros x []]].
    destruct (chunk_length c =? 0); [split; [reflexivity | intros x []]|].
    destruct (needReadable _); simpl; split; try reflexivity.
    - intros x [<-|[]]. reflexivity.
    - intros x []. }
  destruct (Transform._output c rs) as [rs1 e1]. simpl in H1.
  specialize (IH rs1).
  destruct (Transform.output_all Transform.no_listener rest rs1) as [rs2 e2].
  simpl in *. destruct H1 as [A1 B1], IH as [A2 B2].
  split; [congruence|]. intros x Hx. apply in_app_or in Hx.
  destruct Hx; [apply B1 | apply B2]; assumption.
Qed.

(** X9.  An error of a flush step that answers inside the call, on a
    Transform whose ['readable'] wakes no listener that touches the stream:
    whatever the step handed to [output] first, ['error'] is emitted,
    [ended] is left as it was and no ['end'] is emitted. *)
Lemma flush_error_aborts (cs : list (option chunk)) (x : error) (rs : ReadableState) :
  let r := Transform.on_finish Transform.no_listener
             (Some {| Transform.outputs := cs; Transform.result := Some x |}) rs in
  ended (fst r) = ended rs /\ In (Emit (Error x)) (snd r) /\ ~ In (Emit End_) (snd r).
Proof.
  cbv zeta. cbn [Transform.on_finish Transform.outputs Transform.result].
  destruct (output_all_ended cs rs) as [A B].
  destruct (Transform.output_all Transform.no_listener cs rs) as [rs1 e1].
  rewrite heard_no_listener. simpl in *.
  repeat split; [exact A | apply in_or_app; right; left; reflexivity |].
  intros H. apply in_app_or in H. destruct H as [H|[H|[]]]; [|discriminate].
  apply B in H. discriminate.
Qed.

(** Without a flush step the ['finish'] listener is [done] with no error. *)
Lemma finish_without_flush (rs : ReadableState) :
  Transform.on_finish Transform.no_listener None rs = Transform.done None rs.
Proof. apply heard_no_listener. Qed.

(** ** Reading at the end *)

Lemma read_on_ended_empty (p : Producer) (n : option Z) (state : ReadableState) :
  length state = 0 -> ended state = true ->
  read p n state = (None, state, [NextTick End_]).
Proof. intros HL He. unfold read. rewrite HL, He. reflexivity. Qed.

(** C6, as the code has it.  On a stream that has ended and whose buffer is
    empty, every call of [read] returns no data, changes nothing and
    schedules one emission of ['end']: as many emissions as calls. *)
Theorem read_at_end (p : Producer) (ns : list (option Z)) (state : ReadableState) :
  length state = 0 -> ended state = true ->
  reads p ns state =
    (map (fun _ => None) ns, state, repeat (NextTick End_) (List.length ns)).
Proof.
  intros HL He. induction ns as [|n rest IH]; simpl; [reflexivity|].
  rewrite (read_on_ended_empty p n state HL He), IH. reflexivity.
Qed.

Lemma read_at_end_witness :
  reads Source [None; Some 5] (_readableState ended_empty) =
    ([None; None], _readableState ended_empty, [NextTick End_; NextTick End_]).
Proof.
  apply (read_at_end Source [None; Some 5] (_readableState ended_empty));
    reflexivity.
Defined.

(** C6, as stated, fails: two calls of [read()] on a stream that has ended
    and is empty, and ['end'] is emitted twice. *)
Lemma read_at_end_counterexample :
  length (_readableState ended_empty) = 0 /\
  ended (_readableState ended_empty) = true /\
  trace (run accepting [Read None; Read None; Tick; Tick] ended_empty) =
    trace ended_empty ++ [UserRead None; UserRead None; Emitted End_; Emitted End_].
Proof. repeat split. Qed.

(** ** Asking for more than is buffered *)

Lemma call_read_once (p : Producer) (n : Z) (state : ReadableState) :
  count is_call_read (snd (call_read p n state)) = 1%nat /\
  needReadable (fst (call_read p n state)) = needReadable state.
Proof.
  destruct p as [|ws]; simpl; [split; reflexivity|].
  unfold Transform._read, onread_no_data.
  destruct ((Writable.ended ws || Writable.ending ws) && (Writable.length ws =? 0));
    simpl; [|split; reflexivity].
  destruct (0 <? length state); simpl; split; reflexivity.
Qed.

Lemma prefetch_calls (p : Producer) (state : ReadableState) :
  count is_call_read (snd (prefetch p state)) =
    (if negb (ended state) && (length state <? lowWaterMark state) && negb (reading state)
     then 1%nat else 0%nat) /\
  needReadable (fst (prefetch p state)) = needReadable state.
Proof.
  unfold prefetch.
  destruct (negb (ended state) && (length state <? lowWaterMark state) && negb (reading state)).
  - apply (call_read_once p (bufferSize state) (set_reading true state)).
  - split; reflexivity.
Qed.

Lemma concat_nil_of_total (q : list chunk) : total q = 0 -> List.concat q = [].
Proof.
  rewrite total_concat. intros H. apply length_zero_iff_nil. lia.
Qed.

(** C2, as the code has it.  A call [read(n)] with [n] above the buffered
    size, on a stream that has not ended and holds less than
    [lowWaterMark]: returns no data, sets [needReadable], leaves the buffer
    and the recorded size alone, and calls [_read] exactly once when the
    flag [reading] is false, not at all when it is true.  When the stream
    has ended, or holds [lowWaterMark] or more, the call returns all that is
    buffered and leaves nothing behind. *)
Theorem read_beyond_buffer (p : Producer) (n : Z) (state : ReadableState)
  (ret : option chunk) (state' : ReadableState) (e : list effect) :
  consistent state -> length state < n ->
  read p (Some n) state = (ret, state', e) ->
  (ended state = false -> length state < lowWaterMark state ->
   ret = None /\ needReadable state' = true /\
   buffer state' = buffer state /\ length state' = length state /\
   count is_call_read e = if reading state then 0%nat else 1%nat) /\
  (ended state = true \/ lowWaterMark state <= length state ->
   data ret = List.concat (buffer state) /\
   List.concat (buffer state') = [] /\ length state' = 0).
Proof.
  intros Hc Hn Hr.
  assert (HL : 0 <= length state) by (rewrite Hc; apply total_nonneg).
  unfold read in Hr.
  assert (Hreq : requested (Some n) state = n).
  { unfold requested. destruct (n <=? 0) eqn:E; [apply Z.leb_le in E; lia | reflexivity]. }
  rewrite Hreq in Hr. unfold granted in Hr.
  assert (Hlt : (length state <? n) = true) by (apply Z.ltb_lt; exact Hn).
  rewrite Hlt in Hr.
  split.
  - intros He Hw.
    assert (E0 : ((length state =? 0) && ended state) = false)
      by (rewrite He; apply andb_false_r).
    assert (Ew : (length state <? lowWaterMark state) = true) by (apply Z.ltb_lt; exact Hw).
    rewrite E0, He, Ew in Hr. simpl in Hr.
    set (st := set_length _ _) in Hr.
    destruct (prefetch_queue p st) as [Hb Hl].
    destruct (prefetch_calls p st) as [Hk Hnr].
    destruct (prefetch p st) as [st' e'] eqn:Ep. inversion Hr; subst ret state' e.
    simpl in Hb, Hl, Hk, Hnr.
    repeat split; try assumption.
    + rewrite Hl. unfold st. simpl. lia.
    + rewrite Hk. unfold st. simpl. rewrite He. rewrite Z.sub_0_r, Ew. simpl.
      destruct (reading state); reflexivity.
  - intros Hor.
    destruct ((length state =? 0) && ended state) eqn:E0.
    + apply andb_true_iff in E0. destruct E0 as [E0 _]. apply Z.eqb_eq in E0.
      inversion Hr; subst ret state' e. simpl.
      assert (Hq : List.concat (buffer state) = [])
        by (apply concat_nil_of_total; unfold consistent in Hc; lia).
      rewrite Hq. repeat split; assumption.
    + assert (Ec : (negb (ended state) && (length state <? lowWaterMark state)) = false).
      { destruct Hor as [He|Hw]; [rewrite He; reflexivity|].
        apply andb_false_iff. right. apply Z.ltb_ge. exact Hw. }
      rewrite Ec in Hr. unfold take in Hr.
      destruct (0 <? length state) eqn:Ep.
      * destruct (fromList_all (buffer state) (length state)) as [Hall Hrest].
        unfold consistent in Hc. rewrite <- Hc in Hall, Hrest.
        destruct (fromList (length state) (buffer state) (length state))
          as [r q] eqn:Ef. simpl in Hall, Hrest.
        set (st := set_length _ _) in Hr.
        destruct (prefetch_queue p st) as [Hb Hl].
        destruct (prefetch p st) as [st' e'] eqn:Epf. inversion Hr; subst ret state' e.
        simpl in Hb, Hl. simpl. rewrite Hb, Hl.
        destruct (chunk_length r =? 0); simpl;
          repeat split; try assumption; lia.
      * apply Z.ltb_ge in Ep. assert (Hz : length state = 0) by lia.
        set (st := set_length _ _) in Hr.
        destruct (prefetch_queue p st) as [Hb Hl].
        destruct (prefetch p st) as [st' e'] eqn:Epf. inversion Hr; subst ret state' e.
        simpl in Hb, Hl. simpl. rewrite Hb, Hl.
        assert (Hq : List.concat (buffer state) = [])
          by (apply concat_nil_of_total; unfold consistent in Hc; lia).
        unfold st. simpl. rewrite Hq. repeat split; try reflexivity. lia.
Qed.

Lemma read_beyond_buffer_witness :
  fst (fst (read Source (Some 1000) state200)) = None /\
  needReadable (snd (fst (read Source (Some 1000) state200))) = true /\
  count is_call_read (snd (read Source (Some 1000) state200)) = 1%nat.
Proof.
  destruct (read Source (Some 1000) state200) as [[ret st'] e] eqn:E.
  destruct (read_beyond_buffer Source 1000 state200 ret st' e) as [H _].
  - reflexivity.
  - reflexivity.
  - exact E.
  - destruct H as (Hr & Hw & _ & _ & Hk); [reflexivity | reflexivity |].
    repeat split; assumption.
Defined.

(** C2, as stated, fails: 200 units buffered, [lowWaterMark] 1024, not
    ended, and [read(1000)] calls [_read] not once but not at all, the flag
    [reading] being set. *)
Lemma read_beyond_buffer_counterexample :
  ended state200_reading = false /\ length state200_reading = 200 /\
  lowWaterMark state200_reading = 1024 /\ reading state200_reading = true /\
  count is_call_read (snd (read Source (Some 1000) state200_reading)) = 0%nat.
Proof. repeat split. Qed.

(** ** One request at a time *)

(** The request [onread] issues from inside is not flagged: answered with
    data that leaves the buffer under [lowWaterMark], [onread] calls [_read]
    again and leaves [reading] false. *)
Lemma onread_chains_unflagged (c : chunk) (state : ReadableState) :
  chunk_length c <> 0 ->
  length state + chunk_length c < lowWaterMark state ->
  reading (fst (onread Source None (Some c) state)) = false /\
  count is_call_read (snd (onread Source None (Some c) state)) = 1%nat.
Proof.
  intros Hc Hw. unfold onread.
  apply Z.eqb_neq in Hc. rewrite Hc. simpl.
  apply Z.ltb_lt in Hw. rewrite Hw. simpl.
  destruct (needReadable state); split; reflexivity.
Qed.

(** C1 fails on the code.  After [read()] and an answer of two units, the
    chained request is with the producer while [reading] is false; the next
    [read()] therefore calls [_read] again, and two requests are in flight. *)
Theorem two_requests_in_flight :
  let s1 := run accepting [Read None; Reply None (Some ab)] (new_Readable None) in
  let s2 := run accepting [Read None] s1 in
  outstanding s1 = 1%nat /\ reading (_readableState s1) = false /\
  outstanding s2 = 2%nat /\ reading (_readableState s2) = true.
Proof. repeat split. Qed.

(** ** The wrapper of an old-style stream *)

(** Whatever the global [ended] is, unless it is truthy the override of
    [read] never schedules ['end']. *)
Lemma wrap_read_never_ends (g : option bool) (n : option Z) (w : Wrap.Wrapped) :
  g <> Some true -> count is_tick_end (snd (Wrap.read g n w)) = 0%nat.
Proof.
  intros Hg. unfold Wrap.read.
  destruct (length (Wrap.state w) =? 0); [reflexivity|].
  destruct ((length (Wrap.state w) <? requested n (Wrap.state w))
            && negb (ended (Wrap.state w))); [reflexivity|].
  destruct (fromList _ _ _) as [r q]. simpl.
  destruct ((_ <? _) && Wrap.paused w); simpl;
    destruct (_ =? 0); destruct g as [[|]|]; try reflexivity; congruence.
Qed.

(** And when it is truthy, a [read] that empties the buffer schedules
    ['end'] although the source has not ended. *)
Lemma wrap_read_ends_early :
  ended (Wrap.state wrapped_with_data) = false /\
  snd (Wrap.read (Some true) None wrapped_with_data) = [NextTick End_].
Proof. split; reflexivity. Qed.

(** C7 fails on the code.  The source emits two units, then ['end'] (which
    raises nothing, the buffer not being empty); the [read()] that empties
    the buffer throws a ReferenceError on [ended] instead of returning the
    data, and schedules no ['end']. *)
Theorem wrapped_read_throws :
  snd (Wrap.on_end wrapped_with_data) = [] /\
  ended (Wrap.state wrapped_after_end) = true /\
  length (Wrap.state wrapped_after_end) = 2 /\
  fst (fst (Wrap.read None None wrapped_after_end)) =
    Wrap.Threw (Wrap.ReferenceError "ended") /\
  length (Wrap.state (snd (fst (Wrap.read None None wrapped_after_end)))) = 0 /\
  snd (Wrap.read None None wrapped_after_end) = [].
Proof. repeat split. Qed.

(** ** Backpressure *)

(** C3 fails on the code.  [state.flowing] is never set, so the second call
    of [pipe] starts a second [flow].  The first destination answers [false]
    to the first chunk and never emits ['drain']; the other [flow] reads on
    and writes the second chunk to it. *)
Theorem second_flow_ignores_backpressure :
  trace two_pipes =
    [Piped (Sink 0); Piped (Sink 1); FlowRead None; FlowRead None;
     Emitted Readable; FlowRead (Some ab);
     Wrote (Sink 0) ab false; Wrote (Sink 1) ab true; Data ab;
     FlowRead None;
     Emitted Readable; FlowRead (Some cd);
     Wrote (Sink 0) cd false; Wrote (Sink 1) cd true; Data cd] /\
  respects_backpressure [] (trace two_pipes) = false.
Proof. split; reflexivity. Qed.

(** ** The end of a piped source *)

(** C4 fails on the code.  The three chunks reach the destination in order;
    the producer then answers that there is no data, [onread] finds the
    buffer empty and emits nothing.  No task is queued and no request is in
    flight, so the event loop has nothing left to run; [flow] waits for a
    ['readable'] and [onend] is still registered: [dest.end()] has not been
    called. *)
Theorem piped_source_never_ends :
  trace three_chunks_piped =
    [Piped (Sink 0); FlowRead None;
     Emitted Readable; FlowRead (Some ab); Wrote (Sink 0) ab true; Data ab;
     FlowRead None;
     Emitted Readable; FlowRead (Some cd); Wrote (Sink 0) cd true; Data cd;
     FlowRead None;
     Emitted Readable; FlowRead (Some ef); Wrote (Sink 0) ef true; Data ef;
     FlowRead None] /\
  ended (_readableState three_chunks_piped) = true /\
  ticks three_chunks_piped = [] /\
  outstanding three_chunks_piped = 0%nat /\
  end_listeners three_chunks_piped = [(0%nat, Sink 0)] /\
  readable_listeners three_chunks_piped = [{| end_opt := None; chunkSize := None |}] /\
  filter is_ended (trace three_chunks_piped) = [] /\
  step accepting three_chunks_piped Tick = three_chunks_piped /\
  (forall er c, step accepting three_chunks_piped (Reply er c) = three_chunks_piped).
Proof. repeat split. Qed.

(** The same with the scenario of the specification: fifty chunks, default
    options.  All fifty are written, in order; then the source is ended,
    nothing is queued or in flight, and [dest.end()] was not called. *)
Lemma fifty_chunks_never_end :
  writes_to (Sink 0) (trace fifty_chunks_piped) = fifty_chunks /\
  ended (_readableState fifty_chunks_piped) = true /\
  ticks fifty_chunks_piped = [] /\
  outstanding fifty_chunks_piped = 0%nat /\
  filter is_ended (trace fifty_chunks_piped) = [].
Proof. vm_compute. repeat split. Qed.

(** ** The listener that ends the destination *)

Lemma same_pipes_refl (s : Stream) : same_pipes s s.
Proof. repeat split. Qed.

Lemma same_pipes_trans (s1 s2 s3 : Stream) :
  same_pipes s1 s2 -> same_pipes s2 s3 -> same_pipes s1 s3.
Proof.
  unfold same_pipes. intros (A1 & B1 & C1) (A2 & B2 & C2).
  repeat split; congruence.
Qed.

Lemma call_read_pipes (p : Producer) (n : Z) (state : ReadableState) :
  pipes (fst (call_read p n state)) = pipes state.
Proof.
  destruct p as [|ws]; simpl; [reflexivity|].
  unfold Transform._read, onread_no_data.
  destruct ((Writable.ended ws || Writable.ending ws) && (Writable.length ws =? 0));
    simpl; [|reflexivity].
  destruct (0 <? length state); reflexivity.
Qed.

Lemma prefetch_pipes (p : Producer) (state : ReadableState) :
  pipes (fst (prefetch p state)) = pipes state.
Proof.
  unfold prefetch.
  destruct (negb (ended state) && (length state <? lowWaterMark state) && negb (reading state)).
  - apply (call_read_pipes p (bufferSize state) (set_reading true state)).
  - reflexivity.
Qed.

Lemma granted_pipes (n : Z) (state : ReadableState) :
  pipes (snd (granted n state)) = pipes state.
Proof.
  unfold granted. destruct (length state <? n); [|reflexivity].
  destruct (negb (ended state) && (length state <? lowWaterMark state)); reflexivity.
Qed.

Lemma take_pipes (n : Z) (state : ReadableState) :
  pipes (snd (take n state)) = pipes state.
Proof.
  unfold take. destruct (0 <? n); [|reflexivity].
  destruct (fromList n (buffer state) (length state)). reflexivity.
Qed.

Lemma read_pipes (p : Producer) (n : option Z) (state : ReadableState) :
  pipes (snd (fst (read p n state))) = pipes state.
Proof.
  unfold read.
  destruct ((length state =? 0) && ended state); [reflexivity|].
  pose proof (granted_pipes (requested n state) state) as Hg.
  destruct (granted (requested n state) state) as [m st1]. simpl in Hg.
  pose proof (take_pipes m st1) as Ht.
  destruct (take m st1) as [ret st2]. simpl in Ht.
  set (st3 := set_length _ _).
  assert (H3 : pipes st3 = pipes st2) by (unfold st3; destruct (no_data ret); reflexivity).
  pose proof (prefetch_pipes p st3) as Hp.
  destruct (prefetch p st3) as [st4 e]. simpl in *. congruence.
Qed.

Lemma onread_pipes (p : Producer) (er : option error) (c : option chunk)
  (state : ReadableState) :
  pipes (fst (onread p er c state)) = pipes state.
Proof.
  assert (Hn : forall st, pipes (fst (onread_no_data st)) = pipes st).
  { intros st. unfold onread_no_data. destruct (0 <? _); reflexivity. }
  unfold onread. destruct er; [reflexivity|].
  destruct c as [c|]; [|rewrite Hn; reflexivity].
  destruct (chunk_length c =? 0); [rewrite Hn; reflexivity|].
  set (st := push c _).
  assert (Hst : pipes st = pipes state) by reflexivity.
  pose proof (call_read_pipes p (bufferSize st) st) as H.
  destruct (length st <? lowWaterMark st).
  - destruct (call_read p (bufferSize st) st) as [st' e']. simpl in *.
    destruct (needReadable st'); simpl; congruence.
  - destruct (needReadable st); simpl; exact Hst.
Qed.

Lemma fold_deferred_same (e : list effect) (s : Stream) :
  same_pipes s (fold_left (fun s e => deferred e s) e s).
Proof.
  revert s. induction e as [|x rest IH]; intros s; simpl; [apply same_pipes_refl|].
  eapply same_pipes_trans; [|apply IH].
  destruct x as [ev|[| |er]|m| |]; repeat split.
Qed.

Lemma src_read_same (n : option Z) (s : Stream) :
  same_pipes s (snd (src_read n s)).
Proof.
  unfold src_read.
  pose proof (read_pipes Source n (_readableState s)) as H.
  destruct (read Source n (_readableState s)) as [[ret st] e]. simpl in *.
  eapply same_pipes_trans; [|apply fold_deferred_same].
  repeat split. exact H.
Qed.

Section Pipes.

Variable write : list Obs -> Dest -> chunk -> bool.

Lemma write_to_same (a : nat) (c : chunk) (s : Stream) (dest : Dest) :
  same_pipes s (write_to write a c s dest).
Proof.
  unfold write_to. destruct (write (trace s) dest c); repeat split.
Qed.

Lemma fold_write_to_same (a : nat) (c : chunk) (ds : list Dest) (s : Stream) :
  same_pipes s (fold_left (write_to write a c) ds s).
Proof.
  revert s. induction ds as [|d rest IH]; intros s; simpl; [apply same_pipes_refl|].
  eapply same_pipes_trans; [apply write_to_same | apply IH].
Qed.

Lemma flow_loop_same (fuel a : nat) (o : PipeOpts) :
  forall s b r, flow_loop write fuel a o s = Some (b, r) -> same_pipes s r.
Proof.
  induction fuel as [|fuel IH]; intros s b r H; simpl in H; [discriminate|].
  destruct (pipes (_readableState s)) eqn:Ep.
  - inversion H; subst. apply same_pipes_refl.
  - pose proof (src_read_same (chunkSize o) s) as Hr.
    destruct (src_read (chunkSize o) s) as [ret s1]. simpl in Hr.
    destruct ret as [c|].
    + set (s2 := log (Data c) _) in H.
      assert (H2 : same_pipes s s2).
      { eapply same_pipes_trans; [exact Hr|].
        eapply same_pipes_trans;
          [|apply (fold_write_to_same a c (pipes (_readableState (log (FlowRead (Some c)) s1)))
                     (log (FlowRead (Some c)) s1))].
        repeat split. }
      destruct (0 <? needDrain_of a s2).
      * inversion H; subst. exact H2.
      * eapply same_pipes_trans; [exact H2 | eapply IH; exact H].
    + inversion H; subst. eapply same_pipes_trans; [exact Hr|]. repeat split.
Qed.

Lemma flow_same (o : PipeOpts) (s : Stream) : same_pipes s (fst (flow write o s)).
Proof.
  unfold flow.
  set (s0 := set_needDrain _ s).
  assert (H0 : same_pipes s s0) by (repeat split).
  destruct (flow_loop write _ _ o s0) as [[b r]|] eqn:E; [|exact H0].
  apply flow_loop_same in E.
  pose proof (same_pipes_trans _ _ _ H0 E) as Hr.
  destruct b; [exact Hr|].
  destruct (pipes (_readableState r)); simpl;
    (eapply same_pipes_trans; [exact Hr|]); repeat split.
Qed.

Lemma ondrain_same (a : nat) (s : Stream) : same_pipes s (fst (ondrain write a s)).
Proof.
  unfold ondrain.
  destruct (needDrain_of a (add_needDrain a (-1) s) =? 0); [|repeat split].
  eapply same_pipes_trans; [|apply flow_same]. repeat split.
Qed.

Lemma run_readable_same (k : nat) :
  forall s, same_pipes s (fst (run_readable write k s)).
Proof.
  induction k as [|k IH]; intros s; simpl; [apply same_pipes_refl|].
  destruct (readable_listeners s) as [|o rest] eqn:El; [apply same_pipes_refl|].
  pose proof (flow_same o (set_readable_listeners rest s)) as Hf.
  destruct (flow write o (set_readable_listeners rest s)) as [s1 threw]. simpl in Hf.
  assert (H1 : same_pipes s s1)
    by (eapply same_pipes_trans; [|exact Hf]; repeat split).
  destruct threw; [exact H1|].
  eapply same_pipes_trans; [exact H1 | apply IH].
Qed.

Lemma emit_readable_same (s : Stream) : same_pipes s (fst (emit_readable write s)).
Proof.
  unfold emit_readable.
  eapply same_pipes_trans; [|apply run_readable_same]. repeat split.
Qed.

Lemma run_drain_same (ls : list (Dest * nat)) :
  forall s, same_pipes s (fst (run_drain write ls s)).
Proof.
  induction ls as [|l rest IH]; intros s; simpl; [apply same_pipes_refl|].
  set (s0 := set_drain_listeners _ s).
  pose proof (ondrain_same (snd l) s0) as Hd.
  destruct (ondrain write (snd l) s0) as [s1 threw]. simpl in Hd.
  assert (H1 : same_pipes s s1)
    by (eapply same_pipes_trans; [|exact Hd]; repeat split).
  destruct threw; [exact H1|].
  eapply same_pipes_trans; [exact H1 | apply IH].
Qed.

Lemma emit_drain_same (dest : Dest) (s : Stream) :
  same_pipes s (fst (emit_drain write dest s)).
Proof.
  unfold emit_drain.
  eapply same_pipes_trans; [|apply run_drain_same]. repeat split.
Qed.

End Pipes.

Lemma Dest_eqb_eq (a b : Dest) : Dest_eqb a b = true <-> a = b.
Proof.
  destruct a as [| |i], b as [| |j]; simpl; split; intros H;
    try reflexivity; try discriminate.
  - apply Nat.eqb_eq in H. subst. reflexivity.
  - inversion H. apply Nat.eqb_refl.
Qed.

Lemma tracked_same (s s' : Stream) :
  same_pipes s s' -> end_listeners_tracked s -> end_listeners_tracked s'.
Proof.
  unfold same_pipes, end_listeners_tracked. intros (A & B & C) H k d.
  rewrite A, B, C. apply H.
Qed.

Lemma tracked_nil (s : Stream) : end_listeners s = [] -> end_listeners_tracked s.
Proof. intros H k d. rewrite H. intros []. Qed.

Lemma emit_end_listeners (s : Stream) : end_listeners (emit_end s) = [].
Proof.
  unfold emit_end.
  assert (H : forall ls s0, end_listeners s0 = [] ->
            end_listeners
              (fold_left (fun s (l : nat * Dest) => log (Ended (snd l)) s) ls s0) = []);
    [|apply H; reflexivity].
  induction ls as [|l rest IH]; intros s0 H0; simpl; [exact H0|].
  apply IH. exact H0.
Qed.

(** The listeners [emit_unpipe] removes are those of the destination. *)
Lemma emit_unpipe_removes (s : Stream) (d : Dest) (k : nat) (d' : Dest) :
  In (k, d') (end_listeners (emit_unpipe s d)) ->
  In (k, d') (end_listeners s) /\ ~ In (d, k) (unpipe_listeners s).
Proof.
  unfold emit_unpipe. simpl. intros H. apply filter_In in H. destruct H as [Hin Hk].
  split; [exact Hin|]. intros Hu. simpl in Hk.
  apply negb_true_iff in Hk.
  assert (Ht : existsb (Nat.eqb k)
                 (map snd (filter (fun l => Dest_eqb (fst l) d) (unpipe_listeners s))) = true).
  { apply existsb_exists. exists k. split; [|apply Nat.eqb_refl].
    apply in_map_iff. exists (d, k). split; [reflexivity|].
    apply filter_In. split; [exact Hu|]. simpl. apply Dest_eqb_eq. reflexivity. }
  congruence.
Qed.

Lemma emit_unpipe_frame (s : Stream) (d : Dest) :
  unpipe_listeners (emit_unpipe s d) = unpipe_listeners s /\
  pipes (_readableState (emit_unpipe s d)) = pipes (_readableState s).
Proof. split; reflexivity. Qed.

Lemma fold_emit_unpipe (ds : list Dest) :
  forall s k d',
    In (k, d') (end_listeners (fold_left emit_unpipe ds s)) ->
    In (k, d') (end_listeners s) /\
    forall d, In d ds -> ~ In (d, k) (unpipe_listeners s).
Proof.
  induction ds as [|d0 rest IH]; intros s k d' H; simpl in *.
  - split; [exact H | intros d []].
  - apply IH in H. destruct H as [Hin Hrest].
    apply emit_unpipe_removes in Hin. destruct Hin as [Hin H0].
    split; [exact Hin|]. intros d [->|Hd]; [exact H0|].
    apply (Hrest d Hd).
Qed.

Lemma fold_emit_unpipe_frame (ds : list Dest) :
  forall s, unpipe_listeners (fold_left emit_unpipe ds s) = unpipe_listeners s.
Proof.
  induction ds as [|d0 rest IH]; intros s; simpl; [reflexivity|].
  rewrite IH. reflexivity.
Qed.

Lemma In_remove_first (d x : Dest) (l : list Dest) :
  In x l -> x <> d -> In x (remove_first Dest_eqb d l).
Proof.
  induction l as [|y rest IH]; simpl; intros H Hne; [exact H|].
  destruct (Dest_eqb d y) eqn:E.
  - apply Dest_eqb_eq in E. subst y. destruct H as [->|H]; [congruence | exact H].
  - destruct H as [->|H]; [left; reflexivity | right; apply IH; assumption].
Qed.

(** After [unpipe(dest)] no [onend] of [dest] is registered. *)
Lemma unpipe_removes (s : Stream) (d : Dest) :
  end_listeners_tracked s ->
  forall k, ~ In (k, d) (end_listeners (unpipe (Some d) s)).
Proof.
  intros Ht k H. unfold unpipe in H.
  destruct (existsb (Dest_eqb d) (pipes (_readableState s))) eqn:E.
  - simpl in H. apply emit_unpipe_removes in H. destruct H as [Hin Hno].
    apply Hno. apply (Ht k d Hin).
  - destruct (Ht k d H) as [_ Hp].
    assert (Hex : existsb (Dest_eqb d) (pipes (_readableState s)) = true).
    { apply existsb_exists. exists d. split; [exact Hp | apply Dest_eqb_eq; reflexivity]. }
    congruence.
Qed.

(** After [unpipe()] no [onend] is registered at all. *)
Lemma unpipe_all_removes (s : Stream) :
  end_listeners_tracked s -> end_listeners (unpipe None s) = [].
Proof.
  intros Ht. unfold unpipe. simpl.
  destruct (end_listeners (fold_left emit_unpipe (pipes (_readableState s)) s))
    as [|[k d] rest] eqn:E; [reflexivity|].
  assert (Hin : In (k, d) (end_listeners (fold_left emit_unpipe (pipes (_readableState s)) s)))
    by (rewrite E; left; reflexivity).
  apply fold_emit_unpipe in Hin. destruct Hin as [Hin Hno].
  destruct (Ht k d Hin) as [Hu Hp]. exfalso. apply (Hno d Hp Hu).
Qed.

Lemma unpipe_tracked (dest : option Dest) (s : Stream) :
  end_listeners_tracked s -> end_listeners_tracked (unpipe dest s).
Proof.
  intros Ht. destruct dest as [d|].
  - intros k d' H.
    destruct (Dest_eqb d' d) eqn:Ed.
    + apply Dest_eqb_eq in Ed. subst d'. exfalso. exact (unpipe_removes s d Ht k H).
    + assert (Hne : d' <> d).
      { intros ->. assert (Dest_eqb d d = true) by (apply Dest_eqb_eq; reflexivity). congruence. }
      unfold unpipe in *.
      destruct (existsb (Dest_eqb d) (pipes (_readableState s))); [|apply Ht; exact H].
      simpl in *. apply emit_unpipe_removes in H. destruct H as [Hin _].
      destruct (Ht k d' Hin) as [Hu Hp]. split; [exact Hu|].
      apply In_remove_first; assumption.
  - apply tracked_nil. apply unpipe_all_removes. exact Ht.
Qed.

Lemma end_listeners_of_pipe (dest : Dest) (pipeOpts : option PipeOpts) (s : Stream) :
  end_listeners (pipe dest pipeOpts s) =
    if match pipeOpts with Some {| end_opt := Some false |} => false | _ => true end
       && negb (Dest_eqb dest Stdout) && negb (Dest_eqb dest Stderr)
    then end_listeners s ++ [(pipe_calls s, dest)]
    else end_listeners s.
Proof.
  unfold pipe.
  destruct pipeOpts as [[[[|]|] cs]|]; simpl;
    destruct (negb (Dest_eqb dest Stdout) && negb (Dest_eqb dest Stderr));
    destruct (flowing (_readableState s)); reflexivity.
Qed.

Lemma pipe_tracked (dest : Dest) (pipeOpts : option PipeOpts) (s : Stream) :
  end_listeners_tracked s -> end_listeners_tracked (pipe dest pipeOpts s).
Proof.
  intros Ht k d. unfold pipe.
  set (o := match pipeOpts with Some o => o | None => _ end).
  destruct (match end_opt o with Some false => false | _ => true end
            && negb (Dest_eqb dest Stdout) && negb (Dest_eqb dest Stderr));
    destruct (negb (flowing (_readableState s))); simpl; intros H;
    try (apply in_app_or in H; destruct H as [H|[H|[]]];
         [|inversion H; subst; split; apply in_or_app; right; left; reflexivity]);
    destruct (Ht k d H) as [Hu Hp];
    (split; [try (apply in_or_app; left); exact Hu | apply in_or_app; left; exact Hp]).
Qed.

Section Reachable.

Variable write : list Obs -> Dest -> chunk -> bool.

Lemma perform_tracked (s : Stream) (e : effect) :
  end_listeners_tracked s -> end_listeners_tracked (perform write s e).
Proof.
  intros Ht. destruct e as [[| |er]|[| |er]|m| |]; simpl; try exact Ht.
  - apply (tracked_same s); [apply emit_readable_same | exact Ht].
  - apply tracked_nil, emit_end_listeners.
Qed.

Lemma fold_perform_tracked (e : list effect) :
  forall s, end_listeners_tracked s ->
    end_listeners_tracked (fold_left (perform write) e s).
Proof.
  induction e as [|x rest IH]; intros s Ht; simpl; [exact Ht|].
  apply IH, perform_tracked, Ht.
Qed.

Lemma step_tracked (s : Stream) (ev : Event) :
  end_listeners_tracked s -> end_listeners_tracked (step write s ev).
Proof.
  intros Ht. destruct ev as [dest o|dest|n| |er c|dest]; simpl.
  - apply pipe_tracked, Ht.
  - apply unpipe_tracked, Ht.
  - pose proof (src_read_same n s) as Hr.
    destruct (src_read n s) as [ret s1]. simpl in Hr.
    apply (tracked_same s); [|exact Ht].
    eapply same_pipes_trans; [exact Hr|]. repeat split.
  - destruct (ticks s) as [|[o|] rest]; [exact Ht| |].
    + apply (tracked_same s); [|exact Ht].
      eapply same_pipes_trans; [|apply flow_same]. repeat split.
    + apply tracked_nil, emit_end_listeners.
  - destruct (outstanding s) as [|n]; [exact Ht|].
    pose proof (onread_pipes Source er c (_readableState s)) as Hp.
    destruct (onread Source er c (_readableState s)) as [st e]. simpl in Hp.
    apply fold_perform_tracked.
    apply (tracked_same s); [|exact Ht]. repeat split. exact Hp.
  - apply (tracked_same s); [apply emit_drain_same | exact Ht].
Qed.

Lemma run_tracked (evs : list Event) :
  forall s, end_listeners_tracked s -> end_listeners_tracked (run write evs s).
Proof.
  induction evs as [|ev rest IH]; intros s Ht; simpl; [exact Ht|].
  apply IH, step_tracked, Ht.
Qed.

Lemma reachable_tracked (options : option Options) (evs : list Event) :
  end_listeners_tracked (run write evs (new_Readable options)).
Proof. apply run_tracked, tracked_nil. reflexivity. Qed.

(** C10.  On a stream in any state it can reach, [pipe(dest)] registers no
    [onend] when [dest] is [process.stdout] or [process.stderr], whatever
    the options; for any other [dest], unless [end] is [false], it
    registers one, which calls [dest.end()] when ['end'] is emitted, and
    whatever happens next, after [unpipe(dest)] (or [unpipe()]) no [onend]
    of [dest] is registered. *)
Theorem pipe_end_listener (options : option Options) (evs evs' : list Event)
  (dest : Dest) (pipeOpts : option PipeOpts) :
  let s := run write evs (new_Readable options) in
  let s' := pipe dest pipeOpts s in
  (dest = Stdout \/ dest = Stderr -> end_listeners s' = end_listeners s) /\
  (dest <> Stdout -> dest <> Stderr ->
   (forall o, pipeOpts = Some o -> end_opt o <> Some false) ->
   end_listeners s' = end_listeners s ++ [(pipe_calls s, dest)] /\
   In (Ended dest) (trace (emit_end s')) /\
   (forall k, ~ In (k, dest) (end_listeners (unpipe (Some dest) (run write evs' s')))) /\
   end_listeners (unpipe None (run write evs' s')) = []).
Proof.
  intros s s'. split.
  - intros Hd. unfold s'. rewrite end_listeners_of_pipe.
    destruct Hd as [-> | ->]; simpl;
      destruct (match pipeOpts with Some {| end_opt := Some false |} => false | _ => true end);
      reflexivity.
  - intros H1 H2 Ho.
    assert (Hl : end_listeners s' = end_listeners s ++ [(pipe_calls s, dest)]).
    { unfold s'. rewrite end_listeners_of_pipe.
      assert (E1 : Dest_eqb dest Stdout = false).
      { destruct (Dest_eqb dest Stdout) eqn:E; [apply Dest_eqb_eq in E; congruence | reflexivity]. }
      assert (E2 : Dest_eqb dest Stderr = false).
      { destruct (Dest_eqb dest Stderr) eqn:E; [apply Dest_eqb_eq in E; congruence | reflexivity]. }
      rewrite E1, E2.
      destruct pipeOpts as [[[[|]|] cs]|]; try reflexivity.
      exfalso. apply (Ho _ eq_refl). reflexivity. }
    assert (Ht : end_listeners_tracked (run write evs' s')).
    { apply run_tracked. unfold s'. apply pipe_tracked. unfold s. apply reachable_tracked. }
    repeat split.
    + exact Hl.
    + unfold emit_end. rewrite Hl.
      rewrite fold_left_app. simpl. apply in_or_app. right. left. reflexivity.
    + apply unpipe_removes. exact Ht.
    + apply unpipe_all_removes. exact Ht.
Qed.

End Reachable.

Lemma pipe_end_listener_witness :
  end_listeners (pipe (Sink 0) None (new_Readable None)) = [(0%nat, Sink 0)] /\
  forall k, ~ In (k, Sink 0)
    (end_listeners
       (unpipe (Some (Sink 0))
          (run accepting [Tick; Reply None (Some ab)]
             (pipe (Sink 0) None (new_Readable None))))).
Proof.
  destruct (pipe_end_listener accepting None [] [Tick; Reply None (Some ab)] (Sink 0) None)
    as [_ H].
  destruct H as (Hl & _ & Hu & _); try discriminate.
  split; [exact Hl | exact Hu].
Defined.

(** ** The loop of [flow] ends *)

Lemma onread_no_arguments (p : Producer) (state : ReadableState) :
  onread p None None state = onread_no_data (set_reading false state).
Proof. reflexivity. Qed.

(** A [read] that returns data shortens the recorded size. *)
Lemma read_some_decreases (p : Producer) (n : option Z) (state : ReadableState)
  (c : chunk) (state' : ReadableState) (e : list effect) :
  read p n state = (Some c, state', e) ->
  0 <= length state' < length state.
Proof.
  unfold read. destruct ((length state =? 0) && ended state); [discriminate|].
  assert (Hg : fst (granted (requested n state) state) <= length state \/
               fst (granted (requested n state) state) = 0).
  { unfold granted. destruct (length state <? requested n state) eqn:E.
    - destruct (negb (ended state) && (length state <? lowWaterMark state)); simpl; lia.
    - apply Z.ltb_ge in E. simpl. lia. }
  assert (Hl : length (snd (granted (requested n state) state)) = length state).
  { unfold granted. destruct (length state <? requested n state); [|reflexivity].
    destruct (negb (ended state) && (length state <? lowWaterMark state)); reflexivity. }
  destruct (granted (requested n state) state) as [m st1]. simpl in Hg, Hl.
  unfold take. destruct (0 <? m) eqn:Em.
  - apply Z.ltb_lt in Em.
    destruct (fromList m (buffer st1) (length st1)) as [r q].
    set (st3 := set_length _ _).
    assert (H3 : length st3 = length state - m).
    { unfold st3. destruct (no_data (Some r)); simpl; lia. }
    destruct (prefetch_queue p st3) as [_ Hp]. rewrite H3 in Hp.
    destruct (prefetch p st3) as [st4 e4]. simpl in Hp.
    intros H. inversion H; subst. lia.
  - destruct (prefetch p _). discriminate.
Qed.

Section Termination.

Variable write : list Obs -> Dest -> chunk -> bool.

Lemma fold_deferred_state (e : list effect) (s : Stream) :
  _readableState (fold_left (fun s e => deferred e s) e s) = _readableState s.
Proof.
  revert s. induction e as [|x rest IH]; intros s; simpl; [reflexivity|].
  rewrite IH. destruct x as [ev|[| |er]|m| |]; reflexivity.
Qed.

Lemma fold_write_to_state (a : nat) (c : chunk) (ds : list Dest) (s : Stream) :
  _readableState (fold_left (write_to write a c) ds s) = _readableState s.
Proof.
  revert s. induction ds as [|d rest IH]; intros s; simpl; [reflexivity|].
  rewrite IH. unfold write_to. destruct (write (trace s) d c); reflexivity.
Qed.

(** With more fuel than units buffered the loop of [flow] returns; [flow]
    gives it one more than that. *)
Lemma flow_loop_returns (a : nat) (o : PipeOpts) (fuel : nat) :
  forall s, (Z.to_nat (length (_readableState s)) < fuel)%nat ->
    exists b r, flow_loop write fuel a o s = Some (b, r).
Proof.
  induction fuel as [|fuel IH]; intros s Hf; [lia|]. simpl.
  destruct (pipes (_readableState s)); [eauto|].
  unfold src_read.
  destruct (read Source (chunkSize o) (_readableState s)) as [[ret st] e] eqn:Er.
  destruct ret as [c|]; [|eauto].
  apply read_some_decreases in Er.
  match goal with |- context [0 <? needDrain_of a ?x] => set (s2 := x) end.
  destruct (0 <? needDrain_of a s2); [eauto|].
  apply IH. unfold s2. simpl.
  rewrite fold_write_to_state. simpl. rewrite fold_deferred_state. simpl. lia.
Qed.

Lemma flow_returns (o : PipeOpts) (s : Stream) :
  exists b r,
    flow_loop write (S (Z.to_nat (length (_readableState s))))
      (List.length (needDrain s)) o
      (set_needDrain (needDrain s ++ [(0, o)]) s) = Some (b, r).
Proof. apply flow_loop_returns. simpl. lia. Qed.

End Termination.

(** ** One call of [pipe]: the loop waits for the drain *)

Lemma respects_blocked_snoc (t : list Obs) (o : Obs) :
  forall w,
    respects_backpressure w (t ++ [o]) =
      respects_backpressure w t &&
      match o, blocked w t with
      | FlowRead _, _ :: _ => false
      | _, _ => true
      end /\
    blocked w (t ++ [o]) =
      match o with
      | Wrote d _ false => d :: blocked w t
      | Drained d => filter (fun x => negb (Dest_eqb x d)) (blocked w t)
      | _ => blocked w t
      end.
Proof.
  induction t as [|x rest IH]; intros w.
  - destruct o as [ret|ret|d c [|]|c|d|d|d|d|ev|e]; simpl; split; reflexivity.
  - destruct x as [ret|ret|d c [|]|c|d|d|d|d|ev|e]; simpl; try apply IH.
    destruct w; [apply IH|].
    destruct o as [ret'|ret'|d' c' [|]|c'|d'|d'|d'|d'|ev'|e']; simpl; split;
      try reflexivity; apply IH.
Qed.

Lemma respects_neutral (t : list Obs) (o : Obs) :
  neutral o = true ->
  respects_backpressure [] (t ++ [o]) = respects_backpressure [] t /\
  blocked [] (t ++ [o]) = blocked [] t.
Proof.
  intros Hn. destruct (respects_blocked_snoc t o []) as [Hr Hb].
  rewrite Hr, Hb.
  destruct o as [ret|ret|d c [|]|c|d|d|d|d|ev|e]; try discriminate;
    split; try reflexivity; apply andb_true_r.
Qed.

Lemma fold_deferred_flows (e : list effect) :
  forall s, same_flows s (fold_left (fun s e => deferred e s) e s).
Proof.
  induction e as [|x rest IH]; intros s; simpl; [repeat split|].
  destruct (IH (deferred x s)) as (A & B & C & D & E).
  unfold same_flows. rewrite A, B, C, D, E.
  destruct x as [ev|[| |er]|m| |]; repeat split.
  unfold flow_tasks. simpl. rewrite filter_app, length_app. simpl. lia.
Qed.

Lemma src_read_flows (n : option Z) (s : Stream) :
  same_flows s (snd (src_read n s)).
Proof.
  unfold src_read.
  destruct (read Source n (_readableState s)) as [[ret st] e]. simpl.
  destruct (fold_deferred_flows e (set_state st s)) as (A & B & C & D & E).
  unfold same_flows. rewrite A, B, C, D, E. repeat split.
Qed.

Lemma nth_error_update {A : Type} (f : A -> A) (l : list A) :
  forall i x, nth_error l i = Some x -> nth_error (update i f l) i = Some (f x).
Proof.
  induction l as [|y rest IH]; intros [|i] x H; simpl in *; try discriminate.
  - inversion H. reflexivity.
  - apply IH. exact H.
Qed.

Lemma needDrain_of_add (a : nat) (d : Z) (s : Stream) :
  (a < List.length (needDrain s))%nat ->
  needDrain_of a (add_needDrain a d s) = needDrain_of a s + d.
Proof.
  intros Ha. unfold needDrain_of, add_needDrain. simpl.
  destruct (nth_error (needDrain s) a) as [[k o]|] eqn:E.
  - rewrite (nth_error_update _ _ _ _ E). reflexivity.
  - apply nth_error_None in E. lia.
Qed.

Section OnePipe.

Variable write : list Obs -> Dest -> chunk -> bool.
Variable dest : Dest.

Lemma flow_loop_piped_once (a : nat) (o : PipeOpts) (fuel : nat) :
  forall s b r,
    quiet dest a s -> flow_loop write fuel a o s = Some (b, r) ->
    respects_backpressure [] (trace r) = true /\
    readable_listeners r = readable_listeners s /\
    flow_tasks r = flow_tasks s /\
    pipes (_readableState r) = pipes (_readableState s) /\
    if b
    then drain_listeners r = [(dest, a)] /\ needDrain_of a r = 1 /\
         blocked [] (trace r) = [dest]
    else drain_listeners r = [] /\ blocked [] (trace r) = [].
Proof.
  induction fuel as [|fuel IH]; intros s b r Hq H; simpl in H; [discriminate|].
  destruct Hq as (Hd & Hn & Ha & Hb & Hr & Hp).
  destruct (pipes (_readableState s)) as [|d0 ds] eqn:Ep.
  { inversion H; subst. rewrite Ep. repeat split; assumption. }
  destruct Hp as [Hp|Hp]; [|discriminate]. inversion Hp; subst d0 ds. clear Hp.
  pose proof (src_read_flows (chunkSize o) s) as (Ft & Fd & Fr & Fn & Ff).
  pose proof (src_read_same (chunkSize o) s) as (_ & _ & Fp).
  destruct (src_read (chunkSize o) s) as [ret s1]. simpl in Ft, Fd, Fr, Fn, Ff, Fp.
  rewrite <- Ft in Hb, Hr.
  destruct (respects_blocked_snoc (trace s1) (FlowRead ret) []) as [Rr Rb].
  rewrite Hb, Hr in Rr. rewrite Hb in Rb. simpl in Rr.
  destruct ret as [c|].
  - simpl in H. rewrite Fp, Ep in H. simpl in H.
    unfold write_to in H. simpl in H.
    destruct (write (trace s1 ++ [FlowRead (Some c)]) dest c) eqn:Ew.
    + (* written *)
      set (s3 := log (Data c) _) in H.
      assert (Hq3 : quiet dest a s3).
      { unfold quiet, s3. simpl.
        destruct (respects_neutral ((trace s1 ++ [FlowRead (Some c)]) ++ [Wrote dest c true])
                    (Data c) eq_refl) as [R1 B1].
        destruct (respects_neutral (trace s1 ++ [FlowRead (Some c)])
                    (Wrote dest c true) eq_refl) as [R2 B2].
        rewrite R1, B1, R2, B2, Rr, Rb.
        unfold needDrain_of in *. simpl. rewrite Fn, Fd, Fp, Ep.
        repeat split; try assumption. left. reflexivity. }
      assert (E0 : (0 <? needDrain_of a s3) = false).
      { destruct Hq3 as (_ & Hn3 & _). rewrite Hn3. reflexivity. }
      rewrite E0 in H.
      destruct (IH s3 b r Hq3 H) as (A & B & C & D & E).
      repeat split; try assumption.
      * rewrite B. unfold s3. simpl. exact Fr.
      * rewrite C. unfold s3, flow_tasks in *. simpl. exact Ff.
      * rewrite D. unfold s3. simpl. rewrite Fp, Ep. reflexivity.
    + (* refused *)
      set (s3 := log (Data c) _) in H.
      assert (Hn3 : needDrain_of a s3 = 1).
      { unfold s3.
        change (needDrain_of a (add_needDrain a 1
                  (log (Wrote dest c false) (log (FlowRead (Some c)) s1))) = 1).
        rewrite needDrain_of_add.
        - unfold needDrain_of in *. simpl. rewrite Fn. lia.
        - simpl. rewrite Fn. exact Ha. }
      rewrite Hn3 in H. simpl in H. inversion H; subst b r.
      destruct (respects_neutral ((trace s1 ++ [FlowRead (Some c)]) ++ [Wrote dest c false])
                  (Data c) eq_refl) as [R1 B1].
      destruct (respects_blocked_snoc (trace s1 ++ [FlowRead (Some c)])
                  (Wrote dest c false) []) as [R2 B2].
      unfold s3. simpl. rewrite R1, B1, R2, B2, Rr, Rb, Fd, Hd, Fp, Ep.
      repeat split; try assumption.
  - inversion H; subst b r. simpl. rewrite Rr, Rb, Fd, Fp, Ep.
    repeat split; try assumption.
Qed.

Lemma piped_once_same (s s' : Stream) :
  same_flows s s' -> pipes (_readableState s') = pipes (_readableState s) ->
  piped_once dest s -> piped_once dest s'.
Proof.
  intros (A & B & C & D & E) P (Hr & Hp & Hph).
  unfold piped_once. rewrite A, P. repeat split; try assumption.
  assert (Hn : forall a, needDrain_of a s' = needDrain_of a s)
    by (intros a; unfold needDrain_of; rewrite D; reflexivity).
  destruct Hph as [H1 H2 H3 H4|o H1 H2 H3 H4|a H1 H2 H3 H4 H5|H1 H2 H3].
  - apply Scheduled; congruence.
  - apply (Listening dest s' o); congruence.
  - apply (Draining dest s' a); congruence.
  - apply Stopped; congruence.
Qed.

Lemma piped_once_log (o : Obs) (s : Stream) :
  neutral o = true -> piped_once dest s -> piped_once dest (log o s).
Proof.
  intros Hn (Hr & Hp & Hph).
  destruct (respects_neutral (trace s) o Hn) as [R B].
  unfold piped_once. simpl. rewrite R. repeat split; try assumption.
  destruct Hph as [H1 H2 H3 H4|o' H1 H2 H3 H4|a H1 H2 H3 H4 H5|H1 H2 H3].
  - apply Scheduled; simpl; try assumption. rewrite B. exact H4.
  - apply (Listening dest _ o'); simpl; try assumption. rewrite B. exact H4.
  - apply (Draining dest _ a); simpl; try assumption. rewrite B. exact H5.
  - apply Stopped; assumption.
Qed.

Lemma flow_piped_once (o : PipeOpts) (s : Stream) :
  flow_tasks s = 0%nat -> readable_listeners s = [] -> drain_listeners s = [] ->
  blocked [] (trace s) = [] -> respects_backpressure [] (trace s) = true ->
  (pipes (_readableState s) = [dest] \/ pipes (_readableState s) = []) ->
  piped_once dest (fst (flow write o s)).
Proof.
  intros Hf Hl Hd Hb Hr Hp. unfold flow.
  set (a := List.length (needDrain s)).
  set (s0 := set_needDrain (needDrain s ++ [(0, o)]) s).
  assert (Hq : quiet dest a s0).
  { unfold quiet, s0, needDrain_of, a. simpl.
    rewrite nth_error_app2, Nat.sub_diag, length_app by lia. simpl.
    repeat split; try assumption. lia. }
  destruct (flow_loop write _ a o s0) as [[b r]|] eqn:E.
  - destruct (flow_loop_piped_once a o _ s0 b r Hq E) as (R & L & F & P & H).
    change (readable_listeners s0) with (readable_listeners s) in L.
    change (flow_tasks s0) with (flow_tasks s) in F.
    change (pipes (_readableState s0)) with (pipes (_readableState s)) in P.
    destruct b; simpl.
    + destruct H as (H1 & H2 & H3).
      repeat split; [exact R | rewrite P; exact Hp |].
      apply (Draining dest r a); try assumption; congruence.
    + destruct H as (H1 & H2).
      destruct (pipes (_readableState r)) eqn:Ep; simpl.
      * apply piped_once_log; [reflexivity|].
        repeat split; [exact R | right; exact Ep |].
        apply Stopped; unfold flow_tasks in *; simpl; congruence.
      * repeat split; [exact R | simpl; rewrite Ep, P; exact Hp |].
        apply (Listening dest _ o); unfold flow_tasks in *; simpl; try congruence.
        rewrite L, Hl. reflexivity.
  - simpl. repeat split; try assumption. apply Stopped; assumption.
Qed.

Lemma emit_readable_piped_once (s : Stream) :
  piped_once dest s -> piped_once dest (fst (emit_readable write s)).
Proof.
  intros H. unfold emit_readable.
  pose proof (piped_once_log (Emitted Readable) s eq_refl H) as H'.
  change (readable_listeners s) with (readable_listeners (log (Emitted Readable) s)).
  revert H'. generalize (log (Emitted Readable) s). clear H s.
  intros s1 (Hr & Hp & Hph).
  destruct Hph as [H1 H2 H3 H4|o H1 H2 H3 H4|a H1 H2 H3 H4 H5|H1 H2 H3].
  - rewrite H2. simpl. repeat split; try assumption. apply Scheduled; assumption.
  - rewrite H2. simpl. rewrite H2.
    pose proof (flow_piped_once o (set_readable_listeners [] s1)) as Hfl.
    simpl in Hfl. specialize (Hfl H1 eq_refl H3 H4 Hr Hp).
    destruct (flow write o (set_readable_listeners [] s1)) as [s2 threw].
    simpl in Hfl. destruct threw; exact Hfl.
  - rewrite H2. simpl. repeat split; try assumption.
    apply (Draining dest s1 a); assumption.
  - rewrite H2. simpl. repeat split; try assumption. apply Stopped; assumption.
Qed.

Lemma deferred_piped_once (e : effect) (s : Stream) :
  piped_once dest s -> piped_once dest (deferred e s).
Proof.
  apply piped_once_same.
  - apply (fold_deferred_flows [e] s).
  - apply (fold_deferred_same [e] s).
Qed.

Lemma emit_end_piped_once (s : Stream) :
  piped_once dest s -> piped_once dest (emit_end s).
Proof.
  intros H. unfold emit_end.
  assert (H0 : piped_once dest (set_end_listeners [] (log (Emitted End_) s))).
  { apply (piped_once_same (log (Emitted End_) s)); [repeat split | reflexivity |].
    apply piped_once_log; [reflexivity | exact H]. }
  revert H0. generalize (set_end_listeners [] (log (Emitted End_) s)).
  induction (end_listeners s) as [|l rest IH]; intros s0 H0; simpl; [exact H0|].
  apply IH. apply piped_once_log; [reflexivity | exact H0].
Qed.

Lemma perform_piped_once (s : Stream) (e : effect) :
  piped_once dest s -> piped_once dest (perform write s e).
Proof.
  intros H. destruct e as [[| |er]|ev|m| |]; simpl.
  - apply emit_readable_piped_once, H.
  - apply emit_end_piped_once, H.
  - apply piped_once_log; [reflexivity | exact H].
  - apply (deferred_piped_once (NextTick ev)), H.
  - apply (deferred_piped_once (Call_read m)), H.
  - exact H.
  - exact H.
Qed.

Lemma emit_unpipe_piped_once (s : Stream) (d : Dest) :
  piped_once dest s -> piped_once dest (emit_unpipe s d).
Proof.
  intros H. unfold emit_unpipe.
  apply (piped_once_same (log (Unpiped d) s)); [repeat split | reflexivity |].
  apply piped_once_log; [reflexivity | exact H].
Qed.

Lemma set_pipes_piped_once (ds : list Dest) (s : Stream) :
  ds = [dest] \/ ds = [] ->
  piped_once dest s ->
  piped_once dest (set_state (set_pipes ds (_readableState s)) s).
Proof.
  intros Hds (Hr & Hp & Hph). repeat split; [exact Hr | exact Hds |].
  destruct Hph as [H1 H2 H3 H4|o H1 H2 H3 H4|a H1 H2 H3 H4 H5|H1 H2 H3].
  - apply Scheduled; assumption.
  - apply (Listening dest _ o); assumption.
  - apply (Draining dest _ a); assumption.
  - apply Stopped; assumption.
Qed.

Lemma unpipe_piped_once (d : option Dest) (s : Stream) :
  piped_once dest s -> piped_once dest (unpipe d s).
Proof.
  intros H. pose proof H as (_ & Hp & _). destruct d as [d|]; simpl.
  - destruct (existsb (Dest_eqb d) (pipes (_readableState s))); [|exact H].
    apply (set_pipes_piped_once _ (emit_unpipe s d));
      [|apply emit_unpipe_piped_once, H].
    simpl. destruct Hp as [-> | ->]; simpl; [|right; reflexivity].
    destruct (Dest_eqb d dest); [right | left]; reflexivity.
  - apply (set_pipes_piped_once _ (fold_left emit_unpipe (pipes (_readableState s)) s));
      [right; reflexivity|].
    destruct Hp as [-> | ->]; simpl; [apply emit_unpipe_piped_once|]; exact H.
Qed.

Lemma emit_drain_piped_once (d : Dest) (s : Stream) :
  piped_once dest s -> piped_once dest (fst (emit_drain write d s)).
Proof.
  intros (Hr & Hp & Hph). unfold emit_drain.
  destruct (respects_blocked_snoc (trace s) (Drained d) []) as [R B].
  rewrite Hr in R. simpl in R.
  destruct Hph as [H1 H2 H3 H4|o H1 H2 H3 H4|a H1 H2 H3 H4 H5|H1 H2 H3].
  - rewrite H3. simpl. rewrite H4 in B.
    repeat split; try assumption. apply Scheduled; assumption.
  - rewrite H3. simpl. rewrite H4 in B.
    repeat split; try assumption. apply (Listening dest _ o); assumption.
  - rewrite H3, H5 in *. simpl in *.
    destruct (Dest_eqb dest d) eqn:Ed; simpl in *.
    + (* the destination drains: ondrain starts flow again *)
      assert (Edd : Dest_eqb dest dest = true) by (apply Dest_eqb_eq; reflexivity).
      rewrite H3. unfold listener_eqb. simpl. rewrite Edd, Nat.eqb_refl. simpl.
      unfold ondrain.
      set (s1 := add_needDrain a (-1) _).
      assert (Hn1 : needDrain_of a s1 = 0).
      { unfold s1. rewrite needDrain_of_add.
        - unfold needDrain_of in *. simpl. lia.
        - simpl. unfold needDrain_of in H4.
          destruct (nth_error (needDrain s) a) eqn:E; [|discriminate].
          apply nth_error_Some. congruence. }
      rewrite Hn1. simpl.
      pose proof (flow_piped_once (pipeOpts_of a s1) s1) as Hfl.
      simpl in Hfl. specialize (Hfl H1 H2 eq_refl B R Hp).
      destruct (flow write (pipeOpts_of a s1) s1) as [s2 threw].
      simpl in Hfl. destruct threw; exact Hfl.
    + repeat split; try assumption.
      apply (Draining dest _ a); assumption.
  - rewrite H3. simpl. repeat split; try assumption. apply Stopped; assumption.
Qed.

Lemma step_piped_once (s : Stream) (ev : Event) :
  is_pipe ev = false -> piped_once dest s -> piped_once dest (step write s ev).
Proof.
  intros Hev H. destruct ev as [d o|d|n| |er c|d]; simpl; try discriminate.
  - apply unpipe_piped_once, H.
  - pose proof (src_read_flows n s) as Hf.
    pose proof (src_read_same n s) as (_ & _ & Hp).
    destruct (src_read n s) as [ret s1]. simpl in Hf, Hp.
    apply piped_once_log; [reflexivity|].
    apply (piped_once_same s); assumption.
  - destruct (ticks s) as [|[o|] rest] eqn:Et; [exact H| |].
    + destruct H as (Hr & Hp & Hph).
      assert (Hft : flow_tasks s = S (flow_tasks (set_ticks rest s))).
      { unfold flow_tasks. rewrite Et. reflexivity. }
      destruct Hph as [H1 H2 H3 H4|o' H1 H2 H3 H4|a H1 H2 H3 H4 H5|H1 H2 H3];
        try (rewrite Hft in H1; discriminate).
      apply flow_piped_once; try assumption. lia.
    + apply emit_end_piped_once.
      destruct H as (Hr & Hp & Hph). repeat split; try assumption.
      assert (Hft : flow_tasks (set_ticks rest s) = flow_tasks s).
      { unfold flow_tasks. simpl. rewrite Et. reflexivity. }
      destruct Hph as [H1 H2 H3 H4|o' H1 H2 H3 H4|a H1 H2 H3 H4 H5|H1 H2 H3].
      * apply Scheduled; try assumption. congruence.
      * apply (Listening dest _ o'); try assumption. congruence.
      * apply (Draining dest _ a); try assumption. congruence.
      * apply Stopped; try assumption. congruence.
  - destruct (outstanding s) as [|k]; [exact H|].
    pose proof (onread_pipes Source er c (_readableState s)) as Hp.
    destruct (onread Source er c (_readableState s)) as [st e]. simpl in Hp.
    assert (H0 : piped_once dest (set_state st (set_outstanding k s))).
    { apply (piped_once_same s); [repeat split | exact Hp | exact H]. }
    revert H0. generalize (set_state st (set_outstanding k s)).
    induction e as [|x rest IH]; intros s0 H0; simpl; [exact H0|].
    apply IH, perform_piped_once, H0.
  - apply emit_drain_piped_once, H.
Qed.

(** X15.  A source on which [pipe] is called once: whatever the destination
    answers and whenever it drains, whatever the producer answers, [flow]
    reads nothing from the source between a refused write and the ['drain']
    of the destination. *)
Lemma piped_once_respects_backpressure (options : option Options)
  (pipeOpts : option PipeOpts) (evs : list Event) :
  forallb (fun ev => negb (is_pipe ev)) evs = true ->
  respects_backpressure []
    (trace (run write evs (pipe dest pipeOpts (new_Readable options)))) = true.
Proof.
  intros Hevs.
  assert (H0 : piped_once dest (pipe dest pipeOpts (new_Readable options))).
  { unfold pipe. simpl.
    destruct (_ && _ && _); repeat split; try (left; reflexivity);
      apply Scheduled; reflexivity. }
  revert H0. generalize (pipe dest pipeOpts (new_Readable options)).
  induction evs as [|ev rest IH]; intros s H; simpl in *.
  - apply H.
  - apply andb_true_iff in Hevs. destruct Hevs as [Hev Hrest].
    apply IH; [exact Hrest|]. apply step_piped_once; [|exact H].
    apply negb_true_iff. exact Hev.
Qed.

End OnePipe.

(** ** Every chunk goes to every destination, in order *)

Section FanOut.

Variable write : list Obs -> Dest -> chunk -> bool.

Lemma fold_write_to_trace (a : nat) (c : chunk) (ds : list Dest) :
  forall s, exists answers,
    List.length answers = List.length ds /\
    trace (fold_left (write_to write a c) ds s) =
      trace s ++ map (fun x => Wrote (fst x) c (snd x)) (combine ds answers).
Proof.
  induction ds as [|d rest IH]; intros s; simpl.
  - exists []. split; [reflexivity | symmetry; apply app_nil_r].
  - destruct (IH (write_to write a c s d)) as (answers & Hl & Ht).
    exists (write (trace s) d c :: answers). split; [simpl; congruence|].
    rewrite Ht. unfold write_to.
    destruct (write (trace s) d c); simpl; rewrite <- app_assoc; reflexivity.
Qed.

(** Whatever the destinations answer, a call of [flow] writes each chunk it
    reads to every destination of [state.pipes], in their order, before it
    reads the next. *)
Lemma flow_loop_fans_out (a : nat) (o : PipeOpts) (fuel : nat) :
  forall s b r,
    flow_loop write fuel a o s = Some (b, r) ->
    exists t, trace r = trace s ++ t /\ turns (pipes (_readableState s)) t.
Proof.
  induction fuel as [|fuel IH]; intros s b r H; simpl in H; [discriminate|].
  destruct (pipes (_readableState s)) as [|d0 ds] eqn:Ep.
  { inversion H; subst. exists []. split; [symmetry; apply app_nil_r | constructor]. }
  pose proof (src_read_flows (chunkSize o) s) as (Ft & _).
  pose proof (src_read_same (chunkSize o) s) as (_ & _ & Fp).
  destruct (src_read (chunkSize o) s) as [ret s1]. simpl in Ft, Fp.
  destruct ret as [c|].
  - destruct (fold_write_to_trace a c (pipes (_readableState s1))
                (log (FlowRead (Some c)) s1)) as (answers & Hl & Ht).
    assert (Hs : _readableState
                   (fold_left (write_to write a c) (pipes (_readableState s1))
                      (log (FlowRead (Some c)) s1)) = _readableState s1)
      by (rewrite fold_write_to_state; reflexivity).
    revert H Ht Hs.
    generalize (fold_left (write_to write a c) (pipes (_readableState s1))
                  (log (FlowRead (Some c)) s1)).
    intros s2 H Ht Hs.
    rewrite Fp, Ep in Hl. rewrite Fp, Ep in Ht. simpl in Ht. rewrite Ft in Ht.
    assert (Hturn : turn (d0 :: ds) c
              (map (fun x => Wrote (fst x) c (snd x)) (combine (d0 :: ds) answers)
               ++ [Data c])) by (constructor; exact Hl).
    assert (Ht3 : trace (log (Data c) s2) =
              trace s ++ FlowRead (Some c)
                :: map (fun x => Wrote (fst x) c (snd x)) (combine (d0 :: ds) answers)
                ++ [Data c]).
    { change (trace (log (Data c) s2)) with (trace s2 ++ [Data c]).
      rewrite Ht, <- !app_assoc. reflexivity. }
    destruct (0 <? needDrain_of a (log (Data c) s2)).
    + inversion H; subst b r. rewrite Ht3.
      exists (FlowRead (Some c)
              :: (map (fun x => Wrote (fst x) c (snd x)) (combine (d0 :: ds) answers)
                  ++ [Data c]) ++ []).
      split; [|apply turns_chunk; [exact Hturn | constructor]].
      rewrite app_nil_r. reflexivity.
    + destruct (IH _ _ _ H) as (t' & Ht' & Hts).
      change (_readableState (log (Data c) s2)) with (_readableState s2) in Hts.
      rewrite Hs, Fp, Ep in Hts. rewrite Ht3 in Ht'.
      exists (FlowRead (Some c)
              :: (map (fun x => Wrote (fst x) c (snd x)) (combine (d0 :: ds) answers)
                  ++ [Data c]) ++ t').
      split; [|apply turns_chunk; assumption].
      rewrite Ht', <- app_assoc. reflexivity.
  - inversion H; subst b r. simpl. rewrite Ft.
    exists [FlowRead None]. split; [reflexivity | constructor].
Qed.

End FanOut.

(** ** Invariants of the state carry over to piped streams *)

Section StateInvariant.

Variable write : list Obs -> Dest -> chunk -> bool.

(** A property of [ReadableState] that [read] and [onread] keep, and that
    does not look at [pipes] or [flowing]. *)
Variable P : ReadableState -> Prop.
Hypothesis P_read : forall n st, P st -> P (snd (fst (read Source n st))).
Hypothesis P_onread : forall er c st, P st -> P (fst (onread Source er c st)).
Hypothesis P_pipes : forall ds st, P st -> P (set_pipes ds st).
Hypothesis P_flowing : forall st, P st -> P (set_flowing false st).

Lemma src_read_keeps (n : option Z) (s : Stream) :
  P (_readableState s) -> P (_readableState (snd (src_read n s))).
Proof.
  intros H. unfold src_read.
  pose proof (P_read n _ H) as Hr.
  destruct (read Source n (_readableState s)) as [[ret st] e]. simpl in *.
  rewrite fold_deferred_state. exact Hr.
Qed.

Lemma flow_loop_keeps (a : nat) (o : PipeOpts) (fuel : nat) :
  forall s b r, P (_readableState s) ->
    flow_loop write fuel a o s = Some (b, r) -> P (_readableState r).
Proof.
  induction fuel as [|fuel IH]; intros s b r Hs H; simpl in H; [discriminate|].
  destruct (pipes (_readableState s)); [inversion H; subst; exact Hs|].
  pose proof (src_read_keeps (chunkSize o) s Hs) as H1.
  destruct (src_read (chunkSize o) s) as [ret s1]. simpl in H1.
  destruct ret as [c|]; [|inversion H; subst; exact H1].
  assert (H3 : P (_readableState
                    (log (Data c)
                       (fold_left (write_to write a c) (pipes (_readableState s1))
                          (log (FlowRead (Some c)) s1))))).
  { simpl. rewrite fold_write_to_state. exact H1. }
  destruct (0 <? needDrain_of a _); [inversion H; subst; exact H3|].
  apply (IH _ _ _ H3 H).
Qed.

Lemma flow_keeps (o : PipeOpts) (s : Stream) :
  P (_readableState s) -> P (_readableState (fst (flow write o s))).
Proof.
  intros Hs. unfold flow.
  destruct (flow_loop write _ _ o _) as [[b r]|] eqn:E; [|exact Hs].
  apply flow_loop_keeps in E; [|exact Hs].
  destruct b; [exact E|].
  destruct (pipes (_readableState r)); simpl; [apply P_flowing|]; exact E.
Qed.

Lemma run_readable_keeps (k : nat) :
  forall s, P (_readableState s) -> P (_readableState (fst (run_readable write k s))).
Proof.
  induction k as [|k IH]; intros s Hs; simpl; [exact Hs|].
  destruct (readable_listeners s) as [|o rest]; [exact Hs|].
  pose proof (flow_keeps o (set_readable_listeners rest s) Hs) as Hf.
  destruct (flow write o (set_readable_listeners rest s)) as [s1 threw]. simpl in Hf.
  destruct threw; [exact Hf | apply IH, Hf].
Qed.

Lemma run_drain_keeps (ls : list (Dest * nat)) :
  forall s, P (_readableState s) -> P (_readableState (fst (run_drain write ls s))).
Proof.
  induction ls as [|l rest IH]; intros s Hs; simpl; [exact Hs|].
  unfold ondrain.
  match goal with |- context [needDrain_of (snd l) ?x =? 0] => set (s1 := x) end.
  assert (H1 : P (_readableState s1)) by exact Hs.
  destruct (needDrain_of (snd l) s1 =? 0).
  - pose proof (flow_keeps (pipeOpts_of (snd l) s1) s1 H1) as Hf.
    destruct (flow write (pipeOpts_of (snd l) s1) s1) as [s2 threw]. simpl in Hf.
    destruct threw; [exact Hf | apply IH, Hf].
  - apply IH, H1.
Qed.

Lemma emit_end_state (s : Stream) : _readableState (emit_end s) = _readableState s.
Proof.
  unfold emit_end.
  assert (H : forall ls s0,
            _readableState
              (fold_left (fun s (l : nat * Dest) => log (Ended (snd l)) s) ls s0)
            = _readableState s0);
    [|rewrite H; reflexivity].
  induction ls as [|l rest IH]; intros s0; simpl; [reflexivity|].
  rewrite IH. reflexivity.
Qed.

Lemma fold_emit_unpipe_state (ds : list Dest) :
  forall s, _readableState (fold_left emit_unpipe ds s) = _readableState s.
Proof.
  induction ds as [|d rest IH]; intros s; simpl; [reflexivity|].
  rewrite IH. reflexivity.
Qed.

Lemma perform_keeps (s : Stream) (e : effect) :
  P (_readableState s) -> P (_readableState (perform write s e)).
Proof.
  intros Hs. destruct e as [[| |er]|[| |er]|m| |]; simpl; try exact Hs.
  - apply (run_readable_keeps _ (log (Emitted Readable) s)), Hs.
  - rewrite emit_end_state. exact Hs.
Qed.

Lemma step_keeps (s : Stream) (ev : Event) :
  P (_readableState s) -> P (_readableState (step write s ev)).
Proof.
  intros Hs. destruct ev as [d o|d|n| |er c|d]; simpl.
  - unfold pipe.
    destruct (_ && _ && _); destruct (negb (flowing _)); simpl; apply P_pipes, Hs.
  - destruct d as [d|]; simpl.
    + destruct (existsb _ _); simpl; [apply P_pipes|]; exact Hs.
    + rewrite fold_emit_unpipe_state. apply P_pipes, Hs.
  - pose proof (src_read_keeps n s Hs) as Hr.
    destruct (src_read n s) as [ret s1]. exact Hr.
  - destruct (ticks s) as [|[o|] rest]; [exact Hs| |].
    + apply (flow_keeps o (set_ticks rest s)), Hs.
    + rewrite emit_end_state. exact Hs.
  - destruct (outstanding s) as [|k]; [exact Hs|].
    pose proof (P_onread er c _ Hs) as Ho.
    destruct (onread Source er c (_readableState s)) as [st e]. simpl in Ho.
    assert (H0 : P (_readableState (set_state st (set_outstanding k s)))) by exact Ho.
    revert H0. generalize (set_state st (set_outstanding k s)).
    induction e as [|x rest IH]; intros s0 H0; simpl; [exact H0|].
    apply IH, perform_keeps, H0.
  - apply (run_drain_keeps _ (log (Drained d) s)), Hs.
Qed.

Lemma run_keeps (evs : list Event) :
  forall s, P (_readableState s) -> P (_readableState (run write evs s)).
Proof.
  induction evs as [|ev rest IH]; intros s Hs; simpl; [exact Hs|].
  apply IH, step_keeps, Hs.
Qed.

End StateInvariant.

(** X26.  The recorded size is the total of the buffer in every piped
    stream too, whatever [flow] reads. *)
Lemma piped_stream_consistent (write : list Obs -> Dest -> chunk -> bool)
  (options : option Options) (evs : list Event) :
  consistent (_readableState (run write evs (new_Readable options))).
Proof.
  apply (run_keeps write consistent).
  - intros n st. apply read_consistent.
  - intros er c st. apply onread_consistent.
  - intros ds st H. exact H.
  - intros st H. exact H.
  - apply new_ReadableState_consistent.
Qed.

(** * Further properties *)

(** ** The constructor *)

Lemma to_int32_range (x : Z) : - 2 ^ 31 <= to_int32 x < 2 ^ 31.
Proof.
  unfold to_int32.
  pose proof (Z.mod_pos_bound (x + 2 ^ 31) (2 ^ 32) ltac:(lia)). lia.
Qed.

Lemma to_int32_id (x : Z) : - 2 ^ 31 <= x < 2 ^ 31 -> to_int32 x = x.
Proof.
  intros H. unfold to_int32. rewrite Z.mod_small by lia. lia.
Qed.

(** X1.  [new ReadableState(options)]: [bufferSize] is always a signed
    32-bit integer and [lowWaterMark] is never 0; a [bufferSize] option that
    is a non-zero signed 32-bit integer is kept, a missing or zero one gives
    16384, and a missing or zero [lowWaterMark] gives 1024; the stream starts
    empty, not ended, with no request in flight and nobody waiting. *)
Theorem new_ReadableState_sizes (options : option Options) :
  let st := new_ReadableState options in
  (- 2 ^ 31 <= bufferSize st < 2 ^ 31 /\ lowWaterMark st <> 0) /\
  (forall o b, options = Some o -> opt_bufferSize o = Some b -> b <> 0 ->
     - 2 ^ 31 <= b < 2 ^ 31 -> bufferSize st = b) /\
  (forall o, options = Some o ->
     opt_bufferSize o = None \/ opt_bufferSize o = Some 0 -> bufferSize st = 16384) /\
  (forall o, options = Some o ->
     opt_lowWaterMark o = None \/ opt_lowWaterMark o = Some 0 -> lowWaterMark st = 1024) /\
  (options = None -> bufferSize st = 16384 /\ lowWaterMark st = 1024) /\
  buffer st = [] /\ length st = 0 /\ ended st = false /\ reading st = false /\
  needReadable st = false /\ flowing st = false /\ pipes st = [].
Proof.
  cbv zeta.
  assert (Hw : lowWaterMark (new_ReadableState options) <> 0).
  { destruct options as [[bs [w|]]|]; simpl; try discriminate.
    destruct (w =? 0) eqn:E; [discriminate | apply Z.eqb_neq; exact E]. }
  split; [split; [apply to_int32_range | exact Hw]|].
  split.
  { intros o b -> Hb Hz Hr. simpl. rewrite Hb. simpl.
    apply Z.eqb_neq in Hz. rewrite Hz. apply to_int32_id, Hr. }
  split; [intros o -> [H|H]; simpl; rewrite H; reflexivity|].
  split; [intros o -> [H|H]; simpl; rewrite H; reflexivity|].
  split; [intros ->; split; reflexivity|].
  repeat split.
Qed.

(** ** What a read hands out *)

Lemma app_split_at {A : Type} (l1 l2 l : list A) (n : nat) :
  l1 ++ l2 = l -> List.length l1 = n -> l1 = firstn n l /\ l2 = skipn n l.
Proof.
  intros <- <-. split.
  - rewrite firstn_app, Nat.sub_diag, firstn_all, firstn_O, app_nil_r. reflexivity.
  - rewrite skipn_app, Nat.sub_diag, skipn_all. reflexivity.
Qed.

(** The amount [m] a [read] takes from the front of the queue, on a stream
    that is not both ended and empty. *)
Lemma read_amount (p : Producer) (n : option Z) (state : ReadableState)
  (ret : option chunk) (state' : ReadableState) (e : list effect) :
  consistent state -> (length state =? 0) && ended state = false ->
  read p n state = (ret, state', e) ->
  let m := fst (granted (requested n state) state) in
  0 <= m <= length state /\
  ret = (if 0 <? m then Some (firstn (Z.to_nat m) (List.concat (buffer state))) else None) /\
  List.concat (buffer state') = skipn (Z.to_nat m) (List.concat (buffer state)) /\
  length state' = length state - m.
Proof.
  intros Hc E0 Hr. cbv zeta. unfold read in Hr. rewrite E0 in Hr.
  assert (HL : 0 <= length state) by (rewrite Hc; apply total_nonneg).
  pose proof (granted_bounds (requested n state) state HL (requested_nonneg n state HL))
    as (Hm & Hb & Hl).
  destruct (granted (requested n state) state) as [m st1]. simpl in Hm, Hb, Hl |- *.
  split; [exact Hm|].
  unfold take in Hr. destruct (0 <? m) eqn:Em.
  - pose proof (take_front_concat (buffer st1) (Z.to_nat m)) as Hcat.
    assert (Hlen : List.length (fst (take_front (Z.to_nat m) (buffer st1))) = Z.to_nat m).
    { apply take_front_length. rewrite Hb, <- Hc. lia. }
    unfold fromList in Hr.
    destruct (take_front (Z.to_nat m) (buffer st1)) as [r q]. simpl in Hcat, Hlen.
    rewrite Hb in Hcat.
    destruct (app_split_at _ _ _ _ Hcat Hlen) as [Hr1 Hq].
    set (st3 := set_length _ _) in Hr.
    assert (H3 : buffer st3 = q /\ length st3 = length state - m).
    { unfold st3. destruct (no_data (Some r)); simpl; split; try reflexivity; lia. }
    destruct H3 as [H3b H3l].
    destruct (prefetch_queue p st3) as [Pb Pl]. rewrite H3b in Pb. rewrite H3l in Pl.
    destruct (prefetch p st3) as [st4 e4]. simpl in Pb, Pl.
    inversion Hr; subst ret state' e.
    rewrite Pb, Pl, <- Hq, <- Hr1. repeat split.
  - apply Z.ltb_ge in Em. assert (m = 0) by lia. subst m.
    set (st3 := set_length _ _) in Hr.
    assert (H3 : buffer st3 = buffer state /\ length st3 = length state - 0).
    { unfold st3. simpl. split; [exact Hb | lia]. }
    destruct H3 as [H3b H3l].
    destruct (prefetch_queue p st3) as [Pb Pl]. rewrite H3b in Pb. rewrite H3l in Pl.
    destruct (prefetch p st3) as [st4 e4]. simpl in Pb, Pl.
    inversion Hr; subst ret state' e.
    rewrite Pb, Pl. repeat split.
Qed.

(** X2.  [read()] without a size, or with a size that is not positive,
    on a stream that holds data: it returns all that is buffered, as one
    chunk, and leaves nothing behind. *)
Theorem read_without_size (p : Producer) (n : option Z) (state : ReadableState)
  (ret : option chunk) (state' : ReadableState) (e : list effect) :
  consistent state -> 0 < length state ->
  match n with Some k => k <= 0 | None => True end ->
  read p n state = (ret, state', e) ->
  ret = Some (List.concat (buffer state)) /\
  List.concat (buffer state') = [] /\ length state' = 0.
Proof.
  intros Hc HL Hn Hr.
  assert (E0 : (length state =? 0) && ended state = false).
  { apply andb_false_iff. left. apply Z.eqb_neq. lia. }
  destruct (read_amount p n state ret state' e Hc E0 Hr) as (Hm & Hret & Hb & Hl).
  assert (Hreq : requested n state = length state).
  { unfold requested. destruct n as [k|]; [|reflexivity].
    destruct (k <=? 0) eqn:E; [reflexivity | apply Z.leb_gt in E; lia]. }
  assert (Hg : fst (granted (requested n state) state) = length state).
  { rewrite Hreq. unfold granted. rewrite Z.ltb_irrefl. reflexivity. }
  rewrite Hg in Hret, Hb, Hl.
  assert (Hlen : Z.to_nat (length state) = List.length (List.concat (buffer state))).
  { rewrite Hc, total_concat. apply Nat2Z.id. }
  apply Z.ltb_lt in HL. rewrite HL in Hret.
  rewrite Hlen, firstn_all in Hret. rewrite Hlen, skipn_all in Hb.
  repeat split; [exact Hret | exact Hb | lia].
Qed.

Lemma read_without_size_witness :
  fst (fst (read Source None state200)) = Some (block 200) /\
  length (snd (fst (read Source None state200))) = 0.
Proof.
  destruct (read Source None state200) as [[ret st'] e] eqn:E.
  destruct (read_without_size Source None state200 ret st' e) as (Hr & _ & Hl).
  - reflexivity.
  - reflexivity.
  - exact I.
  - exact E.
  - split; [exact Hr | exact Hl].
Defined.

(** X3.  [read(n)] with [n] positive and no more than is buffered: it
    returns exactly the first [n] units of the buffered data, as one chunk,
    and the rest stays in the queue, in order. *)
Theorem read_exact (p : Producer) (n : Z) (state : ReadableState)
  (ret : option chunk) (state' : ReadableState) (e : list effect) :
  consistent state -> 0 < n <= length state ->
  read p (Some n) state = (ret, state', e) ->
  ret = Some (firstn (Z.to_nat n) (List.concat (buffer state))) /\
  chunk_length (data ret) = n /\
  List.concat (buffer state') = skipn (Z.to_nat n) (List.concat (buffer state)) /\
  length state' = length state - n.
Proof.
  intros Hc Hn Hr.
  assert (E0 : (length state =? 0) && ended state = false).
  { apply andb_false_iff. left. apply Z.eqb_neq. lia. }
  destruct (read_amount p (Some n) state ret state' e Hc E0 Hr) as (Hm & Hret & Hb & Hl).
  assert (Hg : fst (granted (requested (Some n) state) state) = n).
  { unfold requested, granted.
    destruct (n <=? 0) eqn:E; [apply Z.leb_le in E; lia|].
    destruct (length state <? n) eqn:E2; [apply Z.ltb_lt in E2; lia | reflexivity]. }
  rewrite Hg in Hret, Hb, Hl.
  assert (E1 : (0 <? n) = true) by (apply Z.ltb_lt; lia). rewrite E1 in Hret.
  repeat split; try assumption.
  rewrite Hret. simpl. unfold chunk_length. rewrite length_firstn.
  unfold consistent in Hc. rewrite total_concat in Hc. lia.
Qed.

Lemma read_exact_witness :
  fst (fst (read Source (Some 50) state200)) = Some (block 50) /\
  length (snd (fst (read Source (Some 50) state200))) = 150.
Proof.
  destruct (read Source (Some 50) state200) as [[ret st'] e] eqn:E.
  destruct (read_exact Source 50 state200 ret st' e) as (Hr & _ & _ & Hl).
  - reflexivity.
  - split; [reflexivity | discriminate].
  - exact E.
  - split; [exact Hr | exact Hl].
Defined.

(** ** Nothing is lost, doubled or reordered *)

Lemma read_conserves (p : Producer) (n : option Z) (state : ReadableState) :
  consistent state ->
  data (fst (fst (read p n state))) ++ List.concat (buffer (snd (fst (read p n state))))
  = List.concat (buffer state).
Proof.
  intros Hc.
  destruct ((length state =? 0) && ended state) eqn:E0.
  - unfold read. rewrite E0. reflexivity.
  - destruct (read p n state) as [[ret st'] e] eqn:Hr.
    destruct (read_amount p n state ret st' e Hc E0 Hr) as (_ & Hret & Hb & _).
    simpl. rewrite Hret, Hb.
    destruct (0 <? _) eqn:Em; simpl; [apply firstn_skipn|].
    apply Z.ltb_ge in Em.
    replace (Z.to_nat _) with 0%nat by lia. reflexivity.
Qed.

Lemma concat_push (c : chunk) (state : ReadableState) :
  List.concat (buffer (push c state)) = List.concat (buffer state) ++ c.
Proof. simpl. rewrite concat_app. simpl. rewrite app_nil_r. reflexivity. Qed.

Lemma chunk_length_0 (c : chunk) : (chunk_length c =? 0) = true -> c = [].
Proof.
  intros H. apply Z.eqb_eq in H. unfold chunk_length in H.
  apply length_zero_iff_nil. lia.
Qed.

Lemma onread_no_data_buffer (state : ReadableState) :
  buffer (fst (onread_no_data state)) = buffer state.
Proof. unfold onread_no_data. destruct (0 <? _); reflexivity. Qed.

Lemma apply_op_conserves (state : ReadableState) (op : Op) :
  consistent state ->
  handed_out state op ++ List.concat (buffer (apply_op state op))
  = List.concat (buffer state) ++ taken_in op.
Proof.
  intros Hc. destruct op as [p n|p er c|c]; simpl.
  - rewrite app_nil_r. apply read_conserves, Hc.
  - unfold onread. destruct er as [x|]; [destruct c; simpl; rewrite app_nil_r; reflexivity|].
    destruct c as [c|]; [|rewrite onread_no_data_buffer, app_nil_r; reflexivity].
    destruct (chunk_length c =? 0) eqn:E0.
    + rewrite onread_no_data_buffer. rewrite (chunk_length_0 c E0), app_nil_r. reflexivity.
    + set (st := push c _).
      assert (Hst : List.concat (buffer st) = List.concat (buffer state) ++ c)
        by (unfold st; rewrite concat_push; reflexivity).
      destruct (length st <? lowWaterMark st).
      * destruct (call_read_queue p (bufferSize st) st) as [Hb _].
        destruct (call_read p (bufferSize st) st) as [st' e']. simpl in Hb.
        destruct (needReadable st'); simpl; rewrite Hb; exact Hst.
      * destruct (needReadable st); simpl; exact Hst.
  - unfold Transform._output. destruct c as [c|]; [|rewrite app_nil_r; reflexivity].
    destruct (chunk_length c =? 0) eqn:E0.
    + rewrite (chunk_length_0 c E0), app_nil_r. reflexivity.
    + destruct (needReadable _); simpl; rewrite concat_app; simpl;
        rewrite app_nil_r; reflexivity.
Qed.

Lemma ops_conserve (ops : list Op) :
  forall state, consistent state ->
    all_handed_out ops state ++ List.concat (buffer (fold_left apply_op ops state))
    = List.concat (buffer state) ++ List.concat (map taken_in ops).
Proof.
  induction ops as [|op rest IH]; intros state Hc; simpl.
  - rewrite app_nil_r. reflexivity.
  - rewrite <- app_assoc, (IH _ (apply_op_consistent state op Hc)).
    rewrite !app_assoc. f_equal. apply apply_op_conserves, Hc.
Qed.

(** X4.  Over the whole life of a stream, through any reads, answers of the
    producer and outputs of a transform step: the data handed out by the
    reads, in order, followed by what is still buffered, is exactly the data
    that came in, in the order it came.  Nothing is lost, doubled or
    reordered. *)
Theorem data_in_is_data_out (options : option Options) (ops : list Op) :
  all_handed_out ops (new_ReadableState options)
  ++ List.concat (buffer (fold_left apply_op ops (new_ReadableState options)))
  = List.concat (map taken_in ops).
Proof.
  rewrite (ops_conserve ops _ (new_ReadableState_consistent options)). reflexivity.
Qed.

(** ** A reader that got nothing is told when data comes *)

Lemma read_null_waits (p : Producer) (n : option Z) (state : ReadableState)
  (ret : option chunk) (state' : ReadableState) (e : list effect) :
  (length state =? 0) && ended state = false ->
  read p n state = (ret, state', e) -> no_data ret = true ->
  needReadable state' = true.
Proof.
  intros E0 Hr Hn. unfold read in Hr. rewrite E0 in Hr.
  destruct (granted (requested n state) state) as [m st1].
  destruct (take m st1) as [ret1 st2].
  set (st3 := set_length _ _) in Hr.
  destruct (prefetch_calls p st3) as [_ Hp].
  destruct (prefetch p st3) as [st4 e4]. simpl in Hp.
  inversion Hr; subst ret1 state' e. rewrite Hp. unfold st3. rewrite Hn. reflexivity.
Qed.

(** X5.  A [read] that returns no data on a stream that is not both ended
    and empty leaves [needReadable] set; the next data, whether it is an
    answer of the producer or an output of a transform step, then emits
    ['readable'] exactly once and clears the flag. *)
Theorem waiting_reader_is_told (p : Producer) (n : option Z) (state : ReadableState)
  (ret : option chunk) (state' : ReadableState) (e : list effect) (c : chunk) :
  (length state =? 0) && ended state = false ->
  read p n state = (ret, state', e) -> no_data ret = true ->
  chunk_length c <> 0 ->
  needReadable state' = true /\
  count is_emit_readable (snd (onread Source None (Some c) state')) = 1%nat /\
  needReadable (fst (onread Source None (Some c) state')) = false /\
  count is_emit_readable (snd (Transform._output (Some c) state')) = 1%nat /\
  needReadable (fst (Transform._output (Some c) state')) = false.
Proof.
  intros E0 Hr Hn Hc.
  pose proof (read_null_waits p n state ret state' e E0 Hr Hn) as Hw.
  apply Z.eqb_neq in Hc.
  split; [exact Hw|].
  unfold onread, Transform._output. rewrite Hc. simpl. rewrite Hw.
  destruct (_ <? _); simpl; rewrite Hw; repeat split.
Qed.

Lemma waiting_reader_is_told_witness :
  needReadable (snd (fst (read Source (Some 1000) state200))) = true /\
  count is_emit_readable
    (snd (onread Source None (Some ab) (snd (fst (read Source (Some 1000) state200)))))
  = 1%nat.
Proof.
  destruct (read Source (Some 1000) state200) as [[ret st'] e] eqn:E.
  assert (Hn : no_data ret = true)
    by (replace ret with (fst (fst (read Source (Some 1000) state200)))
          by (rewrite E; reflexivity); reflexivity).
  destruct (waiting_reader_is_told Source (Some 1000) state200 ret st' e ab)
    as (Hw & Hk & _); try assumption; try reflexivity; try discriminate.
  split; [exact Hw | exact Hk].
Defined.

(** ** Ended is for good *)

Lemma call_read_ended (p : Producer) (n : Z) (state : ReadableState) :
  ended state = true -> ended (fst (call_read p n state)) = true.
Proof.
  intros H. destruct p as [|ws]; simpl; [exact H|].
  unfold Transform._read, onread_no_data.
  destruct ((Writable.ended ws || Writable.ending ws) && (Writable.length ws =? 0));
    simpl; [|exact H].
  destruct (0 <? length state); reflexivity.
Qed.

Lemma read_on_ended (p : Producer) (n : option Z) (state : ReadableState) :
  ended state = true ->
  ended (snd (fst (read p n state))) = true /\
  count is_call_read (snd (read p n state)) = 0%nat.
Proof.
  intros He. unfold read.
  destruct ((length state =? 0) && ended state); [split; [exact He | reflexivity]|].
  unfold granted. rewrite He. simpl.
  assert (Ht : forall m, ended (snd (take m state)) = true).
  { intros m. unfold take. destruct (0 <? m); [|exact He].
    destruct (fromList m (buffer state) (length state)). exact He. }
  destruct (length state <? requested n state).
  - specialize (Ht (length state)). destruct (take (length state) state) as [ret st2].
    simpl in Ht. unfold prefetch.
    destruct (no_data ret); simpl; rewrite Ht; simpl; split; try reflexivity; exact Ht.
  - specialize (Ht (requested n state)).
    destruct (take (requested n state) state) as [ret st2].
    simpl in Ht. unfold prefetch.
    destruct (no_data ret); simpl; rewrite Ht; simpl; split; try reflexivity; exact Ht.
Qed.

Lemma apply_op_ended (state : ReadableState) (op : Op) :
  ended state = true -> ended (apply_op state op) = true.
Proof.
  intros He. destruct op as [p n|p er c|c]; simpl.
  - apply read_on_ended, He.
  - assert (Hn : forall st, ended (fst (onread_no_data st)) = true).
    { intros st. unfold onread_no_data. destruct (0 <? _); reflexivity. }
    unfold onread. destruct er; [exact He|].
    destruct c as [c|]; [|apply Hn].
    destruct (chunk_length c =? 0); [apply Hn|].
    set (st := push c _).
    assert (Hst : ended st = true) by exact He.
    pose proof (call_read_ended p (bufferSize st) st Hst) as Hc.
    destruct (length st <? lowWaterMark st).
    + destruct (call_read p (bufferSize st) st) as [st' e']. simpl in Hc.
      destruct (needReadable st'); exact Hc.
    + destruct (needReadable st); exact Hst.
  - unfold Transform._output. destruct c as [c|]; [|exact He].
    destruct (chunk_length c =? 0); [exact He|].
    destruct (needReadable _); exact He.
Qed.

(** X6.  Once [ended] is set it stays set, through any reads, answers of the
    producer and outputs; and from then on no [read] calls [_read]. *)
Theorem ended_for_good (ops : list Op) (state : ReadableState)
  (p : Producer) (n : option Z) :
  ended state = true ->
  ended (fold_left apply_op ops state) = true /\
  count is_call_read (snd (read p n (fold_left apply_op ops state))) = 0%nat.
Proof.
  intros He.
  assert (H : ended (fold_left apply_op ops state) = true).
  { revert state He. induction ops as [|op rest IH]; intros state He; simpl; [exact He|].
    apply IH, apply_op_ended, He. }
  split; [exact H | apply read_on_ended, H].
Qed.

Lemma ended_for_good_witness :
  ended (fold_left apply_op [Op_onread Source None (Some ab); Op_read Source None]
           (_readableState ended_empty)) = true.
Proof.
  apply (ended_for_good [Op_onread Source None (Some ab); Op_read Source None]
           (_readableState ended_empty) Source None).
  reflexivity.
Defined.

(** ** The outputs of a transform step *)

Lemma with_data_cons (c : option chunk) (rest : list (option chunk)) :
  with_data (c :: rest) = with_data [c] ++ with_data rest.
Proof. unfold with_data. simpl. rewrite app_nil_r. reflexivity. Qed.

Lemma output_shape (c : option chunk) (rs : ReadableState) :
  buffer (fst (Transform._output c rs)) = buffer rs ++ with_data [c] /\
  length (fst (Transform._output c rs)) = length rs + total (with_data [c]) /\
  needReadable (fst (Transform._output c rs)) =
    match with_data [c] with [] => needReadable rs | _ :: _ => false end /\
  snd (Transform._output c rs) =
    match with_data [c] with
    | [] => []
    | _ :: _ => if needReadable rs then [Emit Readable] else []
    end.
Proof.
  unfold Transform._output, with_data. destruct c as [c|]; simpl.
  - destruct (chunk_length c =? 0); simpl.
    + rewrite app_nil_r. repeat split. lia.
    + destruct (needReadable rs) eqn:En; simpl; rewrite ?En; repeat split; lia.
  - rewrite app_nil_r. repeat split. lia.
Qed.

Lemma output_all_shape (cs : list (option chunk)) :
  forall rs,
    buffer (fst (Transform.output_all Transform.no_listener cs rs))
    = buffer rs ++ with_data cs /\
    length (fst (Transform.output_all Transform.no_listener cs rs))
    = length rs + total (with_data cs) /\
    needReadable (fst (Transform.output_all Transform.no_listener cs rs)) =
      match with_data cs with [] => needReadable rs | _ :: _ => false end /\
    snd (Transform.output_all Transform.no_listener cs rs) =
      match with_data cs with
      | [] => []
      | _ :: _ => if needReadable rs then [Emit Readable] else []
      end.
Proof.
  induction cs as [|c rest IH]; intros rs.
  - simpl. rewrite app_nil_r. repeat split. lia.
  - rewrite with_data_cons. cbn [Transform.output_all].
    rewrite heard_no_listener.
    destruct (output_shape c rs) as (A1 & B1 & C1 & D1).
    destruct (Transform._output c rs) as [rs1 e1]. cbn [fst snd] in A1, B1, C1, D1.
    destruct (IH rs1) as (A2 & B2 & C2 & D2).
    destruct (Transform.output_all Transform.no_listener rest rs1) as [rs2 e2].
    cbn [fst snd] in A2, B2, C2, D2 |- *.
    rewrite A2, B2, C2, D2, A1, B1, C1, D1, total_app, <- app_assoc.
    destruct (with_data [c]) as [|b l]; cbn [app].
    + repeat split. simpl. lia.
    + destruct (with_data rest); destruct (needReadable rs); cbn [app];
        repeat split; try (symmetry; apply app_nil_r); lia.
Qed.

(** A listener that reads inside the emit is woken by every output: it
    takes each chunk and sets [needReadable] again.  Without it the second
    output emits nothing and both chunks stay. *)
Lemma reading_listener_is_woken_again :
  needReadable waiting_transform = true /\
  count is_emit_readable
    (snd (Transform.output_all (reads_twice input_open) [Some ab; Some cd]
            waiting_transform)) = 2%nat /\
  buffer (fst (Transform.output_all (reads_twice input_open) [Some ab; Some cd]
                 waiting_transform)) = [] /\
  count is_emit_readable
    (snd (Transform.output_all Transform.no_listener [Some ab; Some cd]
            waiting_transform)) = 1%nat /\
  buffer (fst (Transform.output_all Transform.no_listener [Some ab; Some cd]
                 waiting_transform)) = [ab; cd].
Proof. repeat split. Qed.

(** X7.  A transform step that calls [output] several times inside one
    call, on a Transform whose ['readable'] wakes no listener that touches
    the stream: the chunks that carry data are appended to the buffer in the
    order of the calls, falsy and empty ones are dropped, and ['readable'] is
    emitted exactly once, at the first chunk with data, when [needReadable]
    was set, and not at all otherwise; no other event is emitted. *)
Theorem outputs_of_a_step (cs : list (option chunk)) (rs : ReadableState) :
  buffer (fst (Transform.output_all Transform.no_listener cs rs))
  = buffer rs ++ with_data cs /\
  length (fst (Transform.output_all Transform.no_listener cs rs))
  = length rs + total (with_data cs) /\
  snd (Transform.output_all Transform.no_listener cs rs) =
    match with_data cs with
    | [] => []
    | _ :: _ => if needReadable rs then [Emit Readable] else []
    end.
Proof.
  destruct (output_all_shape cs rs) as (A & B & _ & D). repeat split; assumption.
Qed.

(** ** The end of the input of a transform *)

Lemma with_data_positive (cs : list (option chunk)) :
  with_data cs = [] \/ 0 < total (with_data cs).
Proof.
  induction cs as [|c rest IH]; [left; reflexivity|].
  rewrite with_data_cons, total_app.
  pose proof (total_nonneg (with_data rest)) as Hr.
  assert (Hc : with_data [c] = [] \/ 0 < total (with_data [c])).
  { unfold with_data. destruct c as [c|]; simpl; [|left; reflexivity].
    destruct (chunk_length c =? 0) eqn:E; simpl; [left; reflexivity|].
    right. apply Z.eqb_neq in E. unfold chunk_length in *. lia. }
  destruct Hc as [Hc|Hc]; [rewrite Hc; simpl|right; lia].
  destruct IH as [IH|IH]; [left; exact IH | right; exact IH].
Qed.

(** A listener that reads inside the emit, the input having ended: it takes
    the chunk of the flush step and its [_read] marks the output side ended
    before [done] runs, so that ['readable'] is followed by ['end'], and
    [ended] is set although the flush step reports an error. *)
Lemma reading_listener_ends_the_output :
  snd (Transform.on_finish (reads_twice input_done)
         (Some {| Transform.outputs := [Some ab]; Transform.result := None |})
         waiting_transform)
  = [Emit Readable; Call_read 16384; NextTick End_; Emit End_] /\
  ended waiting_transform = false /\
  ended (fst (Transform.on_finish (reads_twice input_done)
                (Some {| Transform.outputs := [Some ab];
                         Transform.result := Some (Failure "flush") |})
                waiting_transform)) = true.
Proof. repeat split. Qed.

(** X8.  The ['finish'] listener on a Transform whose ['readable'] wakes
    no listener that touches the stream, when the flush step, if there is
    one, answers inside the call and reports no error: the output side is
    marked ended.  If nothing is buffered at that point, ['end'] is emitted
    and nothing else.  If data is buffered, no ['end'] is emitted, and
    ['readable'] is emitted exactly once when [needReadable] was set, not at
    all when it was not. *)
Theorem finish_outcome (_flush : option Transform.Flush) (rs rs' : ReadableState)
  (e : list effect) :
  consistent rs ->
  match _flush with Some f => Transform.result f = None | None => True end ->
  Transform.on_finish Transform.no_listener _flush rs = (rs', e) ->
  ended rs' = true /\
  (length rs' = 0 -> e = [Emit End_]) /\
  (length rs' <> 0 ->
   count is_emit_end e = 0%nat /\
   count is_emit_readable e = if needReadable rs then 1%nat else 0%nat).
Proof.
  intros Hc Hf H.
  assert (Hgen : forall cs,
            (let '(rs1, e1) := Transform.output_all Transform.no_listener cs rs in
             let '(rs2, e2) := Transform.done None rs1 in (rs2, e1 ++ e2)) = (rs', e) ->
            ended rs' = true /\
            (length rs' = 0 -> e = [Emit End_]) /\
            (length rs' <> 0 ->
             count is_emit_end e = 0%nat /\
             count is_emit_readable e = if needReadable rs then 1%nat else 0%nat)).
  { intros cs Hcs.
    destruct (output_all_shape cs rs) as (A & B & C & D).
    destruct (Transform.output_all Transform.no_listener cs rs) as [rs1 e1].
    cbn [fst snd] in A, B, C, D.
    pose proof (total_nonneg (buffer rs)) as H0. unfold consistent in Hc.
    unfold Transform.done in Hcs. simpl in Hcs.
    destruct (with_data_positive cs) as [Hw|Hw].
    - rewrite Hw in *. simpl in B.
      assert (Hl : length rs1 = length rs) by lia. rewrite Hl, C, D in Hcs.
      destruct (length rs =? 0) eqn:E0; simpl in Hcs.
      + apply Z.eqb_eq in E0. inversion Hcs; subst rs' e. simpl. rewrite Hl.
        repeat split; try reflexivity; intros; lia.
      + apply Z.eqb_neq in E0.
        destruct (needReadable rs); inversion Hcs; subst rs' e; simpl; rewrite Hl;
          repeat split; try reflexivity; intros; lia.
    - assert (Hl : (length rs1 =? 0) = false) by (apply Z.eqb_neq; lia).
      rewrite Hl in Hcs. simpl in Hcs.
      destruct (with_data cs) as [|b l]; [simpl in Hw; lia|].
      rewrite C, D in Hcs. apply Z.eqb_neq in Hl.
      inversion Hcs; subst rs' e. simpl.
      destruct (needReadable rs); repeat split; try reflexivity; intros; lia. }
  destruct _flush as [f|].
  - apply (Hgen (Transform.outputs f)).
    cbn [Transform.on_finish] in H. rewrite Hf in H.
    destruct (Transform.output_all Transform.no_listener (Transform.outputs f) rs)
      as [rs1 e1].
    rewrite heard_no_listener in H. exact H.
  - apply (Hgen []). cbn [Transform.output_all].
    cbn [Transform.on_finish] in H. rewrite heard_no_listener in H.
    rewrite H. reflexivity.
Qed.

Lemma finish_outcome_witness :
  ended (fst (Transform.on_finish Transform.no_listener
                (Some {| Transform.outputs := [Some ab; None; Some cd];
                         Transform.result := None |})
                (new_ReadableState None))) = true.
Proof.
  destruct (Transform.on_finish _ _ (new_ReadableState None)) as [rs' e] eqn:E.
  destruct (finish_outcome
              (Some {| Transform.outputs := [Some ab; None; Some cd];
                       Transform.result := None |})
              (new_ReadableState None) rs' e
              (new_ReadableState_consistent None) eq_refl E) as (He & _).
  exact He.
Defined.

(** ** The demand handler of a transform *)

Lemma transform_call_read (ws : Writable.WritableState) (n : Z) (state : ReadableState) :
  reading (fst (call_read (TransformInput ws) n state)) = false.
Proof.
  simpl. unfold Transform._read, onread_no_data.
  destruct ((Writable.ended ws || Writable.ending ws) && (Writable.length ws =? 0));
    simpl; [|reflexivity].
  destruct (0 <? length state); reflexivity.
Qed.

Lemma transform_read_reading (ws : Writable.WritableState) (n : option Z)
  (state : ReadableState) :
  reading state = false ->
  reading (snd (fst (read (TransformInput ws) n state))) = false.
Proof.
  intros Hr. unfold read.
  destruct ((length state =? 0) && ended state); [exact Hr|].
  assert (Hg : reading (snd (granted (requested n state) state)) = false).
  { unfold granted. destruct (_ <? _); [|exact Hr].
    destruct (_ && _); exact Hr. }
  destruct (granted (requested n state) state) as [m st1]. simpl in Hg.
  assert (Ht : reading (snd (take m st1)) = false).
  { unfold take. destruct (0 <? m); [|exact Hg].
    destruct (fromList m (buffer st1) (length st1)). exact Hg. }
  destruct (take m st1) as [ret st2]. simpl in Ht.
  set (st3 := set_length _ _).
  assert (H3 : reading st3 = false) by (unfold st3; destruct (no_data ret); exact Ht).
  unfold prefetch.
  destruct (negb (ended st3) && (length st3 <? lowWaterMark st3) && negb (reading st3)).
  - pose proof (transform_call_read ws (bufferSize st3) (set_reading true st3)) as Hc.
    destruct (call_read _ _ _) as [st4 e4]. exact Hc.
  - exact H3.
Qed.

(** X10.  A Transform never has a request in flight: through any of its
    reads and any outputs of its step, [reading] is false after every
    call, whatever the state of the writable side. *)
Theorem transform_never_reading (options : option Options) (ops : list Op) :
  forallb is_transform_op ops = true ->
  reading (fold_left apply_op ops (new_ReadableState options)) = false.
Proof.
  assert (H : forall st, reading st = false -> forallb is_transform_op ops = true ->
            reading (fold_left apply_op ops st) = false);
    [|apply H; reflexivity].
  induction ops as [|op rest IH]; intros st Hr Hops; simpl in *; [exact Hr|].
  apply andb_true_iff in Hops. destruct Hops as [Hop Hrest].
  apply IH; [|exact Hrest].
  destruct op as [[|ws] n|p er c|c]; try discriminate; simpl.
  - apply transform_read_reading, Hr.
  - unfold Transform._output. destruct c as [c|]; [|exact Hr].
    destruct (chunk_length c =? 0); [exact Hr|].
    destruct (needReadable _); exact Hr.
Qed.

Lemma transform_never_reading_witness :
  reading
    (fold_left apply_op
       [Op_read (TransformInput {| Writable.ended := false; Writable.ending := false;
                                   Writable.length := 0 |}) None;
        Op_output (Some ab);
        Op_read (TransformInput {| Writable.ended := true; Writable.ending := false;
                                   Writable.length := 0 |}) (Some 1)]
       (new_ReadableState None)) = false.
Proof. apply transform_never_reading. reflexivity. Defined.

Lemma transform_prefetch (ws : Writable.WritableState) (st : ReadableState) :
  ended st = false -> reading st = false -> length st < lowWaterMark st ->
  let input_done :=
    (Writable.ended ws || Writable.ending ws) && (Writable.length ws =? 0) in
  ended (fst (prefetch (TransformInput ws) st)) = input_done /\
  count is_emit_readable (snd (prefetch (TransformInput ws) st)) =
    (if input_done && (0 <? length st) then 1%nat else 0%nat).
Proof.
  intros He Hr Hl. cbv zeta. unfold prefetch. rewrite He, Hr.
  apply Z.ltb_lt in Hl. rewrite Hl. simpl.
  unfold Transform._read, onread_no_data.
  destruct ((Writable.ended ws || Writable.ending ws) && (Writable.length ws =? 0)); simpl.
  - destruct (0 <? length st); split; reflexivity.
  - split; [exact He | reflexivity].
Qed.

Lemma prefetch_lowWaterMark (p : Producer) (st : ReadableState) :
  lowWaterMark (fst (prefetch p st)) = lowWaterMark st.
Proof.
  unfold prefetch. destruct (_ && _ && _); [|reflexivity].
  destruct p as [|ws]; simpl; [reflexivity|].
  unfold Transform._read, onread_no_data.
  destruct (_ && _); simpl; [|reflexivity]. destruct (0 <? _); reflexivity.
Qed.

(** X11.  The end of the input reaches the output side through [read]: when
    the writable side has ended (or is ending) with nothing queued, a [read]
    on a Transform that has not ended and is left with less than
    [lowWaterMark] marks the output side ended, and emits ['readable'] at
    once if data is still buffered.  While the writable side has input
    queued or has not ended, the same [read] does neither. *)
Theorem transform_read_ends (ws : Writable.WritableState) (n : option Z)
  (state : ReadableState) (ret : option chunk) (state' : ReadableState)
  (e : list effect) :
  ended state = false -> reading state = false ->
  read (TransformInput ws) n state = (ret, state', e) ->
  length state' < lowWaterMark state' ->
  let input_done :=
    (Writable.ended ws || Writable.ending ws) && (Writable.length ws =? 0) in
  ended state' = input_done /\
  count is_emit_readable e =
    (if input_done && (0 <? length state') then 1%nat else 0%nat).
Proof.
  intros He Hr H Hlow. cbv zeta. unfold read in H. rewrite He in H.
  rewrite andb_false_r in H.
  assert (Hg : ended (snd (granted (requested n state) state)) = false /\
               reading (snd (granted (requested n state) state)) = false).
  { unfold granted. destruct (_ <? _); [|split; assumption].
    destruct (_ && _); split; assumption. }
  destruct (granted (requested n state) state) as [m st1]. simpl in Hg.
  assert (Ht : ended (snd (take m st1)) = false /\ reading (snd (take m st1)) = false).
  { unfold take. destruct (0 <? m); [|exact Hg].
    destruct (fromList m (buffer st1) (length st1)). exact Hg. }
  destruct (take m st1) as [ret1 st2]. simpl in Ht.
  set (st3 := set_length _ _) in H.
  assert (H3e : ended st3 = false) by (unfold st3; destruct (no_data ret1); apply Ht).
  assert (H3r : reading st3 = false) by (unfold st3; destruct (no_data ret1); apply Ht).
  pose proof (transform_prefetch ws st3 H3e H3r) as Htp.
  destruct (prefetch_queue (TransformInput ws) st3) as [_ Hpl].
  pose proof (prefetch_lowWaterMark (TransformInput ws) st3) as Hlwm.
  clearbody st3.
  destruct (prefetch (TransformInput ws) st3) as [st4 e4]. cbn [fst snd] in *.
  inversion H; subst. rewrite Hpl, Hlwm in Hlow. rewrite Hpl.
  apply Htp, Hlow.
Qed.

Lemma transform_read_ends_witness :
  ended (snd (fst (read (TransformInput {| Writable.ended := true; Writable.ending := false;
                                           Writable.length := 0 |})
                     None (new_ReadableState None)))) = true.
Proof.
  destruct (read _ None (new_ReadableState None)) as [[ret st'] e] eqn:E.
  assert (Hl : length st' < lowWaterMark st').
  { replace st' with (snd (fst (read (TransformInput
        {| Writable.ended := true; Writable.ending := false; Writable.length := 0 |})
        None (new_ReadableState None)))) by (rewrite E; reflexivity).
    reflexivity. }
  destruct (transform_read_ends _ None (new_ReadableState None) ret st' e
              eq_refl eq_refl E Hl) as [H _].
  exact H.
Defined.

(** ** [pipe] never runs the loop itself *)

Lemma read_flowing (p : Producer) (n : option Z) (state : ReadableState) :
  flowing (snd (fst (read p n state))) = flowing state.
Proof.
  unfold read. destruct ((length state =? 0) && ended state); [reflexivity|].
  assert (Hg : flowing (snd (granted (requested n state) state)) = flowing state).
  { unfold granted. destruct (_ <? _); [|reflexivity]. destruct (_ && _); reflexivity. }
  destruct (granted (requested n state) state) as [m st1]. simpl in Hg.
  assert (Ht : flowing (snd (take m st1)) = flowing st1).
  { unfold take. destruct (0 <? m); [|reflexivity].
    destruct (fromList m (buffer st1) (length st1)). reflexivity. }
  destruct (take m st1) as [ret st2]. simpl in Ht.
  set (st3 := set_length _ _).
  assert (H3 : flowing st3 = flowing st2) by (unfold st3; destruct (no_data ret); reflexivity).
  assert (Hp : flowing (fst (prefetch p st3)) = flowing st3).
  { unfold prefetch. destruct (_ && _ && _); [|reflexivity].
    destruct p as [|ws]; simpl; [reflexivity|].
    unfold Transform._read, onread_no_data.
    destruct (_ && _); simpl; [|reflexivity]. destruct (0 <? _); reflexivity. }
  destruct (prefetch p st3) as [st4 e4]. simpl in *. congruence.
Qed.

Lemma onread_flowing (er : option error) (c : option chunk) (state : ReadableState) :
  flowing (fst (onread Source er c state)) = flowing state.
Proof.
  unfold onread, onread_no_data. destruct er; [reflexivity|].
  destruct c as [c|]; [|simpl; destruct (0 <? _); reflexivity].
  destruct (chunk_length c =? 0); [simpl; destruct (0 <? _); reflexivity|].
  simpl. destruct (_ <? _); simpl; destruct (needReadable state); reflexivity.
Qed.

(** X12.  [state.flowing] is false in every state a piped source can reach:
    nothing sets it.  So every call of [pipe] appends [dest] to
    [state.pipes], emits ['pipe'] on it, reads nothing from the source and
    queues one call of [flow] with [process.nextTick], whether or not a
    [flow] is already under way. *)
Theorem pipe_always_queues_flow (write : list Obs -> Dest -> chunk -> bool)
  (options : option Options) (evs : list Event)
  (dest : Dest) (pipeOpts : option PipeOpts) :
  let s := run write evs (new_Readable options) in
  let s' := pipe dest pipeOpts s in
  flowing (_readableState s) = false /\
  pipes (_readableState s') = pipes (_readableState s) ++ [dest] /\
  trace s' = trace s ++ [Piped dest] /\
  ticks s' = ticks s ++ [Flow match pipeOpts with
                              | Some o => o
                              | None => {| end_opt := None; chunkSize := None |}
                              end] /\
  buffer (_readableState s') = buffer (_readableState s) /\
  outstanding s' = outstanding s.
Proof.
  cbv zeta.
  assert (Hf : flowing (_readableState (run write evs (new_Readable options))) = false).
  { apply (run_keeps write (fun st => flowing st = false)).
    - intros n st H. rewrite read_flowing. exact H.
    - intros er c st H. rewrite onread_flowing. exact H.
    - intros ds st H. exact H.
    - intros st H. reflexivity.
    - reflexivity. }
  split; [exact Hf|].
  unfold pipe. rewrite Hf. simpl.
  destruct (_ && _ && _); repeat split.
Qed.

(** ** One call of [flow] *)

Section OneFlow.

Variable write : list Obs -> Dest -> chunk -> bool.

Lemma no_flow_read_in_writes (c : chunk) (l : list (Dest * bool)) :
  filter is_flow_read (map (fun x => Wrote (fst x) c (snd x)) l) = [].
Proof. induction l as [|x rest IH]; simpl; [reflexivity | exact IH]. Qed.

Lemma flow_loop_reads (a : nat) (o : PipeOpts) (fuel : nat) :
  forall s b r,
    flow_loop write fuel a o s = Some (b, r) ->
    exists t, trace r = trace s ++ t /\
      (List.length (filter is_flow_read t) <= S (Z.to_nat (length (_readableState s))))%nat.
Proof.
  induction fuel as [|fuel IH]; intros s b r H; simpl in H; [discriminate|].
  destruct (pipes (_readableState s)) as [|d0 ds] eqn:Ep.
  { inversion H; subst. exists []. split; [symmetry; apply app_nil_r | simpl; lia]. }
  unfold src_read in H.
  destruct (read Source (chunkSize o) (_readableState s)) as [[ret st] e] eqn:Er.
  assert (Ft : trace (fold_left (fun s e => deferred e s) e (set_state st s)) = trace s)
    by (apply (fold_deferred_flows e (set_state st s))).
  assert (Fs : _readableState (fold_left (fun s e => deferred e s) e (set_state st s)) = st)
    by (rewrite fold_deferred_state; reflexivity).
  revert H Ft Fs. generalize (fold_left (fun s e => deferred e s) e (set_state st s)).
  intros s1 H Ft Fs.
  destruct ret as [c|].
  - apply read_some_decreases in Er.
    destruct (fold_write_to_trace write a c (pipes (_readableState s1))
                (log (FlowRead (Some c)) s1)) as (answers & _ & Ht).
    assert (Hs : _readableState
                   (fold_left (write_to write a c) (pipes (_readableState s1))
                      (log (FlowRead (Some c)) s1)) = st)
      by (rewrite fold_write_to_state; exact Fs).
    simpl in H. revert H Ht Hs.
    generalize (fold_left (write_to write a c) (pipes (_readableState s1))
                  (log (FlowRead (Some c)) s1)).
    intros s2 H Ht Hs. simpl in Ht. rewrite Ft in Ht.
    destruct (0 <? needDrain_of a (log (Data c) s2)).
    + inversion H; subst b r. simpl. rewrite Ht, <- !app_assoc.
      eexists. split; [reflexivity|].
      simpl. rewrite filter_app, no_flow_read_in_writes. simpl. lia.
    + destruct (IH _ _ _ H) as (t' & Ht' & Hk).
      simpl in Ht', Hk. rewrite Hs in Hk. rewrite Ht in Ht'.
      rewrite Ht', <- !app_assoc.
      eexists. split; [reflexivity|].
      simpl. rewrite filter_app, no_flow_read_in_writes. simpl. lia.
  - inversion H; subst b r. simpl. rewrite Ft.
    exists [FlowRead None]. split; [reflexivity | simpl; lia].
Qed.

Lemma flow_eq (o : PipeOpts) (s : Stream) :
  flow write o s =
    match flow_loop write (S (Z.to_nat (length (_readableState s))))
            (List.length (needDrain s)) o
            (set_needDrain (needDrain s ++ [(0, o)]) s) with
    | None => (set_needDrain (needDrain s ++ [(0, o)]) s, false)
    | Some (true, r) => (r, false)
    | Some (false, r) =>
        match pipes (_readableState r) with
        | [] =>
            (log (Uncaught (Wrap.TypeError "this.listeners"))
               (set_state (set_flowing false (_readableState r)) r), true)
        | _ :: _ => (set_readable_listeners (readable_listeners r ++ [o]) r, false)
        end
    end.
Proof. reflexivity. Qed.

(** X13.  A call of [flow] comes to an end: its loop returns, and it has
    called [src.read] at most once more than there were units buffered when
    it began. *)
Theorem flow_comes_to_an_end (pipeOpts : PipeOpts) (s : Stream) :
  (exists b r,
     flow_loop write (S (Z.to_nat (length (_readableState s))))
       (List.length (needDrain s)) pipeOpts
       (set_needDrain (needDrain s ++ [(0, pipeOpts)]) s) = Some (b, r)) /\
  exists t,
    trace (fst (flow write pipeOpts s)) = trace s ++ t /\
    (List.length (filter is_flow_read t) <= S (Z.to_nat (length (_readableState s))))%nat.
Proof.
  split; [apply flow_returns|].
  destruct (flow_returns write pipeOpts s) as (b & r & E).
  rewrite flow_eq, E.
  destruct (flow_loop_reads _ _ _ _ _ _ E) as (t & Ht & Hk).
  change (trace (set_needDrain (needDrain s ++ [(0, pipeOpts)]) s)) with (trace s) in Ht.
  change (_readableState (set_needDrain (needDrain s ++ [(0, pipeOpts)]) s))
    with (_readableState s) in Hk.
  destruct b; simpl; [exists t; split; assumption|].
  destruct (pipes (_readableState r)); simpl.
  - exists (t ++ [Uncaught (Wrap.TypeError "this.listeners")]).
    rewrite Ht, app_assoc. split; [reflexivity|].
    rewrite filter_app, length_app. simpl. lia.
  - exists t. split; assumption.
Qed.

(** X14.  A call of [flow] writes every chunk it reads to every destination
    of [state.pipes], in the order of their registration, and emits ['data']
    with it, before it reads the next chunk, whatever the destinations
    answer; the only thing it may add after that is the TypeError it throws
    when no destination is left. *)
Theorem flow_fans_out (pipeOpts : PipeOpts) (s : Stream) :
  exists t u,
    trace (fst (flow write pipeOpts s)) = trace s ++ t ++ u /\
    turns (pipes (_readableState s)) t /\
    (u = [] \/ exists x, u = [Uncaught x]).
Proof.
  destruct (flow_returns write pipeOpts s) as (b & r & E).
  rewrite flow_eq, E.
  destruct (flow_loop_fans_out write _ _ _ _ _ _ E) as (t & Ht & Hts).
  change (trace (set_needDrain (needDrain s ++ [(0, pipeOpts)]) s)) with (trace s) in Ht.
  change (_readableState (set_needDrain (needDrain s ++ [(0, pipeOpts)]) s))
    with (_readableState s) in Hts.
  destruct b; simpl.
  - exists t, []. rewrite app_nil_r. repeat split; try assumption. left. reflexivity.
  - destruct (pipes (_readableState r)); simpl.
    + exists t, [Uncaught (Wrap.TypeError "this.listeners")].
      rewrite Ht, app_assoc. repeat split; try assumption. right. eauto.
    + exists t, []. rewrite app_nil_r. repeat split; try assumption. left. reflexivity.
Qed.

End OneFlow.

(** ** A destination that is not piped gets nothing *)

Section NotPiped.

Variable write : list Obs -> Dest -> chunk -> bool.
Variable d : Dest.

Lemma writes_to_app (t1 t2 : list Obs) :
  writes_to d (t1 ++ t2) = writes_to d t1 ++ writes_to d t2.
Proof.
  induction t1 as [|o rest IH]; simpl; [reflexivity|].
  destruct o as [ret|ret|d' c b|c|d'|d'|d'|d'|ev|x]; try exact IH.
  destruct (Dest_eqb d' d); simpl; rewrite IH; reflexivity.
Qed.

Lemma not_piped_log (o : Obs) (W : list chunk) (s : Stream) :
  writes_to d [o] = [] -> not_piped d W s -> not_piped d W (log o s).
Proof.
  intros Ho [Hp Hw]. split; [exact Hp|].
  simpl. rewrite writes_to_app, Ho, app_nil_r. exact Hw.
Qed.

Lemma not_piped_same (W : list chunk) (s s' : Stream) :
  trace s' = trace s -> pipes (_readableState s') = pipes (_readableState s) ->
  not_piped d W s -> not_piped d W s'.
Proof. intros Ht Hp [H1 H2]. unfold not_piped. rewrite Ht, Hp. split; assumption. Qed.

Lemma turn_no_write (ds : list Dest) (c : chunk) (t : list Obs) :
  turn ds c t -> ~ In d ds -> writes_to d t = [].
Proof.
  intros [answers Hl] Hd. rewrite writes_to_app. simpl. rewrite app_nil_r.
  clear Hl. revert answers. induction ds as [|d0 rest IH]; intros answers; [reflexivity|].
  destruct answers as [|b bs]; [reflexivity|]. simpl.
  destruct (Dest_eqb d0 d) eqn:E.
  - apply Dest_eqb_eq in E. subst d0. exfalso. apply Hd. left. reflexivity.
  - apply IH. intros H. apply Hd. right. exact H.
Qed.

Lemma turns_no_write (ds : list Dest) (t : list Obs) :
  turns ds t -> ~ In d ds -> writes_to d t = [].
Proof.
  intros Ht Hd. induction Ht as [| |c t t' Hturn Hrest IH]; try reflexivity.
  simpl. rewrite writes_to_app, (turn_no_write ds c t Hturn Hd), IH. reflexivity.
Qed.

Lemma flow_not_piped (o : PipeOpts) (W : list chunk) (s : Stream) :
  not_piped d W s -> not_piped d W (fst (flow write o s)).
Proof.
  intros [Hp Hw].
  destruct (flow_returns write o s) as (b & r & E).
  rewrite flow_eq, E.
  destruct (flow_loop_fans_out write _ _ _ _ _ _ E) as (t & Ht & Hts).
  destruct (flow_loop_same write _ _ _ _ _ _ E) as (_ & _ & Hpr).
  change (trace (set_needDrain (needDrain s ++ [(0, o)]) s)) with (trace s) in Ht.
  change (_readableState (set_needDrain (needDrain s ++ [(0, o)]) s))
    with (_readableState s) in Hts, Hpr.
  assert (Hr : not_piped d W r).
  { split; [rewrite Hpr; exact Hp|].
    rewrite Ht, writes_to_app, (turns_no_write _ _ Hts Hp), app_nil_r. exact Hw. }
  destruct b; simpl; [exact Hr|].
  destruct (pipes (_readableState r)) eqn:Ep; simpl.
  - apply not_piped_log; [reflexivity|].
    apply (not_piped_same W r); [reflexivity | reflexivity | exact Hr].
  - apply (not_piped_same W r); [reflexivity | reflexivity | exact Hr].
Qed.

Lemma run_readable_not_piped (W : list chunk) (k : nat) :
  forall s, not_piped d W s -> not_piped d W (fst (run_readable write k s)).
Proof.
  induction k as [|k IH]; intros s H; simpl; [exact H|].
  destruct (readable_listeners s) as [|o rest]; [exact H|].
  pose proof (flow_not_piped o W (set_readable_listeners rest s)) as Hf.
  destruct (flow write o (set_readable_listeners rest s)) as [s1 threw]. simpl in Hf.
  assert (H1 : not_piped d W s1) by (apply Hf; exact H).
  destruct threw; [exact H1 | apply IH, H1].
Qed.

Lemma run_drain_not_piped (W : list chunk) (ls : list (Dest * nat)) :
  forall s, not_piped d W s -> not_piped d W (fst (run_drain write ls s)).
Proof.
  induction ls as [|l rest IH]; intros s H; simpl; [exact H|].
  unfold ondrain.
  match goal with |- context [needDrain_of (snd l) ?x =? 0] => set (s1 := x) end.
  assert (H1 : not_piped d W s1) by exact H.
  destruct (needDrain_of (snd l) s1 =? 0).
  - pose proof (flow_not_piped (pipeOpts_of (snd l) s1) W s1 H1) as Hf.
    destruct (flow write (pipeOpts_of (snd l) s1) s1) as [s2 threw]. simpl in Hf.
    destruct threw; [exact Hf | apply IH, Hf].
  - apply IH, H1.
Qed.

Lemma emit_end_not_piped (W : list chunk) (s : Stream) :
  not_piped d W s -> not_piped d W (emit_end s).
Proof.
  intros H. unfold emit_end.
  assert (H0 : not_piped d W (set_end_listeners [] (log (Emitted End_) s))).
  { apply (not_piped_same W (log (Emitted End_) s)); [reflexivity | reflexivity |].
    apply not_piped_log; [reflexivity | exact H]. }
  revert H0. generalize (set_end_listeners [] (log (Emitted End_) s)).
  induction (end_listeners s) as [|l rest IH]; intros s0 H0; simpl; [exact H0|].
  apply IH. apply not_piped_log; [reflexivity | exact H0].
Qed.

Lemma perform_not_piped (W : list chunk) (s : Stream) (e : effect) :
  not_piped d W s -> not_piped d W (perform write s e).
Proof.
  intros H. destruct e as [[| |er]|[| |er]|m| |]; simpl; try exact H.
  - apply (run_readable_not_piped W _ (log (Emitted Readable) s)).
    apply not_piped_log; [reflexivity | exact H].
  - apply emit_end_not_piped, H.
  - apply not_piped_log; [reflexivity | exact H].
Qed.

Lemma not_in_remove_first (x : Dest) (l : list Dest) :
  ~ In d l -> ~ In d (remove_first Dest_eqb x l).
Proof.
  induction l as [|y rest IH]; simpl; intros H; [exact H|].
  destruct (Dest_eqb x y); [intros Hr; apply H; right; exact Hr|].
  intros [->|Hr]; [apply H; left; reflexivity|].
  apply IH; [|exact Hr]. intros Hd. apply H. right. exact Hd.
Qed.

Lemma unpipe_not_piped (W : list chunk) (dest : option Dest) (s : Stream) :
  not_piped d W s -> not_piped d W (unpipe dest s).
Proof.
  intros H. destruct dest as [x|]; simpl.
  - destruct (existsb (Dest_eqb x) (pipes (_readableState s))); [|exact H].
    destruct H as [Hp Hw]. split; simpl.
    + apply not_in_remove_first, Hp.
    + rewrite writes_to_app, app_nil_r. exact Hw.
  - assert (Hf : forall ds s0, not_piped d W s0 ->
              not_piped d W (fold_left emit_unpipe ds s0)).
    { induction ds as [|y rest IH]; intros s0 H0; simpl; [exact H0|].
      apply IH. unfold emit_unpipe.
      apply (not_piped_same W (log (Unpiped y) s0)); [reflexivity | reflexivity |].
      apply not_piped_log; [reflexivity | exact H0]. }
    destruct (Hf (pipes (_readableState s)) s H) as [_ Hw].
    split; [simpl; intros [] | exact Hw].
Qed.

Lemma step_not_piped (W : list chunk) (s : Stream) (ev : Event) :
  pipes_to d ev = false -> not_piped d W s -> not_piped d W (step write s ev).
Proof.
  intros Hev H. destruct ev as [x o|x|n| |er c|x]; simpl.
  - simpl in Hev. destruct H as [Hp Hw]. unfold pipe.
    assert (Hin : ~ In d (pipes (_readableState s) ++ [x])).
    { intros Hi. apply in_app_or in Hi. destruct Hi as [Hi|[->|[]]]; [exact (Hp Hi)|].
      assert (Dest_eqb d d = true) by (apply Dest_eqb_eq; reflexivity). congruence. }
    destruct (_ && _ && _); destruct (negb (flowing _)); split; simpl;
      try exact Hin; rewrite writes_to_app, app_nil_r; exact Hw.
  - apply unpipe_not_piped, H.
  - pose proof (src_read_flows n s) as (Ft & _).
    pose proof (src_read_same n s) as (_ & _ & Fp).
    destruct (src_read n s) as [ret s1]. simpl in Ft, Fp.
    apply not_piped_log; [reflexivity|].
    apply (not_piped_same W s); assumption.
  - destruct (ticks s) as [|[o|] rest]; [exact H| |].
    + apply flow_not_piped.
      apply (not_piped_same W s); [reflexivity | reflexivity | exact H].
    + apply emit_end_not_piped.
      apply (not_piped_same W s); [reflexivity | reflexivity | exact H].
  - destruct (outstanding s) as [|k]; [exact H|].
    pose proof (onread_pipes Source er c (_readableState s)) as Hp.
    destruct (onread Source er c (_readableState s)) as [st e]. simpl in Hp.
    assert (H0 : not_piped d W (set_state st (set_outstanding k s)))
      by (apply (not_piped_same W s); [reflexivity | exact Hp | exact H]).
    revert H0. generalize (set_state st (set_outstanding k s)).
    induction e as [|x rest IH]; intros s0 H0; simpl; [exact H0|].
    apply IH, perform_not_piped, H0.
  - apply (run_drain_not_piped W _ (log (Drained x) s)).
    apply not_piped_log; [reflexivity | exact H].
Qed.

(** X16.  [flow] writes only to the destinations that are in [state.pipes]:
    a destination that is not in it, after [unpipe] for one, receives no
    chunk whatever happens next (ticks, answers of the producer, drains,
    reads, other calls of [pipe] and [unpipe]), until [pipe] is called with
    it again. *)
Theorem not_piped_gets_nothing (s : Stream) (evs : list Event) :
  ~ In d (pipes (_readableState s)) ->
  forallb (fun ev => negb (pipes_to d ev)) evs = true ->
  writes_to d (trace (run write evs s)) = writes_to d (trace s).
Proof.
  intros Hp Hevs.
  assert (H : not_piped d (writes_to d (trace s)) s) by (split; [exact Hp | reflexivity]).
  revert H. generalize (writes_to d (trace s)) as W. revert s Hp.
  induction evs as [|ev rest IH]; intros s Hp W H; simpl in *; [apply H|].
  apply andb_true_iff in Hevs. destruct Hevs as [Hev Hrest].
  apply negb_true_iff in Hev.
  pose proof (step_not_piped W s ev Hev H) as H1.
  apply (IH Hrest _ (proj1 H1)). exact H1.
Qed.

End NotPiped.

Lemma not_piped_gets_nothing_witness :
  writes_to (Sink 0)
    (trace (run accepting [Reply None (Some cd); Unpipe (Some (Sink 0))]
              (unpipe (Some (Sink 0))
                 (run accepting
                    [Pipe (Sink 0) None; Pipe (Sink 1) None; Tick; Tick;
                     Reply None (Some ab)]
                    (new_Readable lowWaterMark_1))))) = [ab].
Proof.
  rewrite not_piped_gets_nothing; [reflexivity | | reflexivity].
  simpl. intros [H|[]]. discriminate.
Defined.

Lemma piped_once_respects_backpressure_witness :
  respects_backpressure []
    (trace (run (refusing (Sink 0))
              [Tick; Reply None (Some ab); Reply None (Some cd); Drain (Sink 0)]
              (pipe (Sink 0) None (new_Readable lowWaterMark_1)))) = true.
Proof. apply piped_once_respects_backpressure. reflexivity. Defined.

(** ** What [unpipe] tells and removes *)

Lemma remove_first_split (d : Dest) (l : list Dest) :
  In d l ->
  exists l1 l2, l = l1 ++ d :: l2 /\ ~ In d l1 /\ remove_first Dest_eqb d l = l1 ++ l2.
Proof.
  induction l as [|y rest IH]; intros H; [contradiction|]. simpl.
  destruct (Dest_eqb d y) eqn:E.
  - apply Dest_eqb_eq in E. subst y. exists [], rest. repeat split. intros [].
  - assert (Hne : y <> d).
    { intros ->. assert (Dest_eqb d d = true) by (apply Dest_eqb_eq; reflexivity).
      congruence. }
    destruct H as [H|H]; [contradiction|].
    destruct (IH H) as (l1 & l2 & Hl & Hn & Hr).
    exists (y :: l1), l2. simpl. rewrite <- Hl, Hr. repeat split.
    intros [Hy|Hi]; [exact (Hne Hy) | exact (Hn Hi)].
Qed.

Lemma fold_emit_unpipe_trace (ds : list Dest) :
  forall s, trace (fold_left emit_unpipe ds s) = trace s ++ map Unpiped ds.
Proof.
  induction ds as [|y rest IH]; intros s; simpl; [symmetry; apply app_nil_r|].
  rewrite IH. simpl. rewrite <- app_assoc. reflexivity.
Qed.

(** X17.  [unpipe(dest)] with a destination that is not piped changes
    nothing and emits nothing.  With one that is piped, it emits ['unpipe']
    on it once and removes its first registration, the other destinations
    staying in their order.  [unpipe()] emits ['unpipe'] once on every
    piped destination, in the order of registration, and leaves none
    piped.  Neither touches the buffer, the tasks queued or the requests in
    flight. *)
Theorem unpipe_outcome (s : Stream) (d : Dest) :
  (~ In d (pipes (_readableState s)) -> unpipe (Some d) s = s) /\
  (In d (pipes (_readableState s)) ->
   trace (unpipe (Some d) s) = trace s ++ [Unpiped d] /\
   exists l1 l2,
     pipes (_readableState s) = l1 ++ d :: l2 /\ ~ In d l1 /\
     pipes (_readableState (unpipe (Some d) s)) = l1 ++ l2) /\
  trace (unpipe None s) = trace s ++ map Unpiped (pipes (_readableState s)) /\
  pipes (_readableState (unpipe None s)) = [] /\
  (forall dest,
     buffer (_readableState (unpipe dest s)) = buffer (_readableState s) /\
     ticks (unpipe dest s) = ticks s /\
     outstanding (unpipe dest s) = outstanding s /\
     readable_listeners (unpipe dest s) = readable_listeners s /\
     drain_listeners (unpipe dest s) = drain_listeners s).
Proof.
  split; [|split; [|split; [|split]]].
  - intros Hn. simpl.
    destruct (existsb (Dest_eqb d) (pipes (_readableState s))) eqn:E; [|reflexivity].
    apply existsb_exists in E. destruct E as (x & Hx & Hxd).
    apply Dest_eqb_eq in Hxd. subst x. contradiction.
  - intros Hin. simpl.
    assert (E : existsb (Dest_eqb d) (pipes (_readableState s)) = true).
    { apply existsb_exists. exists d. split; [exact Hin | apply Dest_eqb_eq; reflexivity]. }
    rewrite E. simpl. split; [reflexivity|].
    apply remove_first_split, Hin.
  - simpl. apply fold_emit_unpipe_trace.
  - reflexivity.
  - intros [x|]; simpl.
    + destruct (existsb _ _); repeat split.
    + assert (H : forall ds s0,
                buffer (_readableState (fold_left emit_unpipe ds s0))
                  = buffer (_readableState s0) /\
                ticks (fold_left emit_unpipe ds s0) = ticks s0 /\
                outstanding (fold_left emit_unpipe ds s0) = outstanding s0 /\
                readable_listeners (fold_left emit_unpipe ds s0) = readable_listeners s0 /\
                drain_listeners (fold_left emit_unpipe ds s0) = drain_listeners s0).
      { induction ds as [|y rest IH]; intros s0; simpl; [repeat split|].
        destruct (IH (emit_unpipe s0 y)) as (A & B & C & D & E).
        rewrite A, B, C, D, E. repeat split. }
      apply H.
Qed.

Lemma unpipe_outcome_witness :
  trace (unpipe (Some (Sink 1)) two_pipes) = trace two_pipes ++ [Unpiped (Sink 1)] /\
  unpipe (Some (Sink 7)) two_pipes = two_pipes.
Proof.
  destruct (unpipe_outcome two_pipes (Sink 1)) as (_ & H1 & _).
  destruct (unpipe_outcome two_pipes (Sink 7)) as (H7 & _).
  split.
  - apply H1. simpl. right. left. reflexivity.
  - apply H7. simpl. intros [H|[H|[]]]; discriminate.
Defined.

(** ** A stream that keeps the default [_read] *)

Section Unimplemented.

Variable write : list Obs -> Dest -> chunk -> bool.

Lemma read_when_idle (n : option Z) (st : ReadableState) :
  length st = 0 -> ended st = false -> reading st = false -> 0 < lowWaterMark st ->
  fst (fst (read Source n st)) = None /\
  snd (read Source n st) = [Call_read (bufferSize st)] /\
  length (snd (fst (read Source n st))) = 0 /\
  buffer (snd (fst (read Source n st))) = buffer st /\
  ended (snd (fst (read Source n st))) = false /\
  lowWaterMark (snd (fst (read Source n st))) = lowWaterMark st.
Proof.
  intros Hl He Hr Hw.
  assert (Hlw : (0 <? lowWaterMark st) = true) by (apply Z.ltb_lt; exact Hw).
  assert (Hq : requested n st = 0 \/ (0 <? requested n st) = true).
  { unfold requested. rewrite Hl. destruct n as [k|]; [|left; reflexivity].
    destruct (k <=? 0) eqn:E; [left; reflexivity|].
    right. apply Z.ltb_lt. apply Z.leb_gt in E. exact E. }
  unfold read, granted, take, prefetch. rewrite Hl, He. simpl.
  destruct Hq as [Hq|Hq]; rewrite Hq; simpl; rewrite ?Hlw; simpl;
    rewrite ?Hl, ?He, ?Hr; simpl; rewrite ?Hlw; simpl; repeat split; assumption.
Qed.

Lemma read_then_error (n : option Z) (s : Stream) :
  idle s ->
  idle (step write (step write s (Read n)) default__read) /\
  trace (step write (step write s (Read n)) default__read)
  = trace s ++ [UserRead None; Emitted (Error NotImplemented)].
Proof.
  intros (Hl & Hb & He & Hr & Hw & Ho).
  destruct (read_when_idle n (_readableState s) Hl He Hr Hw)
    as (R1 & R2 & R3 & R4 & R5 & R6).
  assert (H1 : step write s (Read n)
               = log (UserRead None)
                   (set_outstanding 1 (set_state (snd (fst (read Source n (_readableState s)))) s))).
  { unfold step, src_read.
    destruct (read Source n (_readableState s)) as [[ret st'] e].
    cbn [fst snd] in R1, R2 |- *. subst ret e. simpl. rewrite Ho. reflexivity. }
  rewrite H1.
  generalize dependent (snd (fst (read Source n (_readableState s)))).
  intros st' R3 R4 R5 R6 _.
  unfold idle. simpl. rewrite R3, R4, R5, R6, <- app_assoc.
  repeat split; assumption.
Qed.

(** X18.  A stream on which nothing overrides [_read]: with an empty buffer
    and the default [lowWaterMark] (any positive one), every [read], with any
    size, returns no data and has ['error'] emitted with "not implemented"
    on the next turn; the stream never ends and never holds data. *)
Theorem default_read_is_not_implemented (options : option Options)
  (ns : list (option Z)) :
  0 < lowWaterMark (new_ReadableState options) ->
  let s := read_unimplemented write ns (new_Readable options) in
  trace s = flat_map (fun _ => [UserRead None; Emitted (Error NotImplemented)]) ns /\
  ended (_readableState s) = false /\
  buffer (_readableState s) = [] /\
  outstanding s = 0%nat.
Proof.
  intros Hw. cbv zeta.
  assert (H : forall s, idle s ->
            idle (read_unimplemented write ns s) /\
            trace (read_unimplemented write ns s) =
              trace s ++ flat_map (fun _ => [UserRead None; Emitted (Error NotImplemented)]) ns).
  { induction ns as [|n rest IH]; intros s Hs;
      cbn [read_unimplemented flat_map].
    - split; [exact Hs | symmetry; apply app_nil_r].
    - destruct (read_then_error n s Hs) as [Hi Ht].
      destruct (IH _ Hi) as [Hi' Ht']. split; [exact Hi'|].
      rewrite Ht', Ht, <- app_assoc. reflexivity. }
  destruct (H (new_Readable options)) as [(_ & Hb & He & _ & _ & Ho) Ht].
  { unfold idle. simpl. repeat split. exact Hw. }
  repeat split; assumption.
Qed.

End Unimplemented.

Lemma default_read_is_not_implemented_witness :
  trace (read_unimplemented accepting [None; Some 5] (new_Readable None)) =
    [UserRead None; Emitted (Error NotImplemented);
     UserRead None; Emitted (Error NotImplemented)].
Proof.
  destruct (default_read_is_not_implemented accepting None [None; Some 5]) as [H _].
  - reflexivity.
  - exact H.
Defined.

(** ** The wrapper of an old-style stream: pause, resume and the data *)

Lemma pause_resume_app (e1 e2 : list effect) (p q : bool) :
  pause_resume p e1 = Some q -> pause_resume p (e1 ++ e2) = pause_resume q e2.
Proof.
  revert p. induction e1 as [|x rest IH]; intros p H; simpl in *.
  - inversion H. reflexivity.
  - destruct x as [ev|ev|m| |]; try (apply IH; exact H);
      destruct p; try discriminate; apply IH; exact H.
Qed.

Lemma wrap_op_pause_resume (g : option bool) (w : Wrap.Wrapped) (op : WrapOp) :
  pause_resume (Wrap.paused w) (snd (wrap_op g w op))
  = Some (Wrap.paused (fst (wrap_op g w op))).
Proof.
  destruct op as [c| |n]; simpl.
  - unfold Wrap.on_data, Wrap.no_listener. cbn [Wrap.state Wrap.paused].
    destruct (_ <? _); simpl; [|reflexivity].
    destruct (Wrap.paused w) eqn:E; simpl; rewrite ?E; reflexivity.
  - destruct (_ =? _); reflexivity.
  - unfold Wrap.read.
    destruct (length (Wrap.state w) =? 0); [reflexivity|].
    destruct ((_ <? _) && negb _); [reflexivity|].
    destruct (fromList _ _ _) as [ret q]. cbn [Wrap.state Wrap.paused].
    destruct (_ <? _); simpl.
    + destruct (Wrap.paused w) eqn:E; simpl;
        destruct (_ =? 0); try destruct g as [[|]|]; simpl; rewrite ?E; reflexivity.
    + destruct (_ =? 0); try destruct g as [[|]|]; reflexivity.
Qed.

(** X19.  The wrapper of an old-style stream calls [pause] and [resume] of
    the wrapped stream in turn, whatever the wrapped stream emits and the
    consumer reads: it never pauses a stream it has paused and never resumes
    one it has not, and its variable [paused] says which call came last. *)
Theorem wrap_pauses_and_resumes_in_turn (global_ended : option bool)
  (ops : list WrapOp) (w : Wrap.Wrapped) :
  pause_resume (Wrap.paused w) (snd (wrap_ops global_ended ops w))
  = Some (Wrap.paused (fst (wrap_ops global_ended ops w))).
Proof.
  revert w. induction ops as [|op rest IH]; intros w; simpl; [reflexivity|].
  pose proof (wrap_op_pause_resume global_ended w op) as H1.
  destruct (wrap_op global_ended w op) as [w1 e1]. simpl in H1.
  specialize (IH w1).
  destruct (wrap_ops global_ended rest w1) as [w2 e2]. simpl in *.
  rewrite (pause_resume_app e1 e2 _ _ H1). exact IH.
Qed.

Lemma wrap_op_paused_when_full (g : option bool) (w : Wrap.Wrapped) (op : WrapOp) :
  0 <= length (Wrap.state w) /\ paused_when_full w ->
  0 <= length (Wrap.state (fst (wrap_op g w op))) /\
  paused_when_full (fst (wrap_op g w op)).
Proof.
  unfold paused_when_full. intros (H0 & H1 & H2).
  destruct op as [c| |n]; simpl.
  - unfold Wrap.on_data, Wrap.no_listener. cbn [Wrap.state Wrap.paused].
    assert (Hc : 0 <= chunk_length c) by (unfold chunk_length; lia).
    destruct (_ <? _) eqn:E; simpl in E |- *.
    + apply Z.ltb_lt in E. destruct (Wrap.paused w) eqn:Ep; simpl.
      * repeat split; lia.
      * repeat split; lia.
    + apply Z.ltb_ge in E. repeat split; try lia. intros Hp. specialize (H2 Hp). lia.
  - repeat split; assumption.
  - unfold Wrap.read.
    destruct (length (Wrap.state w) =? 0) eqn:E0; [simpl; repeat split; assumption|].
    destruct ((_ <? _) && negb _); [simpl; repeat split; assumption|].
    apply Z.eqb_neq in E0.
    assert (Hn : 0 < (if length (Wrap.state w) <? requested n (Wrap.state w)
                      then length (Wrap.state w) else requested n (Wrap.state w))
                 <= length (Wrap.state w)).
    { destruct (_ <? _) eqn:E; [lia|]. apply Z.ltb_ge in E.
      split; [|exact E]. unfold requested in *.
      destruct n as [k|]; [|lia]. destruct (k <=? 0) eqn:Ek; [lia|].
      apply Z.leb_gt in Ek. exact Ek. }
    revert Hn. generalize (if length (Wrap.state w) <? requested n (Wrap.state w)
                           then length (Wrap.state w) else requested n (Wrap.state w)).
    intros m Hm.
    destruct (fromList _ _ _) as [ret q]. cbn [Wrap.state Wrap.paused].
    assert (R : forall (x : Wrap.completion (option chunk) * Wrap.Wrapped * list effect)
                  (w' : Wrap.Wrapped),
              snd (fst x) = w' ->
              (0 <= length (Wrap.state w') /\
               (lowWaterMark (Wrap.state w') < length (Wrap.state w') -> Wrap.paused w' = true) /\
               (Wrap.paused w' = true -> lowWaterMark (Wrap.state w') <= length (Wrap.state w'))) ->
              0 <= length (Wrap.state (fst (let '(_, w'0, e) := x in (w'0, e)))) /\
              (lowWaterMark (Wrap.state (fst (let '(_, w'0, e) := x in (w'0, e))))
               < length (Wrap.state (fst (let '(_, w'0, e) := x in (w'0, e)))) ->
               Wrap.paused (fst (let '(_, w'0, e) := x in (w'0, e))) = true) /\
              (Wrap.paused (fst (let '(_, w'0, e) := x in (w'0, e))) = true ->
               lowWaterMark (Wrap.state (fst (let '(_, w'0, e) := x in (w'0, e))))
               <= length (Wrap.state (fst (let '(_, w'0, e) := x in (w'0, e)))))).
    { intros [[r w''] e] w' <- H. exact H. }
    destruct ((_ <? _) && Wrap.paused w) eqn:E; simpl in E.
    + apply andb_prop in E. destruct E as [E Ep]. apply Z.ltb_lt in E.
      apply (R _ {| Wrap.state := set_length (length (Wrap.state w) - m)
                                    (set_buffer q (Wrap.state w));
                    Wrap.paused := false |}).
      * destruct (_ =? 0); [destruct g as [[|]|]|]; reflexivity.
      * simpl. repeat split; try lia; discriminate.
    + apply (R _ {| Wrap.state := set_length (length (Wrap.state w) - m)
                                    (set_buffer q (Wrap.state w));
                    Wrap.paused := Wrap.paused w |}).
      * destruct (_ =? 0); [destruct g as [[|]|]|]; reflexivity.
      * simpl. apply andb_false_iff in E. repeat split; try lia.
        -- intros Hl. apply H1. lia.
        -- intros Hp. destruct E as [E|E]; [|congruence].
           apply Z.ltb_ge in E. exact E.
Qed.

(** X20.  The wrapper of an old-style stream with a positive [lowWaterMark]
    keeps the wrapped stream paused whenever more than [lowWaterMark] is
    buffered, and paused only while at least [lowWaterMark] is buffered,
    whatever the wrapped stream emits and the consumer reads. *)
Theorem wrap_paused_when_full (global_ended : option bool)
  (options : option Options) (ops : list WrapOp) :
  0 < lowWaterMark (new_ReadableState options) ->
  paused_when_full
    (fst (wrap_ops global_ended ops (Wrap.wrap (new_ReadableState options)))).
Proof.
  intros Hw.
  assert (H : forall w, 0 <= length (Wrap.state w) /\ paused_when_full w ->
            0 <= length (Wrap.state (fst (wrap_ops global_ended ops w))) /\
            paused_when_full (fst (wrap_ops global_ended ops w))).
  { induction ops as [|op rest IH]; intros w Hi; simpl; [exact Hi|].
    pose proof (wrap_op_paused_when_full global_ended w op Hi) as H1.
    destruct (wrap_op global_ended w op) as [w1 e1]. simpl in H1.
    specialize (IH w1 H1).
    destruct (wrap_ops global_ended rest w1) as [w2 e2]. exact IH. }
  apply H. unfold paused_when_full. revert Hw. simpl. intros Hw.
  repeat split; try lia; discriminate.
Qed.

Lemma wrap_paused_when_full_witness :
  paused_when_full
    (fst (wrap_ops None [Wrap_data ab; Wrap_read (Some 1); Wrap_end]
            (Wrap.wrap (new_ReadableState lowWaterMark_1)))).
Proof.
  apply (wrap_paused_when_full None lowWaterMark_1
           [Wrap_data ab; Wrap_read (Some 1); Wrap_end]).
  reflexivity.
Defined.

Lemma wrap_op_conserves (b : bool) (w : Wrap.Wrapped) (op : WrapOp) :
  List.concat (buffer (Wrap.state w)) ++ wrap_taken_in op
  = wrap_handed_out (Some b) w op
    ++ List.concat (buffer (Wrap.state (fst (wrap_op (Some b) w op)))).
Proof.
  destruct op as [c| |n]; simpl.
  - unfold Wrap.on_data, Wrap.no_listener. cbn [Wrap.state Wrap.paused].
    destruct (_ && _); simpl; rewrite concat_app; simpl; rewrite app_nil_r; reflexivity.
  - apply app_nil_r.
  - unfold Wrap.read.
    destruct (length (Wrap.state w) =? 0); [simpl; apply app_nil_r|].
    destruct ((_ <? _) && negb _); [simpl; apply app_nil_r|].
    match goal with |- context [fromList ?m ?q ?l] =>
      pose proof (take_front_concat q (Z.to_nat m)) as Hc;
      change (take_front (Z.to_nat m) q) with (fromList m q l) in Hc;
      destruct (fromList m q l) as [ret q'] end.
    simpl in Hc.
    destruct ((_ <? _) && Wrap.paused w); destruct (_ =? 0); destruct b; simpl;
      rewrite app_nil_r; symmetry; exact Hc.
Qed.

(** X21.  The wrapper of an old-style stream, where a global [ended] exists
    so that its [read] returns: the data the wrapped stream emitted is the
    data the reads returned followed by the data still buffered; nothing is
    lost, doubled or reordered. *)
Theorem wrap_data_in_is_data_out (b : bool) (options : option Options)
  (ops : list WrapOp) :
  let w0 := Wrap.wrap (new_ReadableState options) in
  List.concat (map wrap_taken_in ops)
  = wrap_all_handed_out (Some b) ops w0
    ++ List.concat (buffer (Wrap.state (fst (wrap_ops (Some b) ops w0)))).
Proof.
  cbv zeta.
  assert (H : forall w,
            List.concat (buffer (Wrap.state w)) ++ List.concat (map wrap_taken_in ops)
            = wrap_all_handed_out (Some b) ops w
              ++ List.concat (buffer (Wrap.state (fst (wrap_ops (Some b) ops w))))).
  { induction ops as [|op rest IH]; intros w.
    - simpl. apply app_nil_r.
    - cbn [map List.concat wrap_all_handed_out wrap_ops].
      pose proof (wrap_op_conserves b w op) as H1.
      specialize (IH (fst (wrap_op (Some b) w op))).
      destruct (wrap_op (Some b) w op) as [w1 e1]. cbn [fst] in *.
      destruct (wrap_ops (Some b) rest w1) as [w2 e2]. cbn [fst] in *.
      rewrite app_assoc, H1, <- !app_assoc, IH. reflexivity. }
  exact (H (Wrap.wrap (new_ReadableState options))).
Qed.

(** ** The adapter for consumers of ['data'] events *)

Section OldModeLoop.

Variable pauses : chunk -> bool.

Lemma data_events_app (o1 o2 : list OldMode.Out) :
  OldMode.data_events (o1 ++ o2) = OldMode.data_events o1 ++ OldMode.data_events o2.
Proof. apply flat_map_app. Qed.

Lemma data_events_core (e : list effect) :
  OldMode.data_events (map OldMode.Core e) = [].
Proof. induction e as [|x rest IH]; simpl; [reflexivity | exact IH]. Qed.

(** With more fuel than units buffered the loop returns; the listener gives
    it one more than that. *)
Lemma old_loop_returns (fuel : nat) :
  forall p st, (Z.to_nat (length st) < fuel)%nat ->
    exists r p' st' out, OldMode.loop pauses fuel p st = Some (r, p', st', out).
Proof.
  induction fuel as [|fuel IH]; intros p st Hf; [lia|]. simpl.
  destruct p; [eauto|].
  destruct (read Source None st) as [[c st1] e] eqn:Er.
  destruct c as [c|]; [|eauto].
  apply read_some_decreases in Er.
  destruct (IH (pauses c) st1) as (r & p' & st' & out & H); [lia|].
  rewrite H. eauto.
Qed.

Lemma old_loop_conserves (fuel : nat) :
  forall p st r p' st' out,
    consistent st -> OldMode.loop pauses fuel p st = Some (r, p', st', out) ->
    consistent st' /\
    List.concat (OldMode.data_events out) ++ List.concat (buffer st')
    = List.concat (buffer st).
Proof.
  induction fuel as [|fuel IH]; intros p st r p' st' out Hc H; [discriminate|].
  simpl in H. destruct p.
  - inversion H; subst. split; [exact Hc | reflexivity].
  - pose proof (read_consistent Source None st Hc) as Hc1.
    pose proof (read_conserves Source None st Hc) as Hd.
    destruct (read Source None st) as [[c st1] e]. cbn [fst snd] in Hc1, Hd.
    destruct c as [c|].
    + destruct (OldMode.loop pauses fuel (pauses c) st1)
        as [[[[r2 p2] st2] out2]|] eqn:El; [|discriminate].
      inversion H; subst.
      destruct (IH _ _ _ _ _ _ Hc1 El) as [Hc2 Hd2].
      split; [exact Hc2|].
      rewrite data_events_app, data_events_core. simpl.
      rewrite <- app_assoc, Hd2. exact Hd.
    + inversion H; subst. rewrite data_events_core.
      split; [exact Hc1 | exact Hd].
Qed.

Lemma on_readable_conserves (o : OldMode.Old) :
  consistent (OldMode.state o) ->
  consistent (OldMode.state (fst (OldMode.on_readable pauses o))) /\
  List.concat (OldMode.data_events (snd (OldMode.on_readable pauses o)))
  ++ List.concat (buffer (OldMode.state (fst (OldMode.on_readable pauses o))))
  = List.concat (buffer (OldMode.state o)).
Proof.
  intros Hc. unfold OldMode.on_readable.
  destruct (OldMode.loop pauses _ (OldMode.paused o) (OldMode.state o))
    as [[[[r p] st] out]|] eqn:El.
  - destruct (old_loop_conserves _ _ _ _ _ _ _ Hc El) as [Hc' Hd].
    destruct r; simpl; split; assumption.
  - simpl. split; [exact Hc | reflexivity].
Qed.

Lemma old_perform_conserves (e : list effect) :
  forall acc,
    consistent (OldMode.state (fst acc)) ->
    consistent (OldMode.state (fst (fold_left (OldMode.perform pauses) e acc))) /\
    List.concat (OldMode.data_events (snd (fold_left (OldMode.perform pauses) e acc)))
    ++ List.concat (buffer (OldMode.state (fst (fold_left (OldMode.perform pauses) e acc))))
    = List.concat (OldMode.data_events (snd acc))
      ++ List.concat (buffer (OldMode.state (fst acc))).
Proof.
  induction e as [|x rest IH]; intros acc Hc; [split; [exact Hc | reflexivity]|].
  cbn [fold_left].
  assert (H : consistent (OldMode.state (fst (OldMode.perform pauses acc x))) /\
              List.concat (OldMode.data_events (snd (OldMode.perform pauses acc x)))
              ++ List.concat (buffer (OldMode.state (fst (OldMode.perform pauses acc x))))
              = List.concat (OldMode.data_events (snd acc))
                ++ List.concat (buffer (OldMode.state (fst acc)))).
  { assert (Hk : consistent (OldMode.state (fst (fst acc, snd acc ++ [OldMode.Core x]))) /\
                 List.concat (OldMode.data_events (snd (fst acc, snd acc ++ [OldMode.Core x])))
                 ++ List.concat (buffer (OldMode.state (fst (fst acc, snd acc ++ [OldMode.Core x]))))
                 = List.concat (OldMode.data_events (snd acc))
                   ++ List.concat (buffer (OldMode.state (fst acc)))).
    { simpl. rewrite data_events_app. simpl. rewrite app_nil_r.
      split; [exact Hc | reflexivity]. }
    destruct x as [[| |er]|ev|m| |]; try exact Hk.
    unfold OldMode.perform.
    destruct (on_readable_conserves (fst acc) Hc) as [Hc' Hd].
    destruct (OldMode.on_readable pauses (fst acc)) as [o' out']. simpl in *.
    split; [exact Hc'|].
    rewrite data_events_app. simpl. rewrite concat_app, <- app_assoc, Hd.
    reflexivity. }
  destruct H as [Hc1 Hd1].
  destruct (IH _ Hc1) as [Hc2 Hd2]. split; [exact Hc2|].
  rewrite Hd2. exact Hd1.
Qed.

Lemma old_step_conserves (o : OldMode.Old) (ev : OldMode.Event) :
  consistent (OldMode.state o) ->
  consistent (OldMode.state (fst (OldMode.step pauses o ev))) /\
  List.concat (OldMode.data_events (snd (OldMode.step pauses o ev)))
  ++ List.concat (buffer (OldMode.state (fst (OldMode.step pauses o ev))))
  = List.concat (buffer (OldMode.state o)) ++ OldMode.answered ev.
Proof.
  intros Hc. destruct ev as [|er c| |]; cbn [OldMode.step OldMode.answered].
  - rewrite app_nil_r. apply on_readable_conserves, Hc.
  - pose proof (onread_consistent Source er c _ Hc) as Hc1.
    pose proof (apply_op_conserves _ (Op_onread Source er c) Hc) as Hd.
    cbn [handed_out apply_op app] in Hd.
    destruct (onread Source er c (OldMode.state o)) as [st e]. cbn [fst] in Hc1, Hd.
    destruct (old_perform_conserves e
                ({| OldMode.state := st; OldMode.paused := OldMode.paused o;
                    OldMode.readable := OldMode.readable o |}, []) Hc1) as [Hc2 Hd2].
    split; [exact Hc2|]. rewrite Hd2. simpl. rewrite Hd.
    destruct er; [reflexivity|]. destruct c; reflexivity.
  - simpl. rewrite app_nil_r. split; [exact Hc | reflexivity].
  - rewrite app_nil_r. unfold OldMode.resume. cbn [OldMode.readable].
    destruct (OldMode.readable o).
    + apply (on_readable_conserves
               {| OldMode.state := OldMode.state o; OldMode.paused := false;
                  OldMode.readable := true |}), Hc.
    + simpl. split; [exact Hc | reflexivity].
Qed.

(** X22.  A stream switched to old mode loses nothing: whatever the
    producer answers and however the consumer pauses and resumes, the data
    that was buffered at the switch followed by the data the producer handed
    over is the data of the ['data'] events, in their order, followed by
    the data still buffered. *)
Theorem old_mode_loses_nothing (st : ReadableState) (o : OldMode.Old)
  (e : list effect) (evs : list OldMode.Event) :
  consistent st -> OldMode.emitDataEvents st = OldMode.Switched_to o e ->
  List.concat (OldMode.data_events (snd (OldMode.run pauses evs o)))
  ++ List.concat (buffer (OldMode.state (fst (OldMode.run pauses evs o))))
  = List.concat (buffer st) ++ List.concat (map OldMode.answered evs).
Proof.
  intros Hc Hs.
  assert (Ho : OldMode.state o = st).
  { unfold OldMode.emitDataEvents in Hs. destruct (flowing st); [discriminate|].
    inversion Hs. reflexivity. }
  rewrite <- Ho in Hc |- *. clear Ho Hs.
  revert o Hc. induction evs as [|ev rest IH]; intros o Hc.
  - simpl. rewrite app_nil_r. reflexivity.
  - cbn [OldMode.run map List.concat].
    destruct (old_step_conserves o ev Hc) as [Hc1 Hd1].
    destruct (OldMode.step pauses o ev) as [o1 out1]. cbn [fst snd] in Hc1, Hd1.
    specialize (IH o1 Hc1).
    destruct (OldMode.run pauses rest o1) as [o2 out2]. cbn [fst snd] in IH |- *.
    rewrite data_events_app, concat_app, <- app_assoc, IH, !app_assoc, Hd1.
    reflexivity.
Qed.

End OldModeLoop.

Lemma old_mode_loses_nothing_witness :
  List.concat (OldMode.data_events
    (snd (OldMode.run OldMode.never
            [OldMode.Emit_readable; OldMode.Answer None (Some ab); OldMode.Call_pause;
             OldMode.Answer None (Some cd); OldMode.Call_resume]
            {| OldMode.state := new_ReadableState None; OldMode.paused := false;
               OldMode.readable := false |})))
  ++ List.concat (buffer (OldMode.state
    (fst (OldMode.run OldMode.never
            [OldMode.Emit_readable; OldMode.Answer None (Some ab); OldMode.Call_pause;
             OldMode.Answer None (Some cd); OldMode.Call_resume]
            {| OldMode.state := new_ReadableState None; OldMode.paused := false;
               OldMode.readable := false |}))))
  = ab ++ cd.
Proof.
  apply (old_mode_loses_nothing OldMode.never (new_ReadableState None) _
           [NextTick Readable]
           [OldMode.Emit_readable; OldMode.Answer None (Some ab); OldMode.Call_pause;
            OldMode.Answer None (Some cd); OldMode.Call_resume]).
  - reflexivity.
  - reflexivity.
Defined.

Section OldModePause.

Variable pauses : chunk -> bool.

Lemma on_readable_paused (o : OldMode.Old) :
  OldMode.paused o = true ->
  OldMode.on_readable pauses o
  = ({| OldMode.state := OldMode.state o; OldMode.paused := true;
        OldMode.readable := true |}, []).
Proof. intros H. unfold OldMode.on_readable. rewrite H. reflexivity. Qed.

Lemma fold_perform_paused (e : list effect) :
  forall st rd out,
    fold_left (OldMode.perform pauses) e
      ({| OldMode.state := st; OldMode.paused := true; OldMode.readable := rd |}, out)
    = ({| OldMode.state := st; OldMode.paused := true;
          OldMode.readable := rd || existsb is_emit_readable e |},
       out ++ map OldMode.Core e).
Proof.
  induction e as [|x rest IH]; intros st rd out.
  - simpl. rewrite orb_false_r, app_nil_r. reflexivity.
  - cbn [fold_left].
    assert (H : OldMode.perform pauses
                  ({| OldMode.state := st; OldMode.paused := true;
                      OldMode.readable := rd |}, out) x
                = ({| OldMode.state := st; OldMode.paused := true;
                      OldMode.readable := rd || is_emit_readable x |},
                   out ++ [OldMode.Core x])).
    { destruct x as [[| |er]|ev|m| |]; simpl; rewrite ?orb_false_r, ?orb_true_r;
        reflexivity. }
    rewrite H, IH. simpl. rewrite <- app_assoc, orb_assoc. reflexivity.
Qed.

Lemma old_step_paused (o : OldMode.Old) (ev : OldMode.Event) :
  OldMode.paused o = true -> OldMode.is_resume ev = false ->
  OldMode.data_events (snd (OldMode.step pauses o ev)) = [] /\
  OldMode.paused (fst (OldMode.step pauses o ev)) = true /\
  (OldMode.readable o = true ->
   OldMode.readable (fst (OldMode.step pauses o ev)) = true).
Proof.
  intros Hp Hr. destruct ev as [|er c| |]; cbn [OldMode.step].
  - rewrite (on_readable_paused o Hp). simpl. repeat split.
  - destruct (onread Source er c (OldMode.state o)) as [st e].
    rewrite Hp, fold_perform_paused. simpl. rewrite data_events_core.
    repeat split. intros ->. reflexivity.
  - simpl. repeat split. intros H. exact H.
  - discriminate.
Qed.

Lemma old_run_paused (evs : list OldMode.Event) :
  forall o,
    OldMode.paused o = true ->
    forallb (fun ev => negb (OldMode.is_resume ev)) evs = true ->
    OldMode.data_events (snd (OldMode.run pauses evs o)) = [] /\
    OldMode.paused (fst (OldMode.run pauses evs o)) = true /\
    (OldMode.readable o = true ->
     OldMode.readable (fst (OldMode.run pauses evs o)) = true).
Proof.
  induction evs as [|ev rest IH]; intros o Hp Hn.
  - simpl. repeat split; [exact Hp | intros H; exact H].
  - simpl in Hn. apply andb_prop in Hn. destruct Hn as [Hev Hn].
    apply negb_true_iff in Hev.
    destruct (old_step_paused o ev Hp Hev) as (Hd1 & Hp1 & Hr1).
    cbn [OldMode.run].
    destruct (OldMode.step pauses o ev) as [o1 out1]. cbn [fst snd] in Hd1, Hp1, Hr1.
    destruct (IH o1 Hp1 Hn) as (Hd2 & Hp2 & Hr2).
    destruct (OldMode.run pauses rest o1) as [o2 out2]. cbn [fst snd] in *.
    rewrite data_events_app, Hd1, Hd2.
    repeat split; [exact Hp2 | intros H; apply Hr2, Hr1, H].
Qed.

(** X23.  A call of [pause] is honoured at once: as long as the consumer
    does not call [resume], no ['data'] event is emitted, whatever the
    producer answers and however often ['readable'] is emitted. *)
Theorem old_mode_paused_is_silent (o : OldMode.Old) (evs : list OldMode.Event) :
  forallb (fun ev => negb (OldMode.is_resume ev)) evs = true ->
  OldMode.data_events
    (snd (OldMode.run pauses (OldMode.Call_pause :: evs) o)) = [] /\
  OldMode.paused (fst (OldMode.run pauses (OldMode.Call_pause :: evs) o)) = true.
Proof.
  intros Hn. cbn [OldMode.run OldMode.step].
  assert (H : forall o', OldMode.paused o' = true ->
            OldMode.data_events (snd (OldMode.run pauses evs o')) = [] /\
            OldMode.paused (fst (OldMode.run pauses evs o')) = true).
  { clear o. induction evs as [|ev rest IH]; intros o Hp.
    - simpl. split; [reflexivity | exact Hp].
    - simpl in Hn. apply andb_prop in Hn. destruct Hn as [Hev Hn].
      apply negb_true_iff in Hev.
      destruct (old_step_paused o ev Hp Hev) as (Hd1 & Hp1 & _).
      cbn [OldMode.run].
      destruct (OldMode.step pauses o ev) as [o1 out1]. cbn [fst snd] in Hd1, Hp1.
      destruct (IH Hn o1 Hp1) as (Hd2 & Hp2).
      destruct (OldMode.run pauses rest o1) as [o2 out2]. cbn [fst snd] in *.
      rewrite data_events_app, Hd1, Hd2. split; [reflexivity | exact Hp2]. }
  destruct (H (OldMode.pause o)) as [Hd Hp]; [reflexivity|].
  destruct (OldMode.run pauses evs (OldMode.pause o)) as [o2 out2].
  cbn [fst snd] in *. split; [exact Hd | exact Hp].
Qed.

Lemma read_everything (p : Producer) (state : ReadableState) :
  consistent state -> 0 < length state ->
  fst (fst (read p None state)) = Some (List.concat (buffer state)) /\
  List.concat (buffer (snd (fst (read p None state)))) = [] /\
  length (snd (fst (read p None state))) = 0.
Proof.
  intros Hc HL.
  assert (E0 : (length state =? 0) && ended state = false).
  { apply andb_false_iff. left. apply Z.eqb_neq. lia. }
  destruct (read p None state) as [[ret st'] e] eqn:Hr.
  destruct (read_amount p None state ret st' e Hc E0 Hr) as (Hm & Hret & Hb & Hl).
  assert (Hg : fst (granted (requested None state) state) = length state).
  { unfold requested, granted. rewrite Z.ltb_irrefl. reflexivity. }
  rewrite Hg in Hret, Hb, Hl.
  assert (Hlen : Z.to_nat (length state) = List.length (List.concat (buffer state))).
  { rewrite Hc, total_concat. apply Nat2Z.id. }
  apply Z.ltb_lt in HL. rewrite HL in Hret.
  rewrite Hlen, firstn_all in Hret. rewrite Hlen, skipn_all in Hb.
  cbn [fst snd]. repeat split; [exact Hret | exact Hb | lia].
Qed.

Lemma read_nothing (p : Producer) (state : ReadableState) :
  consistent state -> length state = 0 ->
  fst (fst (read p None state)) = None /\
  List.concat (buffer (snd (fst (read p None state)))) = [].
Proof.
  intros Hc HL.
  pose proof (read_conserves p None state Hc) as Hd.
  assert (Hb : List.concat (buffer state) = []).
  { apply concat_nil_of_total. rewrite <- Hc. exact HL. }
  destruct (read p None state) as [[ret st'] e] eqn:Hr. cbn [fst snd] in *.
  destruct ret as [c|].
  - apply read_some_decreases in Hr. lia.
  - split; [reflexivity|]. rewrite Hb in Hd. exact Hd.
Qed.

(** The loop, entered not paused with data buffered, emits all of it as one
    chunk. *)
Lemma old_loop_delivers (fuel : nat) (st : ReadableState) :
  consistent st -> 0 < length st -> (Z.to_nat (length st) < fuel)%nat ->
  exists r p' st' out,
    OldMode.loop pauses fuel false st = Some (r, p', st', out) /\
    OldMode.data_events out = [List.concat (buffer st)] /\
    List.concat (buffer st') = [].
Proof.
  intros Hc HL Hf.
  destruct fuel as [|[|fuel]]; try lia.
  destruct (read_everything Source st Hc HL) as (Hr & Hb & Hl).
  pose proof (read_consistent Source None st Hc) as Hc1.
  cbn [OldMode.loop].
  destruct (read Source None st) as [[ret st1] e1]. cbn [fst snd] in Hr, Hb, Hl, Hc1.
  subst ret.
  destruct (pauses (List.concat (buffer st))).
  - exists false, true, st1, (map OldMode.Core e1 ++ [OldMode.EmitData (List.concat (buffer st))]).
    repeat split; [|exact Hb].
    rewrite data_events_app, data_events_core. reflexivity.
  - destruct (read_nothing Source st1 Hc1 Hl) as (Hr2 & Hb2).
    destruct (read Source None st1) as [[ret2 st2] e2]. cbn [fst snd] in Hr2, Hb2.
    subst ret2.
    exists true, false, st2,
      (map OldMode.Core e1 ++ OldMode.EmitData (List.concat (buffer st)) :: map OldMode.Core e2).
    repeat split; [|exact Hb2].
    rewrite data_events_app, data_events_core. simpl. rewrite data_events_core.
    reflexivity.
Qed.

Lemma on_readable_delivers (o : OldMode.Old) :
  consistent (OldMode.state o) -> 0 < length (OldMode.state o) ->
  OldMode.paused o = false ->
  OldMode.data_events (snd (OldMode.on_readable pauses o))
  = [List.concat (buffer (OldMode.state o))] /\
  List.concat (buffer (OldMode.state (fst (OldMode.on_readable pauses o)))) = [].
Proof.
  intros Hc HL Hp. unfold OldMode.on_readable. rewrite Hp.
  destruct (old_loop_delivers (S (Z.to_nat (length (OldMode.state o)))) _ Hc HL)
    as (r & p' & st' & out & El & Hd & Hb); [lia|].
  rewrite El. destruct r; simpl; split; assumption.
Qed.

(** X24.  When ['readable'] is emitted on a stream in old mode that is not
    paused and has data buffered, all of that data is emitted at once, in
    one ['data'] event, and nothing is left in the buffer. *)
Theorem old_mode_delivers_all (o : OldMode.Old) :
  consistent (OldMode.state o) -> 0 < length (OldMode.state o) ->
  OldMode.paused o = false ->
  OldMode.data_events (snd (OldMode.step pauses o OldMode.Emit_readable))
  = [List.concat (buffer (OldMode.state o))] /\
  List.concat
    (buffer (OldMode.state (fst (OldMode.step pauses o OldMode.Emit_readable)))) = [].
Proof.
  intros Hc HL Hp. cbn [OldMode.step].
  unfold OldMode.on_readable. rewrite Hp.
  destruct (old_loop_delivers (S (Z.to_nat (length (OldMode.state o)))) _ Hc HL)
    as (r & p' & st' & out & El & Hd & Hb); [lia|].
  rewrite El. destruct r; simpl; split; assumption.
Qed.

Lemma onread_wakes (c : chunk) (state : ReadableState) :
  needReadable state = true -> c <> [] ->
  existsb is_emit_readable (snd (onread Source None (Some c) state)) = true.
Proof.
  intros Hn Hc. unfold onread.
  destruct (chunk_length c =? 0) eqn:E; [apply chunk_length_0 in E; contradiction|].
  simpl. destruct (_ <? _); simpl; rewrite Hn; reflexivity.
Qed.

(** X25.  Data that comes while a stream in old mode is paused is kept and
    handed over by [resume]: when the consumer pauses a stream that waits
    for data, then the producer answers with data, and more happens that is
    no [resume], no ['data'] event is emitted until [resume] is called, and
    that call emits one ['data'] event with all the data buffered and
    answered in the meantime, in order, and leaves the buffer empty. *)
Theorem paused_data_comes_on_resume (o : OldMode.Old) (c : chunk)
  (evs : list OldMode.Event) :
  consistent (OldMode.state o) -> needReadable (OldMode.state o) = true ->
  c <> [] ->
  forallb (fun ev => negb (OldMode.is_resume ev)) evs = true ->
  let during :=
    OldMode.run pauses (OldMode.Call_pause :: OldMode.Answer None (Some c) :: evs) o in
  let after := OldMode.step pauses (fst during) OldMode.Call_resume in
  OldMode.data_events (snd during) = [] /\
  OldMode.data_events (snd after)
  = [List.concat (buffer (OldMode.state o)) ++ c
     ++ List.concat (map OldMode.answered evs)] /\
  List.concat (buffer (OldMode.state (fst after))) = [].
Proof.
  intros Hc Hn Hne Hev. cbv zeta.
  assert (Hrun : forall evs' o',
            consistent (OldMode.state o') ->
            consistent (OldMode.state (fst (OldMode.run pauses evs' o'))) /\
            List.concat (OldMode.data_events (snd (OldMode.run pauses evs' o')))
            ++ List.concat (buffer (OldMode.state (fst (OldMode.run pauses evs' o'))))
            = List.concat (buffer (OldMode.state o'))
              ++ List.concat (map OldMode.answered evs')).
  { induction evs' as [|ev rest IH]; intros o' Hc'.
    - simpl. rewrite app_nil_r. split; [exact Hc' | reflexivity].
    - cbn [OldMode.run map List.concat].
      destruct (old_step_conserves pauses o' ev Hc') as [Hc1 Hd1].
      destruct (OldMode.step pauses o' ev) as [o1 out1]. cbn [fst snd] in Hc1, Hd1.
      destruct (IH o1 Hc1) as [Hc2 Hd2].
      destruct (OldMode.run pauses rest o1) as [o2 out2]. cbn [fst snd] in *.
      split; [exact Hc2|].
      rewrite data_events_app, concat_app, <- app_assoc, Hd2, !app_assoc, Hd1.
      reflexivity. }
  set (all := OldMode.Call_pause :: OldMode.Answer None (Some c) :: evs).
  assert (Hall : forallb (fun ev => negb (OldMode.is_resume ev))
                   (OldMode.Answer None (Some c) :: evs) = true)
    by (simpl; exact Hev).
  (* the answer sets [readable] *)
  assert (Hwake : OldMode.readable
                    (fst (OldMode.step pauses (OldMode.pause o)
                            (OldMode.Answer None (Some c)))) = true).
  { cbn [OldMode.step OldMode.pause OldMode.state OldMode.paused OldMode.readable].
    pose proof (onread_wakes c (OldMode.state o) Hn Hne) as Hw.
    destruct (onread Source None (Some c) (OldMode.state o)) as [st e].
    rewrite fold_perform_paused. cbn [fst snd OldMode.readable] in Hw |- *.
    rewrite Hw. apply orb_true_r. }
  destruct (old_step_paused (OldMode.pause o) (OldMode.Answer None (Some c))
              eq_refl eq_refl) as (Hd1 & Hp1 & _).
  destruct (Hrun all o Hc) as [Hc2 Hd2].
  unfold all in *. clear all.
  cbn [OldMode.run OldMode.step] in Hc2, Hd2 |- *.
  change (OldMode.step pauses (OldMode.pause o) (OldMode.Answer None (Some c)))
    with (let '(st, e) := onread Source None (Some c) (OldMode.state (OldMode.pause o)) in
          fold_left (OldMode.perform pauses) e
            ({| OldMode.state := st; OldMode.paused := OldMode.paused (OldMode.pause o);
                OldMode.readable := OldMode.readable (OldMode.pause o) |}, []))
    in Hwake, Hd1, Hp1.
  cbn [OldMode.pause OldMode.state OldMode.paused OldMode.readable]
    in Hwake, Hd1, Hp1, Hc2, Hd2 |- *.
  destruct (onread Source None (Some c) (OldMode.state o)) as [st e].
  destruct (fold_left (OldMode.perform pauses) e _) as [o1 out1].
  cbn [fst snd] in Hwake, Hd1, Hp1.
  destruct (old_run_paused evs o1 Hp1 Hev) as (Hd3 & Hp3 & Hr3).
  specialize (Hr3 Hwake).
  destruct (OldMode.run pauses evs o1) as [o2 out2].
  cbn [fst snd app] in *.
  rewrite data_events_app, Hd1, Hd3 in Hd2 |- *. cbn [app List.concat] in Hd2.
  split; [reflexivity|].
  unfold OldMode.resume. cbn [OldMode.readable OldMode.state]. rewrite Hr3.
  assert (HL : 0 < length (OldMode.state o2)).
  { rewrite Hc2, total_concat, Hd2, !length_app.
    destruct c as [|b rest]; [contradiction | simpl; lia]. }
  destruct (on_readable_delivers
              {| OldMode.state := OldMode.state o2; OldMode.paused := false;
                 OldMode.readable := true |} Hc2 HL eq_refl) as [Hd4 Hb4].
  cbn [OldMode.state] in Hd4. rewrite Hd2 in Hd4.
  split; [exact Hd4 | exact Hb4].
Qed.

End OldModePause.

Lemma old_mode_paused_is_silent_witness :
  OldMode.data_events
    (snd (OldMode.run OldMode.never
            [OldMode.Call_pause; OldMode.Emit_readable; OldMode.Answer None (Some ab)]
            (OldMode.started None))) = [].
Proof.
  destruct (old_mode_paused_is_silent OldMode.never (OldMode.started None)
              [OldMode.Emit_readable; OldMode.Answer None (Some ab)]) as [H _].
  - reflexivity.
  - exact H.
Defined.

Lemma old_mode_delivers_all_witness :
  OldMode.data_events
    (snd (OldMode.step OldMode.never
            {| OldMode.state := three_buffered; OldMode.paused := false;
               OldMode.readable := false |} OldMode.Emit_readable))
  = [List.concat (buffer three_buffered)].
Proof.
  destruct (old_mode_delivers_all OldMode.never
              {| OldMode.state := three_buffered; OldMode.paused := false;
                 OldMode.readable := false |}) as [H _].
  - reflexivity.
  - reflexivity.
  - reflexivity.
  - exact H.
Defined.

Lemma paused_data_comes_on_resume_witness :
  OldMode.data_events
    (snd (OldMode.step OldMode.never
            (fst (OldMode.run OldMode.never
                    [OldMode.Call_pause; OldMode.Answer None (Some ab);
                     OldMode.Answer None (Some cd)]
                    (OldMode.started None)))
            OldMode.Call_resume))
  = [ab ++ cd].
Proof.
  destruct (paused_data_comes_on_resume OldMode.never (OldMode.started None) ab
              [OldMode.Answer None (Some cd)]) as (_ & H & _).
  - reflexivity.
  - reflexivity.
  - discriminate.
  - reflexivity.
  - exact H.
Defined.
